(** * cloud-provider-thalassa: load-balancer reconciliation

    A shallow embedding of the load-balancer part of the Thalassa cloud
    controller manager (package [provider]) and the properties of its
    specification that concern it.

    Layout:
    - [Go]: the few functions of the Go standard library the provider calls
      ([strconv.Atoi], [strconv.ParseBool], [strings.Split], integer casts).
    - [GoText]: the interface of the text functions whose behaviour depends on
      Unicode tables or on the [net] package ([strings.ToLower],
      [strings.TrimSpace], [net.ParseCIDR]); an ASCII instance is given for
      running the model on concrete services.
    - the data model ([corev1], [iaas] records), the annotation decoder, the
      desired-state builder, the node filter and the watcher: pure functions.
    - the reconcile engine: a state-and-error monad over an abstract cloud
      client that records every API call; a reference in-memory cloud is
      used to run two reconciles in a row. *)

From stdpp Require Import gmap strings list fin_maps pretty.
From Stdlib Require Import ZArith Lia Ascii.

Open Scope string_scope.
Open Scope list_scope.
Open Scope Z_scope.

(** ** Go standard library *)

Module Go.

(** [int32(x)] and [uint32(x)] on a 64-bit [int]: two's complement wrap. *)
Definition int32 (x : Z) : Z := (x + 2^31) mod 2^32 - 2^31.
Definition uint32 (x : Z) : Z := x mod 2^32.

(** [strconv.ParseBool]: exactly twelve spellings are accepted. *)
Definition ParseBool (s : string) : option bool :=
  if bool_decide (s ∈ ["1"; "t"; "T"; "TRUE"; "true"; "True"]) then Some true
  else if bool_decide (s ∈ ["0"; "f"; "F"; "FALSE"; "false"; "False"]) then Some false
  else None.

Definition digit_of (c : ascii) : option Z :=
  let n := Z.of_nat (nat_of_ascii c) in
  if bool_decide (48 <= n <= 57) then Some (n - 48) else None.

Fixpoint parse_digits (s : string) (acc : Z) : option Z :=
  match s with
  | EmptyString => Some acc
  | String c r =>
      match digit_of c with
      | Some d => parse_digits r (acc * 10 + d)
      | None => None
      end
  end.

(** [strconv.Atoi] on a 64-bit platform: an optional sign, then one or more
    decimal digits; values outside [-2^63, 2^63) are errors. *)
Definition Atoi (s : string) : option Z :=
  match s with
  | EmptyString => None
  | String c r =>
      let signed := bool_decide (c = "-"%char ∨ c = "+"%char) in
      let body := if signed then r else s in
      match body with
      | EmptyString => None
      | _ =>
          match parse_digits body 0 with
          | Some n =>
              let v := if bool_decide (c = "-"%char) then - n else n in
              if bool_decide (- 2^63 <= v < 2^63) then Some v else None
          | None => None
          end
      end
  end.

(** [fmt.Sprintf("%d", n)]. *)
Definition Itoa (n : Z) : string := pretty n.

Fixpoint has_prefix (p s : string) : bool :=
  match p, s with
  | EmptyString, _ => true
  | String a p', String b s' => bool_decide (a = b) && has_prefix p' s'
  | String _ _, EmptyString => false
  end.

(** [strings.Split(s, sep)] for a non-empty separator: [skip] counts the
    bytes of a separator occurrence still to be dropped, [cur] is the piece
    being read. *)
Fixpoint split_from (sep : string) (skip : nat) (cur s : string) : list string :=
  match s with
  | EmptyString => [cur]
  | String c s' =>
      match skip with
      | S k => split_from sep k cur s'
      | O =>
          if has_prefix sep s
          then cur :: split_from sep (String.length sep - 1) "" s'
          else split_from sep O (cur +:+ String c "") s'
      end
  end.

Definition Split (s sep : string) : list string := split_from sep O "" s.

(** [s[:n]] for [n <= len(s)]. *)
Fixpoint take_bytes (n : nat) (s : string) : string :=
  match n, s with
  | S k, String c r => String c (take_bytes k r)
  | _, _ => ""
  end.

(** [strings.Replace(s, "-", "", -1)]. *)
Fixpoint remove_byte (b : ascii) (s : string) : string :=
  match s with
  | EmptyString => ""
  | String c r => if bool_decide (c = b) then remove_byte b r else String c (remove_byte b r)
  end.

End Go.

(** A parsed network ([net.IPNet]): the bytes of its address, 4 or 16. *)
Record IPNet := { ipnet_IP : list Z }.

(** [net.IP.To4]: a 4-byte address is returned as it is, a 16-byte address
    whose first ten bytes are zero and the next two 0xff is an IPv4-mapped
    address; anything else has no IPv4 form. *)
Definition To4 (ip : list Z) : option (list Z) :=
  if bool_decide (length ip = 4%nat) then Some ip
  else if bool_decide (length ip = 16%nat
                       ∧ take 10 ip = replicate 10 0
                       ∧ take 2 (drop 10 ip) = [255; 255])
  then Some (drop 12 ip)
  else None.

(** Text functions of the Go library that the provider calls and whose
    results depend on Unicode tables or on the address parser. *)
Class GoText := {
  ToLower : string → string;
  TrimSpace : string → string;
  ParseCIDR : string → option IPNet;
}.

(** ** An instance of [GoText] for ASCII input

    [strings.ToLower] and [strings.TrimSpace] restricted to ASCII letters and
    ASCII white space, and [net.ParseCIDR] for networks written as a
    dotted-quad IPv4 address or as an IPv6 address of hexadecimal groups
    with at most one [::] (no zone, no embedded IPv4 tail), followed by
    [/] and a decimal prefix length. The theorems below hold for every
    instance; this one runs the model on concrete services. *)

Module Ascii7.

Definition lower_byte (c : ascii) : ascii :=
  let n := nat_of_ascii c in
  if bool_decide (65 ≤ n ≤ 90)%nat then ascii_of_nat (n + 32) else c.

Fixpoint to_lower (s : string) : string :=
  match s with
  | EmptyString => ""
  | String c r => String (lower_byte c) (to_lower r)
  end.

Definition is_space_byte (c : ascii) : bool :=
  bool_decide (nat_of_ascii c ∈ [9; 10; 11; 12; 13; 32]%nat).

Fixpoint trim_left (s : string) : string :=
  match s with
  | String c r => if is_space_byte c then trim_left r else s
  | EmptyString => ""
  end.

Definition trim_space (s : string) : string :=
  String.rev (trim_left (String.rev (trim_left s))).

Definition hex_of (c : ascii) : option Z :=
  let n := Z.of_nat (nat_of_ascii c) in
  if bool_decide (48 <= n <= 57) then Some (n - 48)
  else if bool_decide (97 <= n <= 102) then Some (n - 87)
  else if bool_decide (65 <= n <= 70) then Some (n - 55)
  else None.

Fixpoint parse_hex (s : string) (acc : Z) : option Z :=
  match s with
  | EmptyString => Some acc
  | String c r =>
      match hex_of c with
      | Some d => parse_hex r (acc * 16 + d)
      | None => None
      end
  end.

(** One decimal field of an IPv4 address: digits only, no leading zero,
    at most 255. *)
Definition octet (s : string) : option Z :=
  match s with
  | EmptyString => None
  | String c r =>
      if bool_decide (c = "0"%char ∧ r ≠ "") then None
      else match Go.parse_digits s 0 with
           | Some n => if bool_decide (n <= 255) then Some n else None
           | None => None
           end
  end.

(** One group of an IPv6 address: one to four hexadecimal digits, as its
    two bytes. *)
Definition group (s : string) : option (list Z) :=
  if bool_decide (1 ≤ String.length s ≤ 4)%nat
  then match parse_hex s 0 with
       | Some n => Some [n / 256; n mod 256]
       | None => None
       end
  else None.

Definition all_some {A} (l : list (option A)) : option (list A) :=
  foldr (λ o acc, match o, acc with Some x, Some r => Some (x :: r) | _, _ => None end)
        (Some []) l.

Definition groups (s : string) : option (list Z) :=
  if bool_decide (s = "") then Some []
  else (λ l : list (list Z), concat l) <$> all_some (group <$> Go.Split s ":").

Definition parse_ipv4 (s : string) : option (list Z) :=
  match all_some (octet <$> Go.Split s ".") with
  | Some l => if bool_decide (length l = 4%nat) then Some l else None
  | None => None
  end.

Definition parse_ipv6 (s : string) : option (list Z) :=
  match Go.Split s "::" with
  | [whole] =>
      match groups whole with
      | Some l => if bool_decide (length l = 16%nat) then Some l else None
      | None => None
      end
  | [before; after] =>
      match groups before, groups after with
      | Some l, Some r =>
          if bool_decide (length l + length r ≤ 14)%nat
          then Some (l ++ replicate (16 - length l - length r) 0 ++ r)
          else None
      | _, _ => None
      end
  | _ => None
  end.

Fixpoint contains_byte (b : ascii) (s : string) : bool :=
  match s with
  | EmptyString => false
  | String c r => bool_decide (c = b) || contains_byte b r
  end.

(** Byte [i] of the mask of a [/n] prefix. *)
Definition mask_byte (n : Z) (i : nat) : Z :=
  let k := n - 8 * Z.of_nat i in
  if bool_decide (8 <= k) then 255
  else if bool_decide (k <= 0) then 0
  else 256 - 2 ^ (8 - k).

Definition apply_mask (n : Z) (ip : list Z) : list Z :=
  imap (λ i b, Z.land b (mask_byte n i)) ip.

Definition parse_cidr (s : string) : option IPNet :=
  match Go.Split s "/" with
  | addr :: mask :: rest =>
      let ip := if contains_byte "."%char addr then parse_ipv4 addr
                else parse_ipv6 addr in
      match ip, Go.parse_digits mask 0 with
      | Some bytes, Some n =>
          if bool_decide (rest = [] ∧ mask ≠ "" ∧ n <= 8 * Z.of_nat (length bytes))
          then Some {| ipnet_IP := apply_mask n bytes |}
          else None
      | _, _ => None
      end
  | _ => None
  end.

End Ascii7.

Definition AsciiText : GoText := {|
  ToLower := Ascii7.to_lower;
  TrimSpace := Ascii7.trim_space;
  ParseCIDR := Ascii7.parse_cidr;
|}.

(** ** Errors

    A Go [error] keeps the structure of the [fmt.Errorf] calls that built
    it: a message, a message wrapping a cause ([": %v"]), or the error of a
    failed [strconv] call. *)
Inductive error : Type :=
  | Err (msg : string)
  | Wrap (msg : string) (cause : error)
  | NumError (fn input : string).

Global Instance error_eq_dec : EqDecision error.
Proof. solve_decision. Defined.

(** ** Data model: the orchestrator's objects (package [corev1], [discoveryv1]) *)

Record ServicePort := {
  sp_Name : string;
  sp_Protocol : string;
  sp_Port : Z;
  sp_NodePort : Z;
}.

(** [sp_Port], [sp_NodePort] and [svc_HealthCheckNodePort] are [int32]
    fields: a conversion [int32(x)] of one of them is the identity. *)
Record Service := {
  svc_Name : string;
  svc_Namespace : string;
  svc_UID : string;
  svc_Annotations : gmap string string;
  svc_Ports : list ServicePort;
  svc_ExternalTrafficPolicy : string;
  svc_HealthCheckNodePort : Z;
}.

Definition ServiceExternalTrafficPolicyTypeLocal : string := "Local".

Record Node := {
  node_Name : string;
  node_ProviderID : string;
}.

(** [NodeName], [Conditions.Ready] and [Conditions.Terminating] are
    pointers: [None] is [nil]. *)
Record Endpoint := {
  ep_NodeName : option string;
  ep_Ready : option bool;
  ep_Terminating : option bool;
}.

Record EndpointSlice := {
  eps_Namespace : string;
  eps_Labels : gmap string string;
  eps_Endpoints : list Endpoint;
}.

Definition LabelServiceName : string := "kubernetes.io/service-name".

(** ** Data model: the cloud's objects (package [iaas]) *)

Record BackendHealthCheck := {
  hc_Port : Z;
  hc_Protocol : string;
  hc_Path : string;
  hc_TimeoutSeconds : Z;
  hc_PeriodSeconds : Z;
  hc_HealthyThreshold : Z;
  hc_UnhealthyThreshold : Z;
}.

(** [tg_LoadbalancerListeners] holds the identities of the listeners that
    reference the target group; the provider only looks at its length. *)
Record VpcLoadbalancerTargetGroup := {
  tg_Identity : string;
  tg_Name : string;
  tg_Description : string;
  tg_Labels : gmap string string;
  tg_Annotations : gmap string string;
  tg_Protocol : string;
  tg_TargetPort : Z;
  tg_EnableProxyProtocol : option bool;
  tg_LoadbalancingPolicy : option string;
  tg_HealthCheck : option BackendHealthCheck;
  tg_LoadbalancerListeners : list string;
}.

Record VpcLoadbalancerListener := {
  l_Identity : string;
  l_Name : string;
  l_Description : string;
  l_Labels : gmap string string;
  l_Annotations : gmap string string;
  l_Port : Z;
  l_Protocol : string;
  l_TargetGroup : option VpcLoadbalancerTargetGroup;
  l_AllowedSources : list string;
  l_ConnectionIdleTimeout : option Z;
  l_MaxConnections : option Z;
}.

Record Subnet := {
  subnet_Identity : string;
  subnet_Slug : string;
}.

Record Vpc := { vpc_Subnets : list Subnet }.

Inductive SecurityGroupIPVersion := IPv4 | IPv6.
Inductive SecurityGroupRuleProtocol := ProtocolAll | ProtocolTCP | ProtocolUDP.
Inductive SecurityGroupRuleRemoteType := RemoteTypeAddress.
Inductive SecurityGroupRulePolicy := PolicyAllow | PolicyDrop.

Record SecurityGroupRule := {
  rule_Name : string;
  rule_IPVersion : SecurityGroupIPVersion;
  rule_Protocol : SecurityGroupRuleProtocol;
  rule_Priority : Z;
  rule_RemoteType : SecurityGroupRuleRemoteType;
  rule_RemoteAddress : option string;
  rule_PortRangeMin : Z;
  rule_PortRangeMax : Z;
  rule_Policy : option SecurityGroupRulePolicy;
}.

Record SecurityGroup := {
  sg_Identity : string;
  sg_Name : string;
  sg_Description : string;
  sg_Labels : gmap string string;
  sg_ObjectVersion : Z;
  sg_IngressRules : list SecurityGroupRule;
  sg_EgressRules : list SecurityGroupRule;
}.

(** [lb_InternalLoadbalancer] is the cloud's attribute of the load
    balancer; the provider never reads it back. *)
Record VpcLoadbalancer := {
  lb_Identity : string;
  lb_Name : string;
  lb_Description : string;
  lb_Labels : gmap string string;
  lb_Annotations : gmap string string;
  lb_Subnet : string;
  lb_SecurityGroups : list string;
  lb_ExternalIpAddresses : list string;
  lb_Hostname : string;
  lb_Status : string;
  lb_DeleteProtection : bool;
  lb_InternalLoadbalancer : bool;
}.

(** The ingress entries of [corev1.LoadBalancerStatus]. *)
Inductive LoadBalancerIPMode := LoadBalancerIPModeVIP | LoadBalancerIPModeProxy.

Record LoadBalancerIngress := {
  ing_IP : string;
  ing_Hostname : string;
  ing_IPMode : option LoadBalancerIPMode;
}.

Global Instance BackendHealthCheck_eq_dec : EqDecision BackendHealthCheck.
Proof. solve_decision. Defined.
Global Instance VpcLoadbalancerTargetGroup_eq_dec : EqDecision VpcLoadbalancerTargetGroup.
Proof. solve_decision. Defined.
Global Instance VpcLoadbalancerListener_eq_dec : EqDecision VpcLoadbalancerListener.
Proof. solve_decision. Defined.
Global Instance SecurityGroupIPVersion_eq_dec : EqDecision SecurityGroupIPVersion.
Proof. solve_decision. Defined.
Global Instance SecurityGroupRuleProtocol_eq_dec : EqDecision SecurityGroupRuleProtocol.
Proof. solve_decision. Defined.
Global Instance SecurityGroupRuleRemoteType_eq_dec : EqDecision SecurityGroupRuleRemoteType.
Proof. solve_decision. Defined.
Global Instance SecurityGroupRulePolicy_eq_dec : EqDecision SecurityGroupRulePolicy.
Proof. solve_decision. Defined.
Global Instance SecurityGroupRule_eq_dec : EqDecision SecurityGroupRule.
Proof. solve_decision. Defined.

(** ** Annotation names and defaults *)

Definition LoadBalancerAnnotationSubnetID := "loadbalancer.k8s.thalassa.cloud/subnet".
Definition LoadbalancerAnnotationInternal := "loadbalancer.k8s.thalassa.cloud/internal".
Definition LoadbalancerAnnotationEnableProxyProtocol := "loadbalancer.k8s.thalassa.cloud/enable-proxy-protocol".
Definition LoadbalancerAnnotationIdleConnectionTimeout := "loadbalancer.k8s.thalassa.cloud/idle-connection-timeout".
Definition LoadbalancerAnnotationMaxConnections := "loadbalancer.k8s.thalassa.cloud/max-connections".
Definition LoadbalancerAnnotationLoadbalancingPolicy := "loadbalancer.k8s.thalassa.cloud/loadbalancing-policy".
Definition LoadbalancerAnnotationHealthCheckEnabled := "loadbalancer.k8s.thalassa.cloud/health-check-enabled".
Definition LoadbalancerAnnotationHealthCheckPath := "loadbalancer.k8s.thalassa.cloud/health-check-path".
Definition LoadbalancerAnnotationHealthCheckPort := "loadbalancer.k8s.thalassa.cloud/health-check-port".
Definition LoadbalancerAnnotationHealthCheckProtocol := "loadbalancer.k8s.thalassa.cloud/health-check-protocol".
Definition LoadbalancerAnnotationHealthCheckInterval := "loadbalancer.k8s.thalassa.cloud/health-check-interval".
Definition LoadbalancerAnnotationHealthCheckTimeout := "loadbalancer.k8s.thalassa.cloud/health-check-timeout".
Definition LoadbalancerAnnotationHealthCheckUpThreshold := "loadbalancer.k8s.thalassa.cloud/health-check-up-threshold".
Definition LoadbalancerAnnotationHealthCheckDownThreshold := "loadbalancer.k8s.thalassa.cloud/health-check-down-threshold".
Definition LoadbalancerAnnotationAclAllowedSources := "loadbalancer.k8s.thalassa.cloud/acl-allowed-sources".
Definition LoadbalancerAnnotationAclAllowedSourcesPort := "loadbalancer.k8s.thalassa.cloud/acl-port".
Definition LoadBalancerAnnotationSecurityGroups := "loadbalancer.k8s.thalassa.cloud/security-groups".

(** Modelled from the spec: the declaration of
    [LoadBalancerAnnotationCreateSecurityGroup] is not among the source
    files; the annotation table names the option [create-security-group]
    under the common prefix. *)
Definition LoadBalancerAnnotationCreateSecurityGroup := "loadbalancer.k8s.thalassa.cloud/create-security-group".

Definition DefaultIdleConnectionTimeout : Z := 6000.
Definition DefaultMaxConnections : Z := 10000.
Definition DefaultEnableProxyProtocol : bool := false.
Definition DefaultLoadbalancingPolicy : string := "ROUND_ROBIN".

Definition DefaultHealthCheckPath : string := "/healthz".
Definition DefaultHealthCheckTimeoutSeconds : Z := 5.
Definition DefaultHealthCheckPeriodSeconds : Z := 10.
Definition DefaultHealthCheckHealthyThreshold : Z := 2.
Definition DefaultHealthCheckUnhealthyThreshold : Z := 3.
Definition DefaultHealthCheckProtocol : string := "http".

(** Constants of the cloud client. *)
Definition LoadbalancingPolicyRoundRobin : string := "ROUND_ROBIN".
Definition LoadbalancingPolicyRandom : string := "RANDOM".
Definition LoadbalancingPolicyMagLev : string := "MAGLEV".
Definition ProtocolHTTP : string := "http".

(** ** Annotation decoder

    A Go result [(v, err)] is a pair whose second component is [None] for a
    [nil] error: the decoder returns the default together with the error,
    and the callers that tolerate the error go on with the value. *)

Definition getStringAnnotation (service : Service) (annotation defaultValue : string)
  : string * option error :=
  match svc_Annotations service !! annotation with
  | Some val => (val, None)
  | None => (defaultValue, None)
  end.

Definition getIntAnnotation (service : Service) (annotation : string) (defaultValue : Z)
  : Z * option error :=
  match svc_Annotations service !! annotation with
  | Some val =>
      match Go.Atoi val with
      | None => (defaultValue, Some (Wrap ("failed to parse " +:+ annotation) (NumError "Atoi" val)))
      | Some c => (c, None)
      end
  | None => (defaultValue, None)
  end.

Definition getBoolAnnotation (service : Service) (annotation : string) (defaultValue : bool)
  : bool * option error :=
  match svc_Annotations service !! annotation with
  | Some val =>
      match Go.ParseBool val with
      | None => (defaultValue, Some (Wrap ("failed to parse " +:+ annotation) (NumError "ParseBool" val)))
      | Some enabled => (enabled, None)
      end
  | None => (defaultValue, None)
  end.

Definition invalid_policy_error (policy : string) : error :=
  Err ("invalid loadbalancing policy: " +:+ policy +:+ ", must be one of: ROUND_ROBIN, RANDOM, MAGLEV").

Definition GetLoadbalancingPolicy (service : Service) : string * option error :=
  match getStringAnnotation service LoadbalancerAnnotationLoadbalancingPolicy DefaultLoadbalancingPolicy with
  | (_, Some err) => (LoadbalancingPolicyRoundRobin, Some err)
  | (policy, None) =>
      if bool_decide (policy = LoadbalancingPolicyRoundRobin
                      ∨ policy = LoadbalancingPolicyRandom
                      ∨ policy = LoadbalancingPolicyMagLev)
      then (policy, None)
      else (LoadbalancingPolicyRoundRobin, Some (invalid_policy_error policy))
  end.

(** ** The provider's receiver and the label scheme *)

Record loadbalancer := {
  additionalLabels : gmap string string;
  vpcIdentity : string;
  defaultSubnet : string;
  cluster : string;
  CreationPollInterval : option Z;
  CreationPollTimeout : option Z;
}.

(** [cloudprovider.DefaultLoadBalancerName] of the orchestrator's library:
    ["a"] followed by the UID without its dashes, cut to 32 bytes. *)
Definition DefaultLoadBalancerName (service : Service) : string :=
  Go.take_bytes 32 (Go.remove_byte "-"%char ("a" +:+ svc_UID service)).

Definition GetLoadBalancerName (lb : loadbalancer) (service : Service) : string :=
  DefaultLoadBalancerName service.

(** [for key, val := range extra { if _, ok := labels[key]; !ok { labels[key] = val } }] *)
Definition merge_missing (labels extra : gmap string string) : gmap string string :=
  map_fold (λ key val acc, match acc !! key with Some _ => acc | None => <[key:=val]> acc end)
           labels extra.

Definition GetLabelsForVpcLoadbalancer (lb : loadbalancer) (service : Service)
  : gmap string string :=
  let labels : gmap string string :=
    <["k8s.thalassa.cloud/kubernetes-cluster" := cluster lb]>
    (<["k8s.thalassa.cloud/cloud-provider-managed" := "true"]>
    (<["k8s.thalassa.cloud/kubernetes-service-name" := svc_Name service]>
    (<["k8s.thalassa.cloud/kubernetes-service-namespace" := svc_Namespace service]>
    (<["k8s.thalassa.cloud/kubernetes-service-uid" := svc_UID service]> ∅)))) in
  merge_missing labels (additionalLabels lb).

Definition GetAnnotationsForVpcLoadbalancer (lb : loadbalancer) (service : Service)
  : gmap string string := ∅.

(** [actualLabels[k]] of a missing key is the empty string. *)
Definition matchLabels (expectedLabels actualLabels : gmap string string) : bool :=
  bool_decide (map_Forall (λ k v, default "" (actualLabels !! k) = v) expectedLabels).

Section Provider.
Context `{GoText}.

Definition GetLabelsForVpcLoadbalancerTargetGroup
    (lb : loadbalancer) (service : Service) (port : Z) (protocol : string)
  : gmap string string :=
  let labels := GetLabelsForVpcLoadbalancer lb service in
  let portLabels : gmap string string :=
    <["k8s.thalassa.cloud/kubernetes-service-port" := Go.Itoa port]>
    (<["k8s.thalassa.cloud/kubernetes-service-protocol" := ToLower protocol]> ∅) in
  merge_missing labels portLabels.

Definition getPortName (lbName : string) (port : ServicePort) : string :=
  if bool_decide (sp_Name port ≠ "")
  then lbName +:+ "-" +:+ sp_Name port
  else lbName +:+ "-" +:+ ToLower (sp_Protocol port) +:+ "-p" +:+ Go.Itoa (sp_Port port).

(** ** Desired listeners and their access-control lists *)

(** The body of the loop of [parseAclSources]: one comma-separated entry. *)
Definition parseAclSources_step (validSources : list string) (source : string) : list string :=
  let source := TrimSpace source in
  if bool_decide (source = "") then validSources
  else match ParseCIDR source with
       | None => validSources
       | Some _ => validSources ++ [source]
       end.

Definition parseAclSources (sourcesStr : string) : list string :=
  foldl parseAclSources_step [] (Go.Split sourcesStr ",").

(** [keys] is the [map[string]bool] of the strings already seen. *)
Definition removeDuplicateStrings_step
    (st : gmap string bool * list string) (item : string) : gmap string bool * list string :=
  let '(keys, result) := st in
  if default false (keys !! item) then (keys, result)
  else (<[item := true]> keys, result ++ [item]).

Definition removeDuplicateStrings (input : list string) : list string :=
  (foldl removeDuplicateStrings_step (∅, []) input).2.

Definition getPerPortAclAllowedSources (service : Service) (port : ServicePort) : list string :=
  let allowedSources : list string := [] in
  let allowedSources :=
    if bool_decide (sp_Name port ≠ "") then
      let portNameAnnotation := LoadbalancerAnnotationAclAllowedSourcesPort +:+ "-" +:+ sp_Name port in
      match svc_Annotations service !! portNameAnnotation with
      | Some val => allowedSources ++ parseAclSources val
      | None => allowedSources
      end
    else allowedSources in
  let portNumberAnnotation :=
    LoadbalancerAnnotationAclAllowedSourcesPort +:+ "-" +:+ Go.Itoa (sp_Port port) in
  let allowedSources :=
    match svc_Annotations service !! portNumberAnnotation with
    | Some val => allowedSources ++ parseAclSources val
    | None => allowedSources
    end in
  removeDuplicateStrings allowedSources.

Definition desiredListenerForPort (lb : loadbalancer) (service : Service)
    (globalAclAllowedSources : list string) (connectionTimeout maxConnections : Z)
    (port : ServicePort) : VpcLoadbalancerListener :=
  let perPortAclAllowedSources := getPerPortAclAllowedSources service port in
  let combinedAclAllowedSources :=
    removeDuplicateStrings (globalAclAllowedSources ++ perPortAclAllowedSources) in
  {| l_Identity := "";
     l_Name := getPortName (GetLoadBalancerName lb service) port;
     l_Description := "Listener for Kubernetes service " +:+ svc_Name service;
     l_Labels := GetLabelsForVpcLoadbalancerTargetGroup lb service (sp_Port port) (sp_Protocol port);
     l_Annotations := GetAnnotationsForVpcLoadbalancer lb service;
     l_Port := sp_Port port;
     l_Protocol := ToLower (sp_Protocol port);
     l_TargetGroup := Some {| tg_Identity := ""; tg_Name := sp_Name port; tg_Description := "";
                              tg_Labels := ∅; tg_Annotations := ∅; tg_Protocol := "";
                              tg_TargetPort := 0; tg_EnableProxyProtocol := None;
                              tg_LoadbalancingPolicy := None; tg_HealthCheck := None;
                              tg_LoadbalancerListeners := [] |};
     l_AllowedSources := combinedAclAllowedSources;
     l_ConnectionIdleTimeout := Some (Go.uint32 connectionTimeout);
     l_MaxConnections := Some (Go.uint32 maxConnections) |}.

Definition desiredVpcLoadbalancerListener (lb : loadbalancer) (service : Service)
  : list VpcLoadbalancerListener :=
  let globalAclAllowedSources :=
    match svc_Annotations service !! LoadbalancerAnnotationAclAllowedSources with
    | Some val => parseAclSources val
    | None => []
    end in
  let '(connectionTimeout, _) :=
    getIntAnnotation service LoadbalancerAnnotationIdleConnectionTimeout DefaultIdleConnectionTimeout in
  let '(maxConnections, _) :=
    getIntAnnotation service LoadbalancerAnnotationMaxConnections DefaultMaxConnections in
  desiredListenerForPort lb service globalAclAllowedSources connectionTimeout maxConnections
    <$> svc_Ports service.

(** ** Desired target groups *)

Definition desiredTargetGroupForPort (lb : loadbalancer) (service : Service)
    (lbName : string) (enableProxyProtocol : bool) (loadbalancingPolicy : string)
    (healthCheckEnabled : bool) (healthCheckPath : string) (healthCheckPort : Z)
    (healthCheckProtocol : string)
    (healthCheckTimeoutSeconds healthCheckPeriodSeconds : Z)
    (healthCheckHealthyThreshold healthCheckUnhealthyThreshold : Z)
    (svcPort : ServicePort) : VpcLoadbalancerTargetGroup :=
  let healthCheck :=
    if bool_decide (svc_HealthCheckNodePort service > 0) then
      let port := svc_HealthCheckNodePort service in
      let port := if bool_decide (healthCheckPort > 0) then Go.int32 healthCheckPort else port in
      Some {| hc_Port := port;
              hc_Protocol := ProtocolHTTP;
              hc_Path := healthCheckPath;
              hc_TimeoutSeconds := healthCheckTimeoutSeconds;
              hc_PeriodSeconds := healthCheckPeriodSeconds;
              hc_HealthyThreshold := Go.int32 healthCheckHealthyThreshold;
              hc_UnhealthyThreshold := Go.int32 healthCheckUnhealthyThreshold |}
    else if bool_decide (healthCheckPort ≠ -1) && healthCheckEnabled then
      Some {| hc_Port := Go.int32 healthCheckPort;
              hc_Protocol := healthCheckProtocol;
              hc_Path := healthCheckPath;
              hc_TimeoutSeconds := healthCheckTimeoutSeconds;
              hc_PeriodSeconds := healthCheckPeriodSeconds;
              hc_HealthyThreshold := Go.int32 healthCheckHealthyThreshold;
              hc_UnhealthyThreshold := Go.int32 healthCheckUnhealthyThreshold |}
    else None in
  {| tg_Identity := "";
     tg_Name := getPortName lbName svcPort;
     tg_Description := "";
     tg_Labels := GetLabelsForVpcLoadbalancerTargetGroup lb service (sp_Port svcPort) (sp_Protocol svcPort);
     tg_Annotations := ∅;
     tg_Protocol := ToLower (sp_Protocol svcPort);
     tg_TargetPort := sp_NodePort svcPort;
     tg_EnableProxyProtocol := Some enableProxyProtocol;
     tg_LoadbalancingPolicy := Some loadbalancingPolicy;
     tg_HealthCheck := healthCheck;
     tg_LoadbalancerListeners := [] |}.

(** The result pairs the target groups ([[]] for a [nil] slice) with the
    error. *)
Definition getDesiredVpcLoadbalancerTargetGroups (l : loadbalancer) (service : Service)
    (nodes : list Node) : list VpcLoadbalancerTargetGroup * option error :=
  let '(enableProxyProtocol, _) :=
    getBoolAnnotation service LoadbalancerAnnotationEnableProxyProtocol DefaultEnableProxyProtocol in
  match GetLoadbalancingPolicy service with
  | (_, Some err) => ([], Some err)
  | (loadbalancingPolicy, None) =>
      let '(healthCheckEnabled, _) :=
        getBoolAnnotation service LoadbalancerAnnotationHealthCheckEnabled false in
      let '(healthCheckPath, _) :=
        getStringAnnotation service LoadbalancerAnnotationHealthCheckPath DefaultHealthCheckPath in
      let '(healthCheckPort, _) :=
        getIntAnnotation service LoadbalancerAnnotationHealthCheckPort (-1) in
      let '(healthCheckProtocol, _) :=
        getStringAnnotation service LoadbalancerAnnotationHealthCheckProtocol DefaultHealthCheckProtocol in
      let '(healthCheckTimeoutSeconds, _) :=
        getIntAnnotation service LoadbalancerAnnotationHealthCheckTimeout DefaultHealthCheckTimeoutSeconds in
      let '(healthCheckPeriodSeconds, _) :=
        getIntAnnotation service LoadbalancerAnnotationHealthCheckInterval DefaultHealthCheckPeriodSeconds in
      let '(healthCheckHealthyThreshold, _) :=
        getIntAnnotation service LoadbalancerAnnotationHealthCheckUpThreshold DefaultHealthCheckHealthyThreshold in
      let '(healthCheckUnhealthyThreshold, _) :=
        getIntAnnotation service LoadbalancerAnnotationHealthCheckDownThreshold DefaultHealthCheckUnhealthyThreshold in
      let lbName := GetLoadBalancerName l service in
      (desiredTargetGroupForPort l service lbName enableProxyProtocol loadbalancingPolicy
         healthCheckEnabled healthCheckPath healthCheckPort healthCheckProtocol
         healthCheckTimeoutSeconds healthCheckPeriodSeconds
         healthCheckHealthyThreshold healthCheckUnhealthyThreshold
       <$> svc_Ports service, None)
  end.

End Provider.

(** ** Node filter *)

(** [epSliceLister] lists, from the informer cache, the endpoint slices of
    a namespace labelled with a Service name; the lookup can fail. *)
Record NodeFilter := {
  epSliceLister : string → string → error + list EndpointSlice;
}.

(** The three [continue] tests on one endpoint, then the insertion into the
    [map[string]struct{}] of ready nodes. *)
Definition collect_endpoint (readyNodes : gset string) (ep : Endpoint) : gset string :=
  match ep_NodeName ep with
  | None => readyNodes
  | Some nodeName =>
      if bool_decide (ep_Ready ep = Some false) then readyNodes
      else if bool_decide (ep_Terminating ep = Some true) then readyNodes
      else {[nodeName]} ∪ readyNodes
  end.

Definition collect_slices (slices : list EndpointSlice) : gset string :=
  foldl (λ readyNodes sl, foldl collect_endpoint readyNodes (eps_Endpoints sl)) ∅ slices.

Definition Filter (f : NodeFilter) (svc : Service) (nodes : list Node)
  : list Node * option error :=
  if bool_decide (svc_ExternalTrafficPolicy svc ≠ ServiceExternalTrafficPolicyTypeLocal)
  then (nodes, None)
  else
    match epSliceLister f (svc_Namespace svc) (svc_Name svc) with
    | inl err => ([], Some err)
    | inr slices =>
        if bool_decide (length slices = 0%nat) then (nodes, None)
        else
          let readyNodes := collect_slices slices in
          if bool_decide (size readyNodes = 0%nat) then (nodes, None)
          else
            let filtered :=
              foldl (λ filtered n,
                       if bool_decide (node_Name n ∈ readyNodes)
                       then filtered ++ [n] else filtered)
                    [] nodes in
            (filtered, None)
    end.

(** ** Endpoint-slice watcher

    [localTrafficServices] is the set of keys of the concurrent map; a
    handler returns the keys it passes to [onEndpointSliceChange], in
    order. An event object that is not an endpoint slice is [None]. *)
Record EndpointSliceWatcher := {
  localTrafficServices : gset string;
}.

Definition getServiceKeyFromEndpointSlice (epSlice : EndpointSlice) : string :=
  match eps_Labels epSlice !! LabelServiceName with
  | None => ""
  | Some serviceName => eps_Namespace epSlice +:+ "/" +:+ serviceName
  end.

Definition hasLocalTrafficPolicy (w : EndpointSliceWatcher) (serviceKey : string) : bool :=
  bool_decide (serviceKey ∈ localTrafficServices w).

Definition collect_ready (nodes : gset string) (ep : Endpoint) : gset string :=
  match ep_NodeName ep, ep_Ready ep with
  | Some nodeName, Some true => {[nodeName]} ∪ nodes
  | _, _ => nodes
  end.

Definition hasNodeAssignmentChanged (oldEpSlice newEpSlice : EndpointSlice) : bool :=
  let oldNodes := foldl collect_ready ∅ (eps_Endpoints oldEpSlice) in
  let newNodes := foldl collect_ready ∅ (eps_Endpoints newEpSlice) in
  if bool_decide (size oldNodes ≠ size newNodes) then true
  else if existsb (λ nodeName, negb (bool_decide (nodeName ∈ newNodes))) (elements oldNodes)
  then true
  else false.

Definition handleEndpointSliceUpdate (w : EndpointSliceWatcher)
    (oldObj newObj : option EndpointSlice) : list string :=
  match oldObj with
  | None => []
  | Some oldEpSlice =>
      match newObj with
      | None => []
      | Some newEpSlice =>
          let serviceKey := getServiceKeyFromEndpointSlice newEpSlice in
          if bool_decide (serviceKey = "") then []
          else if negb (hasLocalTrafficPolicy w serviceKey) then []
          else if hasNodeAssignmentChanged oldEpSlice newEpSlice then [serviceKey]
          else []
      end
  end.

(** ** Load-balancer status *)

(** The loop that [GetLoadBalancer], [EnsureLoadBalancer] and
    [updateVpcLoadbalancerListenersAndTargetGroups] each run over the
    external addresses of the cloud load balancer. *)
Definition ingress_loop (vpcLoadbalancer : VpcLoadbalancer) : list LoadBalancerIngress :=
  foldl (λ ingress ip,
           if bool_decide (ip ≠ "")
           then ingress ++ [{| ing_IP := ip;
                               ing_Hostname := lb_Hostname vpcLoadbalancer;
                               ing_IPMode := Some LoadBalancerIPModeProxy |}]
           else ingress)
        [] (lb_ExternalIpAddresses vpcLoadbalancer).

(** ** Managed security group rules *)

Section SecurityGroupRules.
Context `{GoText}.

Definition ingress_rule (priority : Z) (l : VpcLoadbalancerListener) (src : string)
  : SecurityGroupRule :=
  let ipVer :=
    match ParseCIDR src with
    | Some ipnet =>
        match To4 (ipnet_IP ipnet) with
        | None => IPv6
        | Some _ => IPv4
        end
    | None => IPv4
    end in
  let proto :=
    if bool_decide (ToLower (l_Protocol l) = "udp") then ProtocolUDP else ProtocolTCP in
  {| rule_Name := ToLower (l_Protocol l) +:+ "-" +:+ Go.Itoa (l_Port l);
     rule_IPVersion := ipVer;
     rule_Protocol := proto;
     rule_Priority := priority;
     rule_RemoteType := RemoteTypeAddress;
     rule_RemoteAddress := Some src;
     rule_PortRangeMin := Go.int32 (l_Port l);
     rule_PortRangeMax := Go.int32 (l_Port l);
     rule_Policy := Some PolicyAllow |}.

(** [priority] is set once, before the two loops, and read in every rule. *)
Definition buildIngressRulesFromListeners (listeners : list VpcLoadbalancerListener)
  : list SecurityGroupRule :=
  let priority := Go.int32 100 in
  foldl (λ rules l,
           foldl (λ rules src, rules ++ [ingress_rule priority l src])
                 rules (l_AllowedSources l))
        [] listeners.

(** The [egress] literal of [ensureManagedSecurityGroup]; the fields it
    leaves out have their zero value. *)
Definition managed_egress_rules : list SecurityGroupRule :=
  [ {| rule_Name := "allow-all-outbound"; rule_IPVersion := IPv4;
       rule_Protocol := ProtocolAll; rule_Priority := 100;
       rule_RemoteType := RemoteTypeAddress;
       rule_RemoteAddress := Some "0.0.0.0/0";
       rule_PortRangeMin := 0; rule_PortRangeMax := 0; rule_Policy := None |};
    {| rule_Name := "allow-all-outbound"; rule_IPVersion := IPv6;
       rule_Protocol := ProtocolAll; rule_Priority := 110;
       rule_RemoteType := RemoteTypeAddress;
       rule_RemoteAddress := Some "::/0";
       rule_PortRangeMin := 0; rule_PortRangeMax := 0; rule_Policy := None |} ].

End SecurityGroupRules.

(** ** The cloud client

    Requests carry the fields the provider sets. *)

Record CreateLoadbalancerRequest := {
  clb_Name : string;
  clb_Description : string;
  clb_Labels : gmap string string;
  clb_Annotations : gmap string string;
  clb_Subnet : string;
  clb_InternalLoadbalancer : bool;
  clb_SecurityGroupAttachments : list string;
}.

Record UpdateLoadbalancerRequest := {
  ulb_Name : string;
  ulb_Description : string;
  ulb_Labels : gmap string string;
  ulb_Annotations : gmap string string;
  ulb_Subnet : option string;
  ulb_DeleteProtection : bool;
  ulb_SecurityGroupAttachments : list string;
}.

Record CreateTargetGroupRequest := {
  ctg_Vpc : string;
  ctg_Name : string;
  ctg_Description : string;
  ctg_Protocol : string;
  ctg_TargetPort : Z;
  ctg_Labels : gmap string string;
  ctg_Annotations : gmap string string;
  ctg_HealthCheck : option BackendHealthCheck;
  ctg_EnableProxyProtocol : option bool;
  ctg_LoadbalancingPolicy : option string;
}.

Record UpdateTargetGroupRequest := {
  utg_Identity : string;
  utg_Name : string;
  utg_Description : string;
  utg_Protocol : string;
  utg_TargetPort : Z;
  utg_Labels : gmap string string;
  utg_Annotations : gmap string string;
  utg_HealthCheck : option BackendHealthCheck;
  utg_EnableProxyProtocol : option bool;
  utg_LoadbalancingPolicy : option string;
}.

(** [Attachments] as the list of their [ServerIdentity]. *)
Record TargetGroupAttachmentsBatch := {
  batch_TargetGroupID : string;
  batch_Attachments : list string;
}.

(** [iaas.CreateListener] and [iaas.UpdateListener]: the same fields. *)
Record ListenerRequest := {
  lr_Name : string;
  lr_Description : string;
  lr_Labels : gmap string string;
  lr_Annotations : gmap string string;
  lr_Port : Z;
  lr_Protocol : string;
  lr_TargetGroup : string;
  lr_AllowedSources : list string;
  lr_ConnectionIdleTimeout : option Z;
  lr_MaxConnections : option Z;
}.

Record CreateSecurityGroupRequest := {
  csg_Name : string;
  csg_Description : string;
  csg_Labels : gmap string string;
  csg_Annotations : gmap string string;
  csg_VpcIdentity : string;
  csg_AllowSameGroupTraffic : bool;
  csg_IngressRules : list SecurityGroupRule;
  csg_EgressRules : list SecurityGroupRule;
}.

Record UpdateSecurityGroupRequest := {
  usg_Name : string;
  usg_Description : string;
  usg_Labels : gmap string string;
  usg_Annotations : gmap string string;
  usg_ObjectVersion : Z;
  usg_AllowSameGroupTraffic : bool;
  usg_IngressRules : list SecurityGroupRule;
  usg_EgressRules : list SecurityGroupRule;
}.

(** The calls of [iaasClient] that the provider makes, over a cloud whose
    state has type [St]. A list call takes its filters: the VPC identity
    and the labels to match, when the provider passes them. *)
Class IaasClient (St : Type) := {
  iaas_ListLoadbalancers : string → St → (error + list VpcLoadbalancer) * St;
  iaas_GetVpc : string → St → (error + Vpc) * St;
  iaas_CreateLoadbalancer : CreateLoadbalancerRequest → St → (error + VpcLoadbalancer) * St;
  iaas_UpdateLoadbalancer : string → UpdateLoadbalancerRequest → St → (error + VpcLoadbalancer) * St;
  iaas_DeleteLoadbalancer : string → St → option error * St;
  iaas_ListSecurityGroups : string → option (gmap string string) → St → (error + list SecurityGroup) * St;
  iaas_CreateSecurityGroup : CreateSecurityGroupRequest → St → (error + SecurityGroup) * St;
  iaas_UpdateSecurityGroup : string → UpdateSecurityGroupRequest → St → (error + SecurityGroup) * St;
  iaas_DeleteSecurityGroup : string → St → option error * St;
  iaas_ListTargetGroups : option string → gmap string string → St → (error + list VpcLoadbalancerTargetGroup) * St;
  iaas_CreateTargetGroup : CreateTargetGroupRequest → St → (error + option VpcLoadbalancerTargetGroup) * St;
  iaas_UpdateTargetGroup : UpdateTargetGroupRequest → St → (error + option VpcLoadbalancerTargetGroup) * St;
  iaas_DeleteTargetGroup : string → St → option error * St;
  iaas_SetTargetGroupServerAttachments : TargetGroupAttachmentsBatch → St → option error * St;
  iaas_ListListeners : string → St → (error + list VpcLoadbalancerListener) * St;
  iaas_CreateListener : string → ListenerRequest → St → (error + VpcLoadbalancerListener) * St;
  iaas_UpdateListener : string → string → ListenerRequest → St → (error + VpcLoadbalancerListener) * St;
  iaas_DeleteListener : string → string → St → option error * St;
}.

(** One call sent to the cloud, with the answer it got. *)
Inductive Event : Type :=
  | EvListLoadbalancers (vpc : string) (resp : error + list VpcLoadbalancer)
  | EvGetVpc (identity : string) (resp : error + Vpc)
  | EvCreateLoadbalancer (req : CreateLoadbalancerRequest) (resp : error + VpcLoadbalancer)
  | EvUpdateLoadbalancer (identity : string) (req : UpdateLoadbalancerRequest) (resp : error + VpcLoadbalancer)
  | EvDeleteLoadbalancer (identity : string) (resp : option error)
  | EvListSecurityGroups (vpc : string) (labels : option (gmap string string)) (resp : error + list SecurityGroup)
  | EvCreateSecurityGroup (req : CreateSecurityGroupRequest) (resp : error + SecurityGroup)
  | EvUpdateSecurityGroup (identity : string) (req : UpdateSecurityGroupRequest) (resp : error + SecurityGroup)
  | EvDeleteSecurityGroup (identity : string) (resp : option error)
  | EvListTargetGroups (vpc : option string) (labels : gmap string string) (resp : error + list VpcLoadbalancerTargetGroup)
  | EvCreateTargetGroup (req : CreateTargetGroupRequest) (resp : error + option VpcLoadbalancerTargetGroup)
  | EvUpdateTargetGroup (req : UpdateTargetGroupRequest) (resp : error + option VpcLoadbalancerTargetGroup)
  | EvDeleteTargetGroup (identity : string) (resp : option error)
  | EvSetTargetGroupServerAttachments (batch : TargetGroupAttachmentsBatch) (resp : option error)
  | EvListListeners (loadbalancer : string) (resp : error + list VpcLoadbalancerListener)
  | EvCreateListener (loadbalancer : string) (req : ListenerRequest) (resp : error + VpcLoadbalancerListener)
  | EvUpdateListener (loadbalancer listener : string) (req : ListenerRequest) (resp : error + VpcLoadbalancerListener)
  | EvDeleteListener (loadbalancer listener : string) (resp : option error).

(** The read-only calls are the list and get calls. *)
Definition is_mutation (ev : Event) : bool :=
  match ev with
  | EvListLoadbalancers _ _ | EvGetVpc _ _ | EvListSecurityGroups _ _ _
  | EvListTargetGroups _ _ _ | EvListListeners _ _ => false
  | _ => true
  end.

Definition is_create_or_delete (ev : Event) : bool :=
  match ev with
  | EvCreateLoadbalancer _ _ | EvDeleteLoadbalancer _ _
  | EvCreateSecurityGroup _ _ | EvDeleteSecurityGroup _ _
  | EvCreateTargetGroup _ _ | EvDeleteTargetGroup _ _
  | EvCreateListener _ _ _ | EvDeleteListener _ _ _ => true
  | _ => false
  end.

(** The name of the call, without its arguments. *)
Definition call_name (ev : Event) : string :=
  match ev with
  | EvListLoadbalancers _ _ => "ListLoadbalancers"
  | EvGetVpc _ _ => "GetVpc"
  | EvCreateLoadbalancer _ _ => "CreateLoadbalancer"
  | EvUpdateLoadbalancer _ _ _ => "UpdateLoadbalancer"
  | EvDeleteLoadbalancer _ _ => "DeleteLoadbalancer"
  | EvListSecurityGroups _ _ _ => "ListSecurityGroups"
  | EvCreateSecurityGroup _ _ => "CreateSecurityGroup"
  | EvUpdateSecurityGroup _ _ _ => "UpdateSecurityGroup"
  | EvDeleteSecurityGroup _ _ => "DeleteSecurityGroup"
  | EvListTargetGroups _ _ _ => "ListTargetGroups"
  | EvCreateTargetGroup _ _ => "CreateTargetGroup"
  | EvUpdateTargetGroup _ _ => "UpdateTargetGroup"
  | EvDeleteTargetGroup _ _ => "DeleteTargetGroup"
  | EvSetTargetGroupServerAttachments _ _ => "SetTargetGroupServerAttachments"
  | EvListListeners _ _ => "ListListeners"
  | EvCreateListener _ _ _ => "CreateListener"
  | EvUpdateListener _ _ _ _ => "UpdateListener"
  | EvDeleteListener _ _ _ => "DeleteListener"
  end.

(** ** The reconcile monad

    A computation threads the cloud and the trace of the calls made so far,
    and either fails with an error or returns a value. *)

Record World (St : Type) := mkWorld { cloud : St; trace : list Event }.
Arguments mkWorld {St} _ _.
Arguments cloud {St} _.
Arguments trace {St} _.

Definition M (St A : Type) : Type := World St → (error + A) * World St.

Global Instance M_ret St : MRet (M St) := λ A a w, (inr a, w).
Global Instance M_bind St : MBind (M St) := λ A B k m w,
  match m w with
  | (inl err, w') => (inl err, w')
  | (inr a, w') => k a w'
  end.

Definition fail {St A} (err : error) : M St A := λ w, (inl err, w).

(** [fmt.Errorf(msg ++ ": %v", err)] around the error of [m]. *)
Definition wrap {St A} (msg : string) (m : M St A) : M St A := λ w,
  match m w with
  | (inl err, w') => (inl (Wrap msg err), w')
  | (inr a, w') => (inr a, w')
  end.

(** Run [m] and hand its error, if any, to the caller as a value. *)
Definition attempt {St A} (m : M St A) : M St (error + A) := λ w,
  match m w with
  | (r, w') => (inr r, w')
  end.

(** Send one call to the cloud and record it. *)
Definition perform {St R} (op : St → R * St) (ev : R → Event) : M St R := λ w,
  let '(r, s') := op (cloud w) in
  (inr r, mkWorld s' (trace w ++ [ev r])).

(** [for _, x := range xs { body }] with an accumulator; an error of the
    body leaves the loop. *)
Fixpoint foldM {St A B} (body : B → A → M St B) (acc : B) (xs : list A) : M St B :=
  match xs with
  | [] => mret acc
  | x :: rest => acc' ← body acc x; foldM body acc' rest
  end.

Definition forM {St A} (xs : list A) (body : A → M St unit) : M St unit :=
  foldM (λ _ x, body x) () xs.

(** [wait.PollUntilContextTimeout(ctx, interval, timeout, true, condition)]:
    the condition runs at once and then once per interval until it returns
    a value, fails, or the time is over; [extra] is the number of intervals
    that fit in the timeout. *)
Fixpoint PollUntilContextTimeout {St A} (extra : nat) (condition : M St (option A)) : M St A :=
  r ← condition;
  match r with
  | Some a => mret a
  | None =>
      match extra with
      | O => fail (Err "context deadline exceeded")
      | S k => PollUntilContextTimeout k condition
      end
  end.

(** ** The reconcile engine

    The context argument and the cluster name, which the provider passes
    along without reading them, are left out. *)

Section Engine.
Context `{GoText} {St : Type} `{IaasClient St}.

Definition getSubnetIdentityForService (lb : loadbalancer) (service : Service) : string :=
  match svc_Annotations service !! LoadBalancerAnnotationSubnetID with
  | Some val => if bool_decide (val ≠ "") then val else defaultSubnet lb
  | None => defaultSubnet lb
  end.

Definition getSecurityGroupsForService (service : Service) : list string :=
  match svc_Annotations service !! LoadBalancerAnnotationSecurityGroups with
  | Some val => Go.Split val ","
  | None => []
  end.

Definition shouldCreateSecurityGroup (service : Service) : bool :=
  match svc_Annotations service !! LoadBalancerAnnotationCreateSecurityGroup with
  | Some val => default false (Go.ParseBool val)
  | None => false
  end.

Definition generateSecurityGroupName (lbName : string) : string :=
  let base := "sg-" +:+ lbName in
  if bool_decide (16 < String.length base)%nat then Go.take_bytes 16 base else base.

Definition fetchVpcLoadbalancerFromCloud (lb : loadbalancer) (service : Service)
  : M St (option VpcLoadbalancer) :=
  r ← perform (iaas_ListLoadbalancers (vpcIdentity lb)) (EvListLoadbalancers (vpcIdentity lb));
  match r with
  | inl err => fail err
  | inr loadbalancersInVpc =>
      if bool_decide (length loadbalancersInVpc = 0%nat) then mret None
      else
        let labels := GetLabelsForVpcLoadbalancer lb service in
        match List.find (λ b, matchLabels labels (lb_Labels b)) loadbalancersInVpc with
        | Some b => mret (Some b)
        | None =>
            let lbName := GetLoadBalancerName lb service in
            mret (List.find (λ b, bool_decide (lb_Name b = lbName)) loadbalancersInVpc)
        end
  end.

Definition verifySecurityGroupsExist (lb : loadbalancer) (securityGroups : list string)
  : M St unit :=
  if bool_decide (length securityGroups = 0%nat) then mret ()
  else
    r ← perform (iaas_ListSecurityGroups (vpcIdentity lb) None)
                (EvListSecurityGroups (vpcIdentity lb) None);
    match r with
    | inl err => fail (Wrap "failed to list security groups in vpc" err)
    | inr securityGroupsInVpc =>
        forM securityGroups (λ securityGroup,
          if existsb (λ inVpc, bool_decide (sg_Identity inVpc = securityGroup)) securityGroupsInVpc
          then mret ()
          else fail (Err ("security group " +:+ securityGroup +:+ " does not exist in vpc "
                          +:+ vpcIdentity lb)))
    end.

Definition findManagedSecurityGroup (lb : loadbalancer) (service : Service)
  : M St (option SecurityGroup) :=
  let labels := GetLabelsForVpcLoadbalancer lb service in
  r ← perform (iaas_ListSecurityGroups (vpcIdentity lb) (Some labels))
              (EvListSecurityGroups (vpcIdentity lb) (Some labels));
  match r with
  | inl err => fail (Wrap "failed to list security groups in vpc" err)
  | inr securityGroupsInVpc =>
      mret (List.find (λ sg, matchLabels labels (sg_Labels sg)) securityGroupsInVpc)
  end.

Definition ensureManagedSecurityGroup (lb : loadbalancer) (service : Service)
    (desiredListeners : list VpcLoadbalancerListener) : M St SecurityGroup :=
  sg ← wrap "failed to find managed security group" (findManagedSecurityGroup lb service);
  let labels := GetLabelsForVpcLoadbalancer lb service in
  let annotations := GetAnnotationsForVpcLoadbalancer lb service in
  let ingress := buildIngressRulesFromListeners desiredListeners in
  let egress := managed_egress_rules in
  match sg with
  | None =>
      let create :=
        {| csg_Name := generateSecurityGroupName (svc_Name service);
           csg_Description := "Security group for Kubernetes service " +:+ svc_Name service;
           csg_Labels := labels;
           csg_Annotations := annotations;
           csg_VpcIdentity := vpcIdentity lb;
           csg_AllowSameGroupTraffic := true;
           csg_IngressRules := ingress;
           csg_EgressRules := egress |} in
      r ← perform (iaas_CreateSecurityGroup create) (EvCreateSecurityGroup create);
      match r with
      | inl err => fail (Wrap "failed to create managed security group" err)
      | inr created => mret created
      end
  | Some sg =>
      let update :=
        {| usg_Name := sg_Name sg;
           usg_Description := sg_Description sg;
           usg_Labels := labels;
           usg_Annotations := annotations;
           usg_ObjectVersion := sg_ObjectVersion sg;
           usg_AllowSameGroupTraffic := true;
           usg_IngressRules := ingress;
           usg_EgressRules := egress |} in
      r ← perform (iaas_UpdateSecurityGroup (sg_Identity sg) update)
                  (EvUpdateSecurityGroup (sg_Identity sg) update);
      match r with
      | inl err => fail (Wrap "failed to update managed security group" err)
      | inr updated => mret updated
      end
  end.

(** Errors of the lookup and of the delete call are dropped. *)
Definition deleteManagedSecurityGroup (lb : loadbalancer) (service : Service) : M St unit :=
  r ← attempt (findManagedSecurityGroup lb service);
  match r with
  | inr (Some sg) =>
      _ ← perform (iaas_DeleteSecurityGroup (sg_Identity sg)) (EvDeleteSecurityGroup (sg_Identity sg));
      mret ()
  | _ => mret ()
  end.

Definition createVpcLoadbalancer (lb : loadbalancer) (lbName : string) (service : Service)
  : M St VpcLoadbalancer :=
  r ← perform (iaas_GetVpc (vpcIdentity lb)) (EvGetVpc (vpcIdentity lb));
  match r with
  | inl err => fail (Wrap "failed to get vpc" err)
  | inr vpc =>
      if bool_decide (length (vpc_Subnets vpc) = 0%nat)
      then fail (Err ("vpc " +:+ vpcIdentity lb +:+ " has no subnets"))
      else
        let requestedSubnetIdentity := getSubnetIdentityForService lb service in
        let vpcSubnet :=
          if bool_decide (requestedSubnetIdentity ≠ "")
          then List.find (λ subnet, bool_decide (subnet_Identity subnet = requestedSubnetIdentity
                                                 ∨ subnet_Slug subnet = requestedSubnetIdentity))
                         (vpc_Subnets vpc)
          else head (vpc_Subnets vpc) in
        match vpcSubnet with
        | None => fail (Err ("no subnet found for deploying loadbalancer for service "
                             +:+ svc_Name service))
        | Some vpcSubnet =>
            let internalLoadbalancer :=
              match svc_Annotations service !! LoadbalancerAnnotationInternal with
              | Some val => default false (Go.ParseBool val)
              | None => false
              end in
            let labels := GetLabelsForVpcLoadbalancer lb service in
            let annotations := GetAnnotationsForVpcLoadbalancer lb service in
            let securityGroups := getSecurityGroupsForService service in
            _ ← wrap "failed to verify security groups" (verifySecurityGroupsExist lb securityGroups);
            securityGroups ←
              (if shouldCreateSecurityGroup service
               then sg ← ensureManagedSecurityGroup lb service (desiredVpcLoadbalancerListener lb service);
                    mret (securityGroups ++ [sg_Identity sg])
               else mret securityGroups);
            let createLB :=
              {| clb_Name := lbName;
                 clb_Description := "Loadbalancer for Kubernetes service " +:+ svc_Name service;
                 clb_Labels := labels;
                 clb_Annotations := annotations;
                 clb_Subnet := subnet_Identity vpcSubnet;
                 clb_InternalLoadbalancer := internalLoadbalancer;
                 clb_SecurityGroupAttachments := securityGroups |} in
            r ← perform (iaas_CreateLoadbalancer createLB) (EvCreateLoadbalancer createLB);
            match r with
            | inl err => fail err
            | inr created => mret created
            end
        end
  end.

(** *** Target groups *)

(** [fmt.Sprintf("%s:%d", targetGroup.Protocol, targetGroup.TargetPort)] *)
Definition targetGroupKey (targetGroup : VpcLoadbalancerTargetGroup) : string :=
  tg_Protocol targetGroup +:+ ":" +:+ Go.Itoa (tg_TargetPort targetGroup).

Definition targetGroupsMap (targetGroups : list VpcLoadbalancerTargetGroup)
  : gmap string VpcLoadbalancerTargetGroup :=
  foldl (λ m targetGroup, <[targetGroupKey targetGroup := targetGroup]> m) ∅ targetGroups.

Definition node_attachments (nodes : list Node) : list string :=
  foldl (λ attachments node,
           let providerId := node_ProviderID node in
           if bool_decide (providerId = "") then attachments
           else
             let providerIdParts := Go.Split providerId "://" in
             match providerIdParts with
             | [_; machineIdentity] => attachments ++ [machineIdentity]
             | _ => attachments
             end)
        [] nodes.

Definition upgradeTargetGroupAttachments (l : loadbalancer)
    (targetGroup : VpcLoadbalancerTargetGroup) (nodes : list Node) : M St unit :=
  let batch := {| batch_TargetGroupID := tg_Identity targetGroup;
                  batch_Attachments := node_attachments nodes |} in
  r ← perform (iaas_SetTargetGroupServerAttachments batch) (EvSetTargetGroupServerAttachments batch);
  match r with
  | Some err => fail (Wrap "failed to update target group attachments" err)
  | None => mret ()
  end.

Definition create_missing_target_group (l : loadbalancer)
    (existingTargetGroupsMap : gmap string VpcLoadbalancerTargetGroup) (nodes : list Node)
    (tgs : list VpcLoadbalancerTargetGroup) (targetGroup : VpcLoadbalancerTargetGroup)
  : M St (list VpcLoadbalancerTargetGroup) :=
  match existingTargetGroupsMap !! targetGroupKey targetGroup with
  | Some _ => mret tgs
  | None =>
      let req :=
        {| ctg_Vpc := vpcIdentity l;
           ctg_Name := tg_Name targetGroup;
           ctg_Description := tg_Description targetGroup;
           ctg_Protocol := tg_Protocol targetGroup;
           ctg_TargetPort := tg_TargetPort targetGroup;
           ctg_Labels := tg_Labels targetGroup;
           ctg_Annotations := tg_Annotations targetGroup;
           ctg_HealthCheck := tg_HealthCheck targetGroup;
           ctg_EnableProxyProtocol := tg_EnableProxyProtocol targetGroup;
           ctg_LoadbalancingPolicy := tg_LoadbalancingPolicy targetGroup |} in
      r ← perform (iaas_CreateTargetGroup req) (EvCreateTargetGroup req);
      match r with
      | inl err => fail (Wrap "failed to create target group" err)
      | inr None => fail (Err "failed to create target group: <nil>")
      | inr (Some created) =>
          _ ← wrap "failed to upgrade target group attachments"
                   (upgradeTargetGroupAttachments l created nodes);
          mret (tgs ++ [created])
      end
  end.

Definition update_existing_target_group (l : loadbalancer)
    (desiredTargetGroupsMap : gmap string VpcLoadbalancerTargetGroup) (nodes : list Node)
    (tgs : list VpcLoadbalancerTargetGroup) (targetGroup : VpcLoadbalancerTargetGroup)
  : M St (list VpcLoadbalancerTargetGroup) :=
  match desiredTargetGroupsMap !! targetGroupKey targetGroup with
  | None => mret tgs
  | Some desiredTargetGroup =>
      if bool_decide (tg_Identity targetGroup = "") then mret tgs
      else
        let req :=
          {| utg_Identity := tg_Identity targetGroup;
             utg_Name := tg_Name desiredTargetGroup;
             utg_Description := tg_Description desiredTargetGroup;
             utg_Protocol := tg_Protocol desiredTargetGroup;
             utg_TargetPort := tg_TargetPort desiredTargetGroup;
             utg_Labels := tg_Labels desiredTargetGroup;
             utg_Annotations := tg_Annotations desiredTargetGroup;
             utg_HealthCheck := tg_HealthCheck desiredTargetGroup;
             utg_EnableProxyProtocol := tg_EnableProxyProtocol desiredTargetGroup;
             utg_LoadbalancingPolicy := tg_LoadbalancingPolicy desiredTargetGroup |} in
        r ← perform (iaas_UpdateTargetGroup req) (EvUpdateTargetGroup req);
        match r with
        | inl err => fail (Wrap "failed to update target group" err)
        | inr None => fail (Err "failed to update target group: <nil>")
        | inr (Some updated) =>
            _ ← wrap "failed to upgrade target group attachments"
                     (upgradeTargetGroupAttachments l updated nodes);
            mret (tgs ++ [updated])
        end
  end.

Definition createOrUpdateTargetGroups (l : loadbalancer) (service : Service)
    (desiredTargetGroups : list VpcLoadbalancerTargetGroup) (nodes : list Node)
  : M St (list VpcLoadbalancerTargetGroup) :=
  let labels := GetLabelsForVpcLoadbalancer l service in
  r ← perform (iaas_ListTargetGroups (Some (vpcIdentity l)) labels)
              (EvListTargetGroups (Some (vpcIdentity l)) labels);
  match r with
  | inl err => fail (Wrap "failed to list target groups" err)
  | inr existingTargetGroups =>
      let existingTargetGroupsMap := targetGroupsMap existingTargetGroups in
      let desiredTargetGroupsMap := targetGroupsMap desiredTargetGroups in
      tgs ← foldM (create_missing_target_group l existingTargetGroupsMap nodes) [] desiredTargetGroups;
      foldM (update_existing_target_group l desiredTargetGroupsMap nodes) tgs existingTargetGroups
  end.

Definition cleanup_target_group
    (desiredTargetGroupsMap : gmap string VpcLoadbalancerTargetGroup)
    (targetGroup : VpcLoadbalancerTargetGroup) : M St unit :=
  if bool_decide (0 < length (tg_LoadbalancerListeners targetGroup))%nat then mret ()
  else
    match desiredTargetGroupsMap !! targetGroupKey targetGroup with
    | Some _ => mret ()
    | None =>
        r ← perform (iaas_DeleteTargetGroup (tg_Identity targetGroup))
                    (EvDeleteTargetGroup (tg_Identity targetGroup));
        match r with
        | Some err => fail (Wrap "failed to delete target group" err)
        | None => mret ()
        end
    end.

Definition cleanupUnusedTargetGroups (l : loadbalancer) (service : Service)
    (desiredTargetGroups : list VpcLoadbalancerTargetGroup) : M St unit :=
  let labels := GetLabelsForVpcLoadbalancer l service in
  r ← perform (iaas_ListTargetGroups (Some (vpcIdentity l)) labels)
              (EvListTargetGroups (Some (vpcIdentity l)) labels);
  match r with
  | inl err => fail (Wrap "failed to list target groups" err)
  | inr existingTargetGroups =>
      let desiredTargetGroupsMap := targetGroupsMap desiredTargetGroups in
      forM existingTargetGroups (cleanup_target_group desiredTargetGroupsMap)
  end.

(** *** Listeners *)

Definition getTargetGroupIdentityForListener (lb : loadbalancer) (service : Service)
    (listener : VpcLoadbalancerListener) (targetGroups : list VpcLoadbalancerTargetGroup)
  : string :=
  let desiredLabels :=
    GetLabelsForVpcLoadbalancerTargetGroup lb service (l_Port listener) (l_Protocol listener) in
  match List.find (λ targetGroup, matchLabels desiredLabels (tg_Labels targetGroup)) targetGroups with
  | Some targetGroup => tg_Identity targetGroup
  | None => ""
  end.

Definition listenersPortMap (listeners : list VpcLoadbalancerListener)
  : gmap Z VpcLoadbalancerListener :=
  foldl (λ m listener, <[l_Port listener := listener]> m) ∅ listeners.

Definition listener_request (listener : VpcLoadbalancerListener) (targetGroupIdentity : string)
  : ListenerRequest :=
  {| lr_Name := l_Name listener;
     lr_Description := l_Description listener;
     lr_Labels := l_Labels listener;
     lr_Annotations := l_Annotations listener;
     lr_Port := l_Port listener;
     lr_Protocol := l_Protocol listener;
     lr_TargetGroup := targetGroupIdentity;
     lr_AllowedSources := l_AllowedSources listener;
     lr_ConnectionIdleTimeout := l_ConnectionIdleTimeout listener;
     lr_MaxConnections := l_MaxConnections listener |}.

Definition delete_or_update_listener (lb : loadbalancer) (service : Service)
    (loadbalancer : VpcLoadbalancer)
    (desiredListenersPortMap : gmap Z VpcLoadbalancerListener)
    (targetGroups : list VpcLoadbalancerTargetGroup)
    (listener : VpcLoadbalancerListener) : M St unit :=
  match desiredListenersPortMap !! l_Port listener with
  | None =>
      r ← perform (iaas_DeleteListener (lb_Identity loadbalancer) (l_Identity listener))
                  (EvDeleteListener (lb_Identity loadbalancer) (l_Identity listener));
      match r with
      | Some err => fail (Wrap "failed to delete listener" err)
      | None => mret ()
      end
  | Some listenerToUpdate =>
      let targetGroupIdentity :=
        getTargetGroupIdentityForListener lb service listenerToUpdate targetGroups in
      if bool_decide (targetGroupIdentity = "") then mret ()
      else
        let req := listener_request listenerToUpdate targetGroupIdentity in
        r ← perform (iaas_UpdateListener (lb_Identity loadbalancer) (l_Identity listener) req)
                    (EvUpdateListener (lb_Identity loadbalancer) (l_Identity listener) req);
        match r with
        | inl err => fail (Wrap "failed to update listener" err)
        | inr _ => mret ()
        end
  end.

Definition create_missing_listener (lb : loadbalancer) (service : Service)
    (loadbalancer : VpcLoadbalancer)
    (existingListenersPortMap : gmap Z VpcLoadbalancerListener)
    (targetGroups : list VpcLoadbalancerTargetGroup)
    (listener : VpcLoadbalancerListener) : M St unit :=
  match existingListenersPortMap !! l_Port listener with
  | Some _ => mret ()
  | None =>
      let targetGroupIdentity :=
        getTargetGroupIdentityForListener lb service listener targetGroups in
      if bool_decide (targetGroupIdentity = "") then mret ()
      else
        let req := listener_request listener targetGroupIdentity in
        r ← perform (iaas_CreateListener (lb_Identity loadbalancer) req)
                    (EvCreateListener (lb_Identity loadbalancer) req);
        match r with
        | inl err => fail (Wrap "failed to create listener" err)
        | inr _ => mret ()
        end
  end.

(** [equality.Semantic.DeepEqual] on two listener lists: equality of the
    records, a [nil] slice or map being equal to an empty one. *)
Definition listeners_DeepEqual (a b : list VpcLoadbalancerListener) : bool :=
  bool_decide (a = b).

Definition updateVpcLoadbalancerListener (lb : loadbalancer) (service : Service)
    (loadbalancer : VpcLoadbalancer) (desiredListeners : list VpcLoadbalancerListener)
    (targetGroups : list VpcLoadbalancerTargetGroup) : M St unit :=
  r ← perform (iaas_ListListeners (lb_Identity loadbalancer)) (EvListListeners (lb_Identity loadbalancer));
  match r with
  | inl err => fail (Wrap "failed to list listeners" err)
  | inr existingListenersForLoadBalancer =>
      let desiredListenersPortMap := listenersPortMap desiredListeners in
      let existingListenersPortMap := listenersPortMap existingListenersForLoadBalancer in
      _ ← (if negb (listeners_DeepEqual desiredListeners existingListenersForLoadBalancer)
           then forM existingListenersForLoadBalancer
                     (delete_or_update_listener lb service loadbalancer desiredListenersPortMap targetGroups)
           else mret ());
      forM desiredListeners
           (create_missing_listener lb service loadbalancer existingListenersPortMap targetGroups)
  end.

(** *** The load balancer itself *)

Definition updateVpcLoadbalancer (lb : loadbalancer) (service : Service)
    (vpcLoadbalancer : VpcLoadbalancer) (desiredListeners : list VpcLoadbalancerListener)
  : M St unit :=
  let desiredSecurityGroups := getSecurityGroupsForService service in
  _ ← wrap "failed to verify security groups" (verifySecurityGroupsExist lb desiredSecurityGroups);
  let currentSecurityGroupIdentities := lb_SecurityGroups vpcLoadbalancer in
  desiredSecurityGroups ←
    (if shouldCreateSecurityGroup service
     then sg ← wrap "failed to ensure managed security group"
                    (ensureManagedSecurityGroup lb service desiredListeners);
          mret (desiredSecurityGroups ++ [sg_Identity sg])
     else mret desiredSecurityGroups);
  let preferredSubnetIdentity := getSubnetIdentityForService lb service in
  let preferredSubnetIdentity :=
    if bool_decide (preferredSubnetIdentity = "") then lb_Subnet vpcLoadbalancer
    else preferredSubnetIdentity in
  if negb (bool_decide (desiredSecurityGroups = currentSecurityGroupIdentities))
     || negb (bool_decide (length desiredSecurityGroups = length currentSecurityGroupIdentities))
     || negb (bool_decide (lb_Subnet vpcLoadbalancer = preferredSubnetIdentity))
  then
    let req :=
      {| ulb_Name := lb_Name vpcLoadbalancer;
         ulb_Description := lb_Description vpcLoadbalancer;
         ulb_Labels := lb_Labels vpcLoadbalancer;
         ulb_Annotations := lb_Annotations vpcLoadbalancer;
         ulb_Subnet := Some preferredSubnetIdentity;
         ulb_DeleteProtection := lb_DeleteProtection vpcLoadbalancer;
         ulb_SecurityGroupAttachments := desiredSecurityGroups |} in
    r ← perform (iaas_UpdateLoadbalancer (lb_Identity vpcLoadbalancer) req)
                (EvUpdateLoadbalancer (lb_Identity vpcLoadbalancer) req);
    match r with
    | inl err => fail (Wrap "failed to update loadbalancer" err)
    | inr _ => mret ()
    end
  else mret ().

Definition updateVpcLoadbalancerListenersAndTargetGroups (lb : loadbalancer)
    (service : Service) (nodes : list Node) (vpcLoadbalancer : option VpcLoadbalancer)
  : M St (list LoadBalancerIngress) :=
  vpcLoadbalancer ←
    match vpcLoadbalancer with
    | Some b => mret b
    | None =>
        fetched ← wrap "failed to fetch loadbalancer from cloud" (fetchVpcLoadbalancerFromCloud lb service);
        match fetched with
        | Some b => mret b
        | None => fail (Err "loadbalancer not found in cloud")
        end
    end;
  let desiredListeners := desiredVpcLoadbalancerListener lb service in
  match getDesiredVpcLoadbalancerTargetGroups lb service nodes with
  | (_, Some err) => fail (Wrap "failed to create loadbalancer backends" err)
  | (desiredTgs, None) =>
      tgs ← wrap "failed to create or update target groups"
                 (createOrUpdateTargetGroups lb service desiredTgs nodes);
      _ ← wrap "failed to update loadbalancer listener"
               (updateVpcLoadbalancerListener lb service vpcLoadbalancer desiredListeners tgs);
      _ ← wrap "failed to cleanup unused target groups"
               (cleanupUnusedTargetGroups lb service tgs);
      _ ← wrap "failed to update loadbalancer"
               (updateVpcLoadbalancer lb service vpcLoadbalancer desiredListeners);
      mret (ingress_loop vpcLoadbalancer)
  end.

(** *** The four operations of the orchestrator *)

(** The result pairs the status ([None] for [nil]) with the [exists] flag. *)
Definition GetLoadBalancer (lb : loadbalancer) (service : Service)
  : M St (option (list LoadBalancerIngress) * bool) :=
  vpcLoadbalancer ← fetchVpcLoadbalancerFromCloud lb service;
  match vpcLoadbalancer with
  | None => mret (None, false)
  | Some vpcLoadbalancer => mret (Some (ingress_loop vpcLoadbalancer), true)
  end.

Definition is_ready (b : VpcLoadbalancer) : bool :=
  bool_decide (lb_Status b = "ready") && bool_decide (0 < length (lb_ExternalIpAddresses b))%nat.

(** The condition polled after a creation: [Some b] when the load balancer
    [b] is ready. Reading the status of a load balancer that the lookup
    did not find is a nil dereference. *)
Definition ready_condition (lb : loadbalancer) (service : Service)
    (vpcLoadbalancer : VpcLoadbalancer) : M St (option VpcLoadbalancer) :=
  if is_ready vpcLoadbalancer then mret (Some vpcLoadbalancer)
  else
    vpcLB ← fetchVpcLoadbalancerFromCloud lb service;
    match vpcLB with
    | None => fail (Err "panic: nil pointer dereference")
    | Some vpcLB => if is_ready vpcLB then mret (Some vpcLB) else mret None
    end.

Definition EnsureLoadBalancer (lb : loadbalancer) (nodeFilter : NodeFilter) (ticks : nat)
    (service : Service) (nodes : list Node) : M St (list LoadBalancerIngress) :=
  vpcLoadbalancer ← fetchVpcLoadbalancerFromCloud lb service;
  match Filter nodeFilter service nodes with
  | (_, Some err) => fail err
  | (nodes, None) =>
      match vpcLoadbalancer with
      | Some vpcLoadbalancer =>
          updateVpcLoadbalancerListenersAndTargetGroups lb service nodes (Some vpcLoadbalancer)
      | None =>
          let lbName := GetLoadBalancerName lb service in
          vpcLoadbalancer ← createVpcLoadbalancer lb lbName service;
          _ ← updateVpcLoadbalancerListenersAndTargetGroups lb service nodes (Some vpcLoadbalancer);
          vpcLoadbalancer ← PollUntilContextTimeout ticks (ready_condition lb service vpcLoadbalancer);
          mret (ingress_loop vpcLoadbalancer)
      end
  end.

Definition UpdateLoadBalancer (lb : loadbalancer) (nodeFilter : NodeFilter)
    (service : Service) (nodes : list Node) : M St unit :=
  lbService ← wrap "failed to get LoadBalancer service" (fetchVpcLoadbalancerFromCloud lb service);
  match lbService with
  | None => fail (Err ("LoadBalancer not found in Cloud API for service " +:+ svc_Name service))
  | Some lbService =>
      match Filter nodeFilter service nodes with
      | (_, Some err) => fail err
      | (nodes, None) =>
          _ ← wrap "failed to update loadbalancer listeners and target groups"
                   (updateVpcLoadbalancerListenersAndTargetGroups lb service nodes (Some lbService));
          mret ()
      end
  end.

(** The condition polled after the deletion: done when the lookup finds
    nothing; an error of the lookup counts as not yet. *)
Definition deleted_condition (lb : loadbalancer) (service : Service) : M St (option unit) :=
  r ← attempt (fetchVpcLoadbalancerFromCloud lb service);
  match r with
  | inr None => mret (Some ())
  | _ => mret None
  end.

Definition delete_target_group_without_listeners
    (targetGroup : VpcLoadbalancerTargetGroup) : M St unit :=
  if bool_decide (0 < length (tg_LoadbalancerListeners targetGroup))%nat then mret ()
  else
    r ← perform (iaas_DeleteTargetGroup (tg_Identity targetGroup))
                (EvDeleteTargetGroup (tg_Identity targetGroup));
    match r with
    | Some err => fail err
    | None => mret ()
    end.

Definition EnsureLoadBalancerDeleted (lb : loadbalancer) (ticks : nat) (service : Service)
  : M St unit :=
  vpcLoadbalancer ← fetchVpcLoadbalancerFromCloud lb service;
  match vpcLoadbalancer with
  | None => mret ()
  | Some vpcLoadbalancer =>
      _ ← cleanupUnusedTargetGroups lb service [];
      r ← perform (iaas_DeleteLoadbalancer (lb_Identity vpcLoadbalancer))
                  (EvDeleteLoadbalancer (lb_Identity vpcLoadbalancer));
      match r with
      | Some err => fail err
      | None =>
          _ ← PollUntilContextTimeout ticks (deleted_condition lb service);
          let labels := GetLabelsForVpcLoadbalancer lb service in
          r ← perform (iaas_ListTargetGroups None labels) (EvListTargetGroups None labels);
          match r with
          | inl err => fail err
          | inr targetGroups =>
              _ ← forM targetGroups delete_target_group_without_listeners;
              deleteManagedSecurityGroup lb service
          end
      end
  end.

End Engine.

(** ** A reference cloud

    An in-memory cloud that stores what it is sent and answers the list
    calls from what it stores: identities are numbered in creation order,
    a label filter keeps the objects that carry every label of the filter,
    a new load balancer is ready at once with one external address, and a
    target group lists the listeners that point at it. It serves to run
    the engine on concrete services. *)

Module RefCloud.

Record State := {
  subnets : list Subnet;
  loadbalancers : list VpcLoadbalancer;
  targetGroups : list VpcLoadbalancerTargetGroup;
  attachments : gmap string (list string);
  listeners : list (string * VpcLoadbalancerListener);
  securityGroups : list SecurityGroup;
  next : nat;
}.

Definition empty (subnets : list Subnet) : State :=
  {| subnets := subnets; loadbalancers := []; targetGroups := []; attachments := ∅;
     listeners := []; securityGroups := []; next := 1 |}.

Definition has_labels (filter labels : gmap string string) : bool :=
  bool_decide (map_Forall (λ k v, labels !! k = Some v) filter).

Definition fresh (prefix : string) (s : State) : string := prefix +:+ pretty (next s).

Definition bump (s : State) : State :=
  {| subnets := subnets s; loadbalancers := loadbalancers s; targetGroups := targetGroups s;
     attachments := attachments s; listeners := listeners s;
     securityGroups := securityGroups s; next := S (next s) |}.

Definition with_loadbalancers (l : list VpcLoadbalancer) (s : State) : State :=
  {| subnets := subnets s; loadbalancers := l; targetGroups := targetGroups s;
     attachments := attachments s; listeners := listeners s;
     securityGroups := securityGroups s; next := next s |}.

Definition with_targetGroups (l : list VpcLoadbalancerTargetGroup) (s : State) : State :=
  {| subnets := subnets s; loadbalancers := loadbalancers s; targetGroups := l;
     attachments := attachments s; listeners := listeners s;
     securityGroups := securityGroups s; next := next s |}.

Definition with_attachments (a : gmap string (list string)) (s : State) : State :=
  {| subnets := subnets s; loadbalancers := loadbalancers s; targetGroups := targetGroups s;
     attachments := a; listeners := listeners s;
     securityGroups := securityGroups s; next := next s |}.

Definition with_listeners (l : list (string * VpcLoadbalancerListener)) (s : State) : State :=
  {| subnets := subnets s; loadbalancers := loadbalancers s; targetGroups := targetGroups s;
     attachments := attachments s; listeners := l;
     securityGroups := securityGroups s; next := next s |}.

Definition with_securityGroups (l : list SecurityGroup) (s : State) : State :=
  {| subnets := subnets s; loadbalancers := loadbalancers s; targetGroups := targetGroups s;
     attachments := attachments s; listeners := listeners s;
     securityGroups := l; next := next s |}.

Definition not_found {A} : error + A := inl (Err "not found").

(** The target group as a list call shows it: with the listeners that
    reference it. *)
Definition listed (s : State) (tg : VpcLoadbalancerTargetGroup) : VpcLoadbalancerTargetGroup :=
  {| tg_Identity := tg_Identity tg; tg_Name := tg_Name tg; tg_Description := tg_Description tg;
     tg_Labels := tg_Labels tg; tg_Annotations := tg_Annotations tg;
     tg_Protocol := tg_Protocol tg; tg_TargetPort := tg_TargetPort tg;
     tg_EnableProxyProtocol := tg_EnableProxyProtocol tg;
     tg_LoadbalancingPolicy := tg_LoadbalancingPolicy tg;
     tg_HealthCheck := tg_HealthCheck tg;
     tg_LoadbalancerListeners :=
       omap (λ p : string * VpcLoadbalancerListener,
               match l_TargetGroup p.2 with
               | Some t => if bool_decide (tg_Identity t = tg_Identity tg)
                           then Some (l_Identity p.2) else None
               | None => None
               end)
            (listeners s) |}.

Definition listener_of (s : State) (identity : string) (req : ListenerRequest)
  : VpcLoadbalancerListener :=
  {| l_Identity := identity; l_Name := lr_Name req; l_Description := lr_Description req;
     l_Labels := lr_Labels req; l_Annotations := lr_Annotations req;
     l_Port := lr_Port req; l_Protocol := lr_Protocol req;
     l_TargetGroup :=
       List.find (λ t, bool_decide (tg_Identity t = lr_TargetGroup req)) (targetGroups s);
     l_AllowedSources := lr_AllowedSources req;
     l_ConnectionIdleTimeout := lr_ConnectionIdleTimeout req;
     l_MaxConnections := lr_MaxConnections req |}.

Definition replace_by {A} (same : A → bool) (x : A) (l : list A) : list A :=
  map (λ y, if same y then x else y) l.

Definition create_loadbalancer (req : CreateLoadbalancerRequest) (s : State)
  : (error + VpcLoadbalancer) * State :=
  let b := {| lb_Identity := fresh "lb-" s; lb_Name := clb_Name req;
              lb_Description := clb_Description req; lb_Labels := clb_Labels req;
              lb_Annotations := clb_Annotations req; lb_Subnet := clb_Subnet req;
              lb_SecurityGroups := clb_SecurityGroupAttachments req;
              lb_ExternalIpAddresses := ["203.0.113." +:+ pretty (next s)];
              lb_Hostname := ""; lb_Status := "ready"; lb_DeleteProtection := false;
              lb_InternalLoadbalancer := clb_InternalLoadbalancer req |} in
  (inr b, bump (with_loadbalancers (loadbalancers s ++ [b]) s)).

(** The update request carries no [internal] field: the attribute stays
    as the cloud has it. *)
Definition updated_loadbalancer (req : UpdateLoadbalancerRequest) (old : VpcLoadbalancer)
  : VpcLoadbalancer :=
  {| lb_Identity := lb_Identity old; lb_Name := ulb_Name req;
     lb_Description := ulb_Description req; lb_Labels := ulb_Labels req;
     lb_Annotations := ulb_Annotations req;
     lb_Subnet := default (lb_Subnet old) (ulb_Subnet req);
     lb_SecurityGroups := ulb_SecurityGroupAttachments req;
     lb_ExternalIpAddresses := lb_ExternalIpAddresses old;
     lb_Hostname := lb_Hostname old; lb_Status := lb_Status old;
     lb_DeleteProtection := ulb_DeleteProtection req;
     lb_InternalLoadbalancer := lb_InternalLoadbalancer old |}.

Definition update_loadbalancer (identity : string) (req : UpdateLoadbalancerRequest) (s : State)
  : (error + VpcLoadbalancer) * State :=
  match List.find (λ b, bool_decide (lb_Identity b = identity)) (loadbalancers s) with
  | None => (not_found, s)
  | Some old =>
      (inr (updated_loadbalancer req old),
       with_loadbalancers
         ((λ y, if bool_decide (lb_Identity y = identity) then updated_loadbalancer req y else y)
            <$> loadbalancers s) s)
  end.

Definition delete_loadbalancer (identity : string) (s : State) : option error * State :=
  (None, with_listeners (filter (λ p, p.1 ≠ identity) (listeners s))
           (with_loadbalancers (filter (λ b, lb_Identity b ≠ identity) (loadbalancers s)) s)).

Definition list_security_groups (labels : option (gmap string string)) (s : State)
  : (error + list SecurityGroup) * State :=
  (inr (List.filter (λ g, match labels with
                          | Some f => has_labels f (sg_Labels g)
                          | None => true
                          end) (securityGroups s)), s).

Definition create_security_group (req : CreateSecurityGroupRequest) (s : State)
  : (error + SecurityGroup) * State :=
  let g := {| sg_Identity := fresh "sg-" s; sg_Name := csg_Name req;
              sg_Description := csg_Description req; sg_Labels := csg_Labels req;
              sg_ObjectVersion := 1; sg_IngressRules := csg_IngressRules req;
              sg_EgressRules := csg_EgressRules req |} in
  (inr g, bump (with_securityGroups (securityGroups s ++ [g]) s)).

Definition update_security_group (identity : string) (req : UpdateSecurityGroupRequest) (s : State)
  : (error + SecurityGroup) * State :=
  match List.find (λ g, bool_decide (sg_Identity g = identity)) (securityGroups s) with
  | None => (not_found, s)
  | Some old =>
      let g := {| sg_Identity := identity; sg_Name := usg_Name req;
                  sg_Description := usg_Description req; sg_Labels := usg_Labels req;
                  sg_ObjectVersion := sg_ObjectVersion old + 1;
                  sg_IngressRules := usg_IngressRules req;
                  sg_EgressRules := usg_EgressRules req |} in
      (inr g, with_securityGroups
                (replace_by (λ y, bool_decide (sg_Identity y = identity)) g (securityGroups s)) s)
  end.

Definition delete_security_group (identity : string) (s : State) : option error * State :=
  (None, with_securityGroups (filter (λ g, sg_Identity g ≠ identity) (securityGroups s)) s).

Definition list_target_groups (labels : gmap string string) (s : State)
  : (error + list VpcLoadbalancerTargetGroup) * State :=
  (inr (listed s <$> List.filter (λ t, has_labels labels (tg_Labels t)) (targetGroups s)), s).

Definition create_target_group (req : CreateTargetGroupRequest) (s : State)
  : (error + option VpcLoadbalancerTargetGroup) * State :=
  let t := {| tg_Identity := fresh "tg-" s; tg_Name := ctg_Name req;
              tg_Description := ctg_Description req; tg_Labels := ctg_Labels req;
              tg_Annotations := ctg_Annotations req; tg_Protocol := ctg_Protocol req;
              tg_TargetPort := ctg_TargetPort req;
              tg_EnableProxyProtocol := ctg_EnableProxyProtocol req;
              tg_LoadbalancingPolicy := ctg_LoadbalancingPolicy req;
              tg_HealthCheck := ctg_HealthCheck req; tg_LoadbalancerListeners := [] |} in
  (inr (Some t), bump (with_targetGroups (targetGroups s ++ [t]) s)).

Definition update_target_group (req : UpdateTargetGroupRequest) (s : State)
  : (error + option VpcLoadbalancerTargetGroup) * State :=
  match List.find (λ t, bool_decide (tg_Identity t = utg_Identity req)) (targetGroups s) with
  | None => (not_found, s)
  | Some _ =>
      let t := {| tg_Identity := utg_Identity req; tg_Name := utg_Name req;
                  tg_Description := utg_Description req; tg_Labels := utg_Labels req;
                  tg_Annotations := utg_Annotations req; tg_Protocol := utg_Protocol req;
                  tg_TargetPort := utg_TargetPort req;
                  tg_EnableProxyProtocol := utg_EnableProxyProtocol req;
                  tg_LoadbalancingPolicy := utg_LoadbalancingPolicy req;
                  tg_HealthCheck := utg_HealthCheck req; tg_LoadbalancerListeners := [] |} in
      let s' := with_targetGroups
                  (replace_by (λ y, bool_decide (tg_Identity y = utg_Identity req)) t (targetGroups s)) s in
      (inr (Some (listed s' t)), s')
  end.

Definition delete_target_group (identity : string) (s : State) : option error * State :=
  (None, with_targetGroups (filter (λ t, tg_Identity t ≠ identity) (targetGroups s)) s).

Definition set_attachments (batch : TargetGroupAttachmentsBatch) (s : State)
  : option error * State :=
  (None, with_attachments
           (<[batch_TargetGroupID batch := batch_Attachments batch]> (attachments s)) s).

Definition list_listeners (loadbalancer : string) (s : State)
  : (error + list VpcLoadbalancerListener) * State :=
  (inr (snd <$> List.filter (λ p : string * VpcLoadbalancerListener,
                               bool_decide (p.1 = loadbalancer)) (listeners s)), s).

Definition create_listener (loadbalancer : string) (req : ListenerRequest) (s : State)
  : (error + VpcLoadbalancerListener) * State :=
  let l := listener_of s (fresh "listener-" s) req in
  (inr l, bump (with_listeners (listeners s ++ [(loadbalancer, l)]) s)).

Definition update_listener (loadbalancer identity : string) (req : ListenerRequest) (s : State)
  : (error + VpcLoadbalancerListener) * State :=
  let l := listener_of s identity req in
  (inr l, with_listeners
            (replace_by (λ p : string * VpcLoadbalancerListener,
                           bool_decide (l_Identity p.2 = identity)) (loadbalancer, l)
                        (listeners s)) s).

Definition delete_listener (loadbalancer identity : string) (s : State) : option error * State :=
  (None, with_listeners (filter (λ p, l_Identity p.2 ≠ identity) (listeners s)) s).

Global Instance client : IaasClient State := {|
  iaas_ListLoadbalancers := λ _ s, (inr (loadbalancers s), s);
  iaas_GetVpc := λ _ s, (inr {| vpc_Subnets := subnets s |}, s);
  iaas_CreateLoadbalancer := create_loadbalancer;
  iaas_UpdateLoadbalancer := update_loadbalancer;
  iaas_DeleteLoadbalancer := delete_loadbalancer;
  iaas_ListSecurityGroups := λ _, list_security_groups;
  iaas_CreateSecurityGroup := create_security_group;
  iaas_UpdateSecurityGroup := update_security_group;
  iaas_DeleteSecurityGroup := delete_security_group;
  iaas_ListTargetGroups := λ _, list_target_groups;
  iaas_CreateTargetGroup := create_target_group;
  iaas_UpdateTargetGroup := update_target_group;
  iaas_DeleteTargetGroup := delete_target_group;
  iaas_SetTargetGroupServerAttachments := set_attachments;
  iaas_ListListeners := list_listeners;
  iaas_CreateListener := create_listener;
  iaas_UpdateListener := update_listener;
  iaas_DeleteListener := delete_listener;
|}.

End RefCloud.

(** * Specification

    The notions the properties are stated with. *)

Section Specification.
Context `{GoText}.

(** ** Access-control lists *)

(** Order-preserving deduplication that keeps the first occurrence. *)
Fixpoint dedup_first (l : list string) : list string :=
  match l with
  | [] => []
  | x :: r => x :: filter (λ y, y ≠ x) (dedup_first r)
  end.

(** The valid CIDRs of an annotation value, in order: the comma-separated
    entries, trimmed, without the empty and the unparsable ones. *)
Definition valid_cidrs (val : string) : list string :=
  filter (λ s, s ≠ "" ∧ is_Some (ParseCIDR s)) (TrimSpace <$> Go.Split val ",").

Definition annotation_cidrs (A : gmap string string) (key : string) : list string :=
  match A !! key with
  | Some val => valid_cidrs val
  | None => []
  end.

Definition acl_global (A : gmap string string) : list string :=
  annotation_cidrs A "loadbalancer.k8s.thalassa.cloud/acl-allowed-sources".

Definition acl_port_name (A : gmap string string) (p : ServicePort) : list string :=
  if decide (sp_Name p = "") then []
  else annotation_cidrs A ("loadbalancer.k8s.thalassa.cloud/acl-port-" +:+ sp_Name p).

Definition acl_port_number (A : gmap string string) (p : ServicePort) : list string :=
  annotation_cidrs A ("loadbalancer.k8s.thalassa.cloud/acl-port-" +:+ Go.Itoa (sp_Port p)).

(** ** Endpoints *)

(** [name] hosts an endpoint of one of the slices that is not known to be
    unready and not known to be terminating. *)
Definition hosts_ready_endpoint (slices : list EndpointSlice) (name : string) : Prop :=
  ∃ sl ep, sl ∈ slices ∧ ep ∈ eps_Endpoints sl ∧ ep_NodeName ep = Some name
           ∧ ep_Ready ep ≠ Some false ∧ ep_Terminating ep ≠ Some true.

(** The names of the nodes that host such an endpoint, as a set. *)
Definition ready_node_names (slices : list EndpointSlice) : gset string :=
  list_to_set
    (omap (λ ep, if decide (ep_Ready ep ≠ Some false ∧ ep_Terminating ep ≠ Some true)
                 then ep_NodeName ep else None)
          (slices ≫= eps_Endpoints)).

(** [name] contributes a ready endpoint to the slice. *)
Definition contributes_ready (sl : EndpointSlice) (name : string) : Prop :=
  ∃ ep, ep ∈ eps_Endpoints sl ∧ ep_NodeName ep = Some name ∧ ep_Ready ep = Some true.

(** ** Status *)

(** One entry per non-empty external address, in listing order. *)
Definition ingress_of (b : VpcLoadbalancer) : list LoadBalancerIngress :=
  (λ ip, {| ing_IP := ip; ing_Hostname := lb_Hostname b;
            ing_IPMode := Some LoadBalancerIPModeProxy |})
    <$> filter (λ ip, ip ≠ "") (lb_ExternalIpAddresses b).

(** ** Health check of a local-only Service *)

(** The health check of every desired target group uses the
    health-check node port of the Service, with protocol http. *)
Definition health_check_uses_node_port (lb : loadbalancer) (service : Service) : Prop :=
  svc_ExternalTrafficPolicy service = ServiceExternalTrafficPolicyTypeLocal →
  svc_HealthCheckNodePort service > 0 →
  ∀ tg, tg ∈ (getDesiredVpcLoadbalancerTargetGroups lb service []).1 →
    ∃ hc, tg_HealthCheck tg = Some hc
          ∧ hc_Port hc = svc_HealthCheckNodePort service
          ∧ hc_Protocol hc = ProtocolHTTP.

(** The port the provider probes: the [health-check-port] annotation when
    it is a positive integer, the health-check node port otherwise. *)
Definition local_health_check_port (service : Service) : Z :=
  match svc_Annotations service !! LoadbalancerAnnotationHealthCheckPort with
  | Some val =>
      match Go.Atoi val with
      | Some p => if decide (p > 0) then Go.int32 p else svc_HealthCheckNodePort service
      | None => svc_HealthCheckNodePort service
      end
  | None => svc_HealthCheckNodePort service
  end.

(** ** Security-group rules *)

(** Priorities assigned in emission order, starting at 100. *)
Definition priorities_in_emission_order (rules : list SecurityGroupRule) : Prop :=
  ∀ i r, rules !! i = Some r → rule_Priority r = 100 + Z.of_nat i.

End Specification.

(** ** Reasoning about reconciles *)

(** The result and the final world of a computation run from [w] satisfy
    [Q]. Every computation of [M] ends: it is a function. *)
Definition wp {St A} (m : M St A) (Q : error + A → World St → Prop) (w : World St) : Prop :=
  Q (m w).1 (m w).2.

(** Every call of the trace is justified by the calls before it. *)
Definition trace_ok (J : list Event → Event → Prop) (tr : list Event) : Prop :=
  ∀ pre ev post, tr = pre ++ ev :: post → J pre ev.

(** The cloud listed the target group [tg] in one of the calls of [tr]. *)
Definition listed_target_group (tr : list Event) (tg : VpcLoadbalancerTargetGroup) : Prop :=
  ∃ vpc labels tgs, EvListTargetGroups vpc labels (inr tgs) ∈ tr ∧ tg ∈ tgs.

(** The cloud returned the target group [tg] from a create or an update. *)
Definition returned_target_group (tr : list Event) (tg : VpcLoadbalancerTargetGroup) : Prop :=
  (∃ req, EvCreateTargetGroup req (inr (Some tg)) ∈ tr)
  ∨ (∃ req, EvUpdateTargetGroup req (inr (Some tg)) ∈ tr).

(** The cloud returned the load balancer [b]: in a listing, or as the
    result of a creation. *)
Definition returned_loadbalancer (tr : list Event) (b : VpcLoadbalancer) : Prop :=
  (∃ vpc lbs, EvListLoadbalancers vpc (inr lbs) ∈ tr ∧ b ∈ lbs)
  ∨ (∃ req, EvCreateLoadbalancer req (inr b) ∈ tr).

(** A target group is deleted only if a listing of this reconcile showed
    it without listeners. *)
Definition target_group_delete_justified (pre : list Event) (ev : Event) : Prop :=
  match ev with
  | EvDeleteTargetGroup identity _ =>
      ∃ tg, listed_target_group pre tg ∧ tg_Identity tg = identity
            ∧ tg_LoadbalancerListeners tg = []
  | _ => True
  end.

(** An update of a load balancer repeats the name, description, labels and
    annotations of the load balancer the cloud returned. *)
Definition loadbalancer_update_preserves (pre : list Event) (ev : Event) : Prop :=
  match ev with
  | EvUpdateLoadbalancer identity req _ =>
      ∃ b, returned_loadbalancer pre b ∧ lb_Identity b = identity
           ∧ ulb_Name req = lb_Name b ∧ ulb_Description req = lb_Description b
           ∧ ulb_Labels req = lb_Labels b ∧ ulb_Annotations req = lb_Annotations b
  | _ => True
  end.

(** The value of the [internal] annotation, as the creation reads it. *)
Definition internal_annotation (service : Service) : bool :=
  match svc_Annotations service !! LoadbalancerAnnotationInternal with
  | Some val => default false (Go.ParseBool val)
  | None => false
  end.

Definition loadbalancer_create_sets_internal (service : Service) (ev : Event) : Prop :=
  match ev with
  | EvCreateLoadbalancer req _ => clb_InternalLoadbalancer req = internal_annotation service
  | _ => True
  end.

(** The [internal] attribute of every load balancer of the reference
    cloud, by identity. *)
Definition internal_flags (s : RefCloud.State) : list (string * bool) :=
  (λ b, (lb_Identity b, lb_InternalLoadbalancer b)) <$> RefCloud.loadbalancers s.

(** A create or a delete call answers a difference that a listing of the
    same reconcile showed: no load balancer or managed security group with
    the labels (or the name) of the Service, no target group with the key
    of the created one, no listener on the port of the created one, a
    listener on a port the Service does not have, a target group without
    listeners whose key no target group of this reconcile has. A
    reconcile deletes no load balancer and no security group. *)
Definition create_or_delete_justified (lb : loadbalancer) (service : Service)
    (pre : list Event) (ev : Event) : Prop :=
  match ev with
  | EvCreateLoadbalancer _ _ =>
      ∃ vpc lbs, EvListLoadbalancers vpc (inr lbs) ∈ pre
        ∧ ∀ b, b ∈ lbs →
            matchLabels (GetLabelsForVpcLoadbalancer lb service) (lb_Labels b) = false
            ∧ lb_Name b ≠ GetLoadBalancerName lb service
  | EvCreateSecurityGroup _ _ =>
      ∃ vpc labels sgs, EvListSecurityGroups vpc (Some labels) (inr sgs) ∈ pre
        ∧ ∀ sg, sg ∈ sgs → matchLabels labels (sg_Labels sg) = false
  | EvCreateTargetGroup req _ =>
      ∃ vpc labels tgs, EvListTargetGroups vpc labels (inr tgs) ∈ pre
        ∧ ∀ tg, tg ∈ tgs →
            targetGroupKey tg ≠ ctg_Protocol req +:+ ":" +:+ Go.Itoa (ctg_TargetPort req)
  | EvDeleteTargetGroup identity _ =>
      ∃ tg, listed_target_group pre tg ∧ tg_Identity tg = identity
            ∧ tg_LoadbalancerListeners tg = []
            ∧ ∀ t, returned_target_group pre t → targetGroupKey t ≠ targetGroupKey tg
  | EvCreateListener loadbalancer req _ =>
      ∃ ls, EvListListeners loadbalancer (inr ls) ∈ pre
        ∧ ∀ l, l ∈ ls → l_Port l ≠ lr_Port req
  | EvDeleteListener loadbalancer identity _ =>
      ∃ ls l, EvListListeners loadbalancer (inr ls) ∈ pre ∧ l ∈ ls
        ∧ l_Identity l = identity
        ∧ l_Port l ∉ (sp_Port <$> svc_Ports service)
  | EvDeleteLoadbalancer _ _ | EvDeleteSecurityGroup _ _ => False
  | _ => True
  end.

(** What a reconcile is held to: its creates and deletes are justified,
    its load-balancer updates repeat the identity of the load balancer,
    and a creation takes the [internal] flag from the annotation. *)
Definition reconcile_justified (lb : loadbalancer) (service : Service)
    (pre : list Event) (ev : Event) : Prop :=
  create_or_delete_justified lb service pre ev
  ∧ loadbalancer_update_preserves pre ev
  ∧ loadbalancer_create_sets_internal service ev.

(** A justification that lets every read-only call pass. *)
Definition accepts_reads (J : list Event → Event → Prop) : Prop :=
  ∀ pre ev, is_mutation ev = false → J pre ev.

(** A justification that lets pass the deletion of a target group that was
    listed without listeners and whose key no returned target group has. *)
Definition accepts_unused_target_group_delete (J : list Event → Event → Prop) : Prop :=
  ∀ pre identity resp tg,
    listed_target_group pre tg → tg_Identity tg = identity →
    tg_LoadbalancerListeners tg = [] →
    (∀ t, returned_target_group pre t → targetGroupKey t ≠ targetGroupKey tg) →
    J pre (EvDeleteTargetGroup identity resp).

(** The lookup of the load balancer found nothing in a listing of [tr]. *)
Definition no_loadbalancer_found (lb : loadbalancer) (service : Service)
    (tr : list Event) : Prop :=
  ∃ vpc lbs, EvListLoadbalancers vpc (inr lbs) ∈ tr
    ∧ ∀ b, b ∈ lbs →
        matchLabels (GetLabelsForVpcLoadbalancer lb service) (lb_Labels b) = false
        ∧ lb_Name b ≠ GetLoadBalancerName lb service.

(** An event that returns no target group. *)
Definition returns_no_target_group (e : Event) : Prop :=
  match e with
  | EvCreateTargetGroup _ (inr (Some _)) | EvUpdateTargetGroup _ (inr (Some _)) => False
  | _ => True
  end.

(** From [w] to [w'] the trace grew, stayed justified, and no call
    returned a target group outside [tgs]. *)
Definition step_ok {St} (J : list Event → Event → Prop)
    (tgs : list VpcLoadbalancerTargetGroup) (w w' : World St) : Prop :=
  trace w `prefix_of` trace w'
  ∧ trace_ok J (trace w')
  ∧ ∀ t, returned_target_group (trace w') t → returned_target_group (trace w) t ∨ t ∈ tgs.

(** The call [op] leaves the observation [obs] of the cloud as it is. *)
Definition keeps {St X R} (obs : St → X) (op : St → R * St) : Prop :=
  ∀ s, obs (op s).2 = obs s.

(** Every call of the client keeps [obs], the creation and the deletion
    of a load balancer apart. *)
Record client_keeps {St X} `{IaasClient St} (obs : St → X) : Prop := {
  keeps_ListLoadbalancers vpc : keeps obs (iaas_ListLoadbalancers vpc);
  keeps_GetVpc identity : keeps obs (iaas_GetVpc identity);
  keeps_UpdateLoadbalancer identity req : keeps obs (iaas_UpdateLoadbalancer identity req);
  keeps_ListSecurityGroups vpc labels : keeps obs (iaas_ListSecurityGroups vpc labels);
  keeps_CreateSecurityGroup req : keeps obs (iaas_CreateSecurityGroup req);
  keeps_UpdateSecurityGroup identity req : keeps obs (iaas_UpdateSecurityGroup identity req);
  keeps_DeleteSecurityGroup identity : keeps obs (iaas_DeleteSecurityGroup identity);
  keeps_ListTargetGroups vpc labels : keeps obs (iaas_ListTargetGroups vpc labels);
  keeps_CreateTargetGroup req : keeps obs (iaas_CreateTargetGroup req);
  keeps_UpdateTargetGroup req : keeps obs (iaas_UpdateTargetGroup req);
  keeps_DeleteTargetGroup identity : keeps obs (iaas_DeleteTargetGroup identity);
  keeps_SetTargetGroupServerAttachments batch :
    keeps obs (iaas_SetTargetGroupServerAttachments batch);
  keeps_ListListeners loadbalancer : keeps obs (iaas_ListListeners loadbalancer);
  keeps_CreateListener loadbalancer req : keeps obs (iaas_CreateListener loadbalancer req);
  keeps_UpdateListener loadbalancer identity req :
    keeps obs (iaas_UpdateListener loadbalancer identity req);
  keeps_DeleteListener loadbalancer identity :
    keeps obs (iaas_DeleteListener loadbalancer identity);
}.

(** The observation [x] after at most one creation of a load balancer
    whose [internal] flag is the annotation of [service], from a cloud
    observed as [x0]. *)
Definition kept_or_created {St X} `{IaasClient St} (obs : St → X) (service : Service)
    (x0 x : X) : Prop :=
  x = x0
  ∨ ∃ req s, obs s = x0 ∧ clb_InternalLoadbalancer req = internal_annotation service
             ∧ x = obs (iaas_CreateLoadbalancer req s).2.

(** The status [st] lists the external addresses of a load balancer that
    the cloud returned in [tr]. *)
Definition status_of_returned_loadbalancer (tr : list Event)
    (st : list LoadBalancerIngress) : Prop :=
  ∃ b, returned_loadbalancer tr b ∧ st = ingress_of b.

(** The [internal] flag is set by the creation request, and an update
    request repeats what the cloud returned. *)
Definition internal_flag_justified (service : Service) (pre : list Event) (ev : Event) : Prop :=
  loadbalancer_create_sets_internal service ev ∧ loadbalancer_update_preserves pre ev.

(** Idempotence of ensure as a property of every cloud: after a
    successful ensure from any state of the cloud, a second ensure with
    the same Service and nodes makes read-only calls only. *)
Definition ensure_is_idempotent : Prop :=
  ∀ (T : GoText) (St : Type) (C : IaasClient St)
    (lb : loadbalancer) (nodeFilter : NodeFilter) (ticks : nat)
    (service : Service) (nodes : list Node) (s : St),
    let first := EnsureLoadBalancer lb nodeFilter ticks service nodes (mkWorld s []) in
    let second := EnsureLoadBalancer lb nodeFilter ticks service nodes
                                     (mkWorld (cloud first.2) []) in
    is_Some (match first.1 with inr st => Some st | inl _ => None end) →
    Forall (λ ev, is_mutation ev = false) (trace second.2).

(** * Concrete scenarios

    Services, nodes and cloud states on which the model is run. *)

Module Scenario.

Definition provider : loadbalancer :=
  {| additionalLabels := ∅; vpcIdentity := "vpc-1"; defaultSubnet := "";
     cluster := "test-cluster"; CreationPollInterval := None; CreationPollTimeout := None |}.

Definition http_port : ServicePort :=
  {| sp_Name := "http"; sp_Protocol := "TCP"; sp_Port := 80; sp_NodePort := 30000 |}.

Definition https_port : ServicePort :=
  {| sp_Name := "https"; sp_Protocol := "TCP"; sp_Port := 443; sp_NodePort := 30001 |}.

Definition service_with (uid : string) (annotations : gmap string string)
    (ports : list ServicePort) (policy : string) (healthCheckNodePort : Z) : Service :=
  {| svc_Name := "test-service"; svc_Namespace := "default"; svc_UID := uid;
     svc_Annotations := annotations; svc_Ports := ports;
     svc_ExternalTrafficPolicy := policy; svc_HealthCheckNodePort := healthCheckNodePort |}.

(** Basic single-port Service, cluster-wide policy. *)
Definition basic : Service := service_with "test-uid-1" ∅ [http_port] "Cluster" 0.

(** The Service of the test "service with invalid loadbalancing policy". *)
Definition invalid_policy : Service :=
  service_with "test-uid-10"
    (<[LoadbalancerAnnotationLoadbalancingPolicy := "INVALID_POLICY"]> ∅)
    [http_port] "Cluster" 0.

(** The Service of the test "service with HealthCheckNodePort for local
    traffic policy". *)
Definition local_only : Service := service_with "test-uid-7" ∅ [http_port] "Local" 31000.

(** The Service of the test "service with HealthCheckNodePort and custom
    health check port". *)
Definition local_only_custom_port : Service :=
  service_with "test-uid-8" (<[LoadbalancerAnnotationHealthCheckPort := "8080"]> ∅)
    [http_port] "Local" 31000.

(** Per-port ACL union: a global list, a list keyed by port name and a
    list keyed by port number. *)
Definition per_port_acl : Service :=
  service_with "test-uid-acl"
    (<["loadbalancer.k8s.thalassa.cloud/acl-allowed-sources" := "10.0.0.0/8,192.168.1.0/24"]>
     (<["loadbalancer.k8s.thalassa.cloud/acl-port-http" := "172.16.0.0/12, invalid-cidr ,10.0.0.0/8"]>
      (<["loadbalancer.k8s.thalassa.cloud/acl-port-443" := "10.10.0.0/16"]> ∅)))
    [http_port; https_port] "Cluster" 0.

(** Internal load balancer, and the same Service with the annotation
    toggled. *)
Definition internal_true : Service :=
  service_with "test-uid-1" (<[LoadbalancerAnnotationInternal := "true"]> ∅)
    [http_port] "Cluster" 0.

Definition internal_false : Service :=
  service_with "test-uid-1" (<[LoadbalancerAnnotationInternal := "false"]> ∅)
    [http_port] "Cluster" 0.

Definition node (name server : string) : Node :=
  {| node_Name := name; node_ProviderID := "thalassa://" +:+ server |}.

Definition nodes : list Node := [node "node-1" "vm-1"; node "node-2" "vm-2"].

Definition endpoint (name : string) (ready : option bool) : Endpoint :=
  {| ep_NodeName := Some name; ep_Ready := ready; ep_Terminating := None |}.

Definition slice (endpoints : list Endpoint) : EndpointSlice :=
  {| eps_Namespace := "default";
     eps_Labels := <[LabelServiceName := "test-service"]> ∅;
     eps_Endpoints := endpoints |}.

(** An informer cache with one slice: a ready endpoint on node-2. *)
Definition slices_on_node2 : list EndpointSlice := [slice [endpoint "node-2" (Some true)]].

Definition cache (slices : list EndpointSlice) : NodeFilter :=
  {| epSliceLister := λ _ _, inr slices |}.

Definition watcher : EndpointSliceWatcher :=
  {| localTrafficServices := {["default/test-service"]} |}.

(** A listener on TCP/80 that allows one IPv4 and one IPv6 network. *)
Definition listener_two_sources : VpcLoadbalancerListener :=
  {| l_Identity := ""; l_Name := "web"; l_Description := ""; l_Labels := ∅;
     l_Annotations := ∅; l_Port := 80; l_Protocol := "tcp"; l_TargetGroup := None;
     l_AllowedSources := ["10.0.0.0/8"; "::/0"];
     l_ConnectionIdleTimeout := None; l_MaxConnections := None |}.

(** A load balancer whose second external address is empty. *)
Definition balancer_with_gap : VpcLoadbalancer :=
  {| lb_Identity := "lb-9"; lb_Name := "lb"; lb_Description := ""; lb_Labels := ∅;
     lb_Annotations := ∅; lb_Subnet := "subnet-1"; lb_SecurityGroups := [];
     lb_ExternalIpAddresses := ["203.0.113.1"; ""; "203.0.113.2"];
     lb_Hostname := "lb.example.test"; lb_Status := "ready";
     lb_DeleteProtection := false; lb_InternalLoadbalancer := false |}.

(** A cloud with one subnet and nothing else. *)
Definition fresh_cloud : RefCloud.State :=
  RefCloud.empty [{| subnet_Identity := "subnet-1"; subnet_Slug := "main" |}].

Definition ensure (service : Service) (s : RefCloud.State)
  : (error + list LoadBalancerIngress) * World RefCloud.State :=
  @EnsureLoadBalancer AsciiText _ RefCloud.client provider (cache []) 3 service nodes
                      (mkWorld s []).

(** The cloud after a first ensure of the basic Service. *)
Definition converged_cloud : RefCloud.State := cloud (ensure basic fresh_cloud).2.

(** The cloud after a first ensure of the Service with the [internal]
    annotation set to true. *)
Definition internal_cloud : RefCloud.State := cloud (ensure internal_true fresh_cloud).2.

End Scenario.

(** * Properties *)

(** ** Annotation decoder *)

Lemma getStringAnnotation_lookup service annotation defaultValue :
  getStringAnnotation service annotation defaultValue
  = (default defaultValue (svc_Annotations service !! annotation), None).
Proof. unfold getStringAnnotation. by destruct (_ !! _). Qed.

Lemma GetLoadbalancingPolicy_absent service :
  svc_Annotations service !! LoadbalancerAnnotationLoadbalancingPolicy = None →
  GetLoadbalancingPolicy service = (LoadbalancingPolicyRoundRobin, None).
Proof.
  intros Habs. unfold GetLoadbalancingPolicy.
  rewrite getStringAnnotation_lookup, Habs. reflexivity.
Qed.

Lemma GetLoadbalancingPolicy_invalid service v :
  svc_Annotations service !! LoadbalancerAnnotationLoadbalancingPolicy = Some v →
  v ∉ ["ROUND_ROBIN"; "RANDOM"; "MAGLEV"] →
  GetLoadbalancingPolicy service = (LoadbalancingPolicyRoundRobin, Some (invalid_policy_error v)).
Proof.
  intros Hv Hbad. unfold GetLoadbalancingPolicy.
  rewrite getStringAnnotation_lookup, Hv. simpl.
  rewrite bool_decide_eq_false_2; [done|].
  intros Hin. apply Hbad. rewrite !elem_of_cons.
  unfold LoadbalancingPolicyRoundRobin, LoadbalancingPolicyRandom, LoadbalancingPolicyMagLev in Hin.
  tauto.
Qed.

(** C8. Strict load-balancing policy validation: when the
    loadbalancing-policy annotation is present with a value outside
    ROUND_ROBIN, RANDOM and MAGLEV, [GetLoadbalancingPolicy] returns the
    "invalid loadbalancing policy" error and
    [getDesiredVpcLoadbalancerTargetGroups] returns no target groups and
    that error; when the annotation is absent the policy is ROUND_ROBIN
    and there is no error. *)
Theorem policy_validation_is_strict `{GoText} (lb : loadbalancer) (service : Service)
    (nodes : list Node) :
  (∀ v, svc_Annotations service !! LoadbalancerAnnotationLoadbalancingPolicy = Some v →
        v ∉ ["ROUND_ROBIN"; "RANDOM"; "MAGLEV"] →
        GetLoadbalancingPolicy service
          = (LoadbalancingPolicyRoundRobin, Some (invalid_policy_error v))
        ∧ getDesiredVpcLoadbalancerTargetGroups lb service nodes
          = ([], Some (invalid_policy_error v)))
  ∧ (svc_Annotations service !! LoadbalancerAnnotationLoadbalancingPolicy = None →
     GetLoadbalancingPolicy service = ("ROUND_ROBIN", None)).
Proof.
  split.
  - intros v Hv Hbad.
    pose proof (GetLoadbalancingPolicy_invalid service v Hv Hbad) as Hpol.
    split; [exact Hpol|].
    unfold getDesiredVpcLoadbalancerTargetGroups.
    destruct (getBoolAnnotation service LoadbalancerAnnotationEnableProxyProtocol _).
    by rewrite Hpol.
  - apply GetLoadbalancingPolicy_absent.
Qed.

Lemma policy_validation_is_strict_witness :
  (@GetLoadbalancingPolicy Scenario.invalid_policy
     = ("ROUND_ROBIN", Some (invalid_policy_error "INVALID_POLICY"))
   ∧ @getDesiredVpcLoadbalancerTargetGroups AsciiText Scenario.provider Scenario.invalid_policy []
     = ([], Some (invalid_policy_error "INVALID_POLICY")))
  ∧ GetLoadbalancingPolicy Scenario.basic = ("ROUND_ROBIN", None).
Proof.
  split.
  - apply (proj1 (@policy_validation_is_strict AsciiText Scenario.provider
                    Scenario.invalid_policy []) "INVALID_POLICY").
    + reflexivity.
    + rewrite !elem_of_cons, elem_of_nil. intros [?|[?|[?|[]]]]; discriminate.
  - apply (proj2 (@policy_validation_is_strict AsciiText Scenario.provider Scenario.basic [])).
    reflexivity.
Defined.

(** ** Desired target groups *)

Lemma getIntAnnotation_fst service annotation defaultValue :
  (getIntAnnotation service annotation defaultValue).1
  = match svc_Annotations service !! annotation with
    | Some val => default defaultValue (Go.Atoi val)
    | None => defaultValue
    end.
Proof.
  unfold getIntAnnotation. destruct (_ !! _) as [val|]; [|done].
  by destruct (Go.Atoi val).
Qed.

(** The port of the first branch of the health check is
    [local_health_check_port]. *)
Lemma local_health_check_port_eq service :
  (let healthCheckPort := (getIntAnnotation service LoadbalancerAnnotationHealthCheckPort (-1)).1 in
   if bool_decide (healthCheckPort > 0) then Go.int32 healthCheckPort
   else svc_HealthCheckNodePort service)
  = local_health_check_port service.
Proof.
  unfold local_health_check_port. cbv zeta. rewrite getIntAnnotation_fst.
  destruct (_ !! _) as [val|]; [|done].
  destruct (Go.Atoi val) as [p|]; simpl; [|done].
  destruct (decide (p > 0)).
  - by rewrite bool_decide_eq_true_2.
  - by rewrite bool_decide_eq_false_2.
Qed.

(** C6, as the code has it. For every Service with external-traffic policy
    local-only and an assigned health-check node port, every desired
    target group carries a health check with protocol http whose port is
    the health-check-port annotation when that is a positive integer and
    the health-check node port otherwise; the path, timeout, interval and
    thresholds are those of the annotations, or their defaults. *)
Theorem local_health_check `{GoText} (lb : loadbalancer) (service : Service)
    (nodes : list Node) (tgs : list VpcLoadbalancerTargetGroup) :
  svc_ExternalTrafficPolicy service = ServiceExternalTrafficPolicyTypeLocal →
  svc_HealthCheckNodePort service > 0 →
  getDesiredVpcLoadbalancerTargetGroups lb service nodes = (tgs, None) →
  length tgs = length (svc_Ports service)
  ∧ ∀ tg, tg ∈ tgs →
      tg_HealthCheck tg = Some
        {| hc_Port := local_health_check_port service;
           hc_Protocol := "http";
           hc_Path := (getStringAnnotation service LoadbalancerAnnotationHealthCheckPath "/healthz").1;
           hc_TimeoutSeconds := (getIntAnnotation service LoadbalancerAnnotationHealthCheckTimeout 5).1;
           hc_PeriodSeconds := (getIntAnnotation service LoadbalancerAnnotationHealthCheckInterval 10).1;
           hc_HealthyThreshold :=
             Go.int32 (getIntAnnotation service LoadbalancerAnnotationHealthCheckUpThreshold 2).1;
           hc_UnhealthyThreshold :=
             Go.int32 (getIntAnnotation service LoadbalancerAnnotationHealthCheckDownThreshold 3).1 |}.
Proof.
  intros _ Hport Hdesired.
  unfold getDesiredVpcLoadbalancerTargetGroups in Hdesired.
  destruct (getBoolAnnotation service LoadbalancerAnnotationEnableProxyProtocol _) as [proxy ?].
  destruct (GetLoadbalancingPolicy service) as [policy [err|]]; [discriminate|].
  destruct (getBoolAnnotation service LoadbalancerAnnotationHealthCheckEnabled _) as [enabled ?].
  rewrite <- (local_health_check_port_eq service). cbv zeta.
  destruct (getStringAnnotation service LoadbalancerAnnotationHealthCheckPath _) as [path ?].
  destruct (getIntAnnotation service LoadbalancerAnnotationHealthCheckPort _) as [hcport ?].
  destruct (getStringAnnotation service LoadbalancerAnnotationHealthCheckProtocol _) as [proto ?].
  destruct (getIntAnnotation service LoadbalancerAnnotationHealthCheckTimeout _) as [timeout ?].
  destruct (getIntAnnotation service LoadbalancerAnnotationHealthCheckInterval _) as [period ?].
  destruct (getIntAnnotation service LoadbalancerAnnotationHealthCheckUpThreshold _) as [up ?].
  destruct (getIntAnnotation service LoadbalancerAnnotationHealthCheckDownThreshold _) as [down ?].
  injection Hdesired as <-. split; [by rewrite length_fmap|].
  intros tg [svcPort [-> _]]%list_elem_of_fmap.
  unfold desiredTargetGroupForPort. simpl.
  rewrite bool_decide_eq_true_2 by done. reflexivity.
Qed.

Lemma local_health_check_witness :
  svc_HealthCheckNodePort Scenario.local_only_custom_port > 0
  ∧ ∀ tg, tg ∈ (@getDesiredVpcLoadbalancerTargetGroups AsciiText Scenario.provider
                  Scenario.local_only_custom_port []).1 →
      hc_Port <$> tg_HealthCheck tg = Some 8080.
Proof.
  split; [reflexivity|].
  intros tg Htg.
  destruct (@local_health_check AsciiText Scenario.provider Scenario.local_only_custom_port []
              (@getDesiredVpcLoadbalancerTargetGroups AsciiText Scenario.provider
                 Scenario.local_only_custom_port []).1) as [_ Hhc].
  - reflexivity.
  - reflexivity.
  - reflexivity.
  - rewrite (Hhc tg Htg). reflexivity.
Defined.

(** C6, as the specification states it, fails on the Service of the
    provider's own test "service with HealthCheckNodePort and custom
    health check port": the health check of its target group probes port
    8080, not the health-check node port 31000. *)
Lemma health_check_node_port_overridden :
  ¬ @health_check_uses_node_port AsciiText Scenario.provider Scenario.local_only_custom_port.
Proof.
  intros Hclaim.
  destruct (Hclaim eq_refl eq_refl
              (@desiredTargetGroupForPort AsciiText Scenario.provider Scenario.local_only_custom_port
                 "atestuid8" false "ROUND_ROBIN" false "/healthz" 8080 "http" 5 10 2 3
                 Scenario.http_port))
    as (hc & Hhc & Hport & _).
  - vm_compute. apply list_elem_of_here.
  - vm_compute in Hhc. injection Hhc as <-. discriminate Hport.
Qed.

(** ** Access-control lists *)

Section AclProperties.
Context `{GoText}.

Lemma filter_all {A} (P : A → Prop) `{∀ x, Decision (P x)} (l : list A) :
  (∀ x, P x) → filter P l = l.
Proof.
  intros HP. induction l as [|x r IH]; [done|].
  rewrite filter_cons_True by done. by rewrite IH.
Qed.

Lemma dedup_first_filter (P : string → Prop) `{∀ x, Decision (P x)} (l : list string) :
  dedup_first (filter P l) = filter P (dedup_first l).
Proof.
  induction l as [|x r IH]; [done|].
  rewrite filter_cons. simpl. destruct (decide (P x)) as [Hx|Hx].
  - simpl. rewrite filter_cons_True by done. f_equal.
    rewrite IH, !list_filter_filter. apply list_filter_iff. tauto.
  - rewrite filter_cons_False by done.
    rewrite IH, list_filter_filter. apply list_filter_iff.
    intros y. split; [|tauto]. intros Hy. split; [done|]. by intros ->.
Qed.

Lemma dedup_first_idemp (l : list string) : dedup_first (dedup_first l) = dedup_first l.
Proof.
  induction l as [|x r IH]; [done|].
  simpl. f_equal. rewrite dedup_first_filter, IH, list_filter_filter.
  apply list_filter_iff. tauto.
Qed.

Lemma dedup_first_app_dedup (a b : list string) :
  dedup_first (a ++ dedup_first b) = dedup_first (a ++ b).
Proof.
  induction a as [|x a IH]; simpl.
  - apply dedup_first_idemp.
  - by rewrite IH.
Qed.

(** The loop of [removeDuplicateStrings], from any point of its run:
    [keys] holds exactly the strings of [result]. *)
Lemma removeDuplicateStrings_loop (keys : gmap string bool) (result l : list string) :
  (∀ x, default false (keys !! x) = true ↔ x ∈ result) →
  (foldl removeDuplicateStrings_step (keys, result) l).2
  = result ++ dedup_first (filter (λ x, x ∉ result) l).
Proof.
  revert keys result. induction l as [|x r IH]; intros keys result Hkeys.
  - simpl. by rewrite app_nil_r.
  - simpl. rewrite filter_cons.
    destruct (default false (keys !! x)) eqn:Hx.
    + apply Hkeys in Hx. rewrite decide_False by tauto. by apply IH.
    + assert (x ∉ result) as Hnotin.
      { intros Hin. apply Hkeys in Hin. congruence. }
      rewrite decide_True by done. simpl.
      rewrite IH.
      * rewrite <- app_assoc. simpl. do 2 f_equal.
        rewrite <- dedup_first_filter, list_filter_filter. f_equal.
        apply list_filter_iff. intros y. rewrite elem_of_app, list_elem_of_singleton. tauto.
      * intros y. rewrite elem_of_app, list_elem_of_singleton.
        destruct (decide (x = y)) as [->|Hne].
        -- rewrite lookup_insert_eq. simpl. tauto.
        -- rewrite lookup_insert_ne by done. rewrite Hkeys. split; [tauto|].
           intros [?|?]; [done|congruence].
Qed.

Lemma removeDuplicateStrings_dedup_first (input : list string) :
  removeDuplicateStrings input = dedup_first input.
Proof.
  unfold removeDuplicateStrings. rewrite removeDuplicateStrings_loop.
  - simpl. f_equal. apply filter_all. intros x. apply not_elem_of_nil.
  - intros x. rewrite lookup_empty. simpl. split; [discriminate|].
    intros Hx. by apply not_elem_of_nil in Hx.
Qed.

Lemma parseAclSources_loop (validSources l : list string) :
  foldl parseAclSources_step validSources l
  = validSources ++ filter (λ s, s ≠ "" ∧ is_Some (ParseCIDR s)) (TrimSpace <$> l).
Proof.
  revert validSources. induction l as [|x r IH]; intros validSources; simpl.
  - by rewrite app_nil_r.
  - rewrite IH, filter_cons. unfold parseAclSources_step.
    destruct (decide (TrimSpace x = "")) as [Hempty|Hne].
    + rewrite bool_decide_eq_true_2 by done. rewrite decide_False; [done|]. tauto.
    + rewrite bool_decide_eq_false_2 by done.
      destruct (ParseCIDR (TrimSpace x)) as [ipnet|] eqn:Hparse.
      * rewrite decide_True; [by rewrite <- app_assoc|]. split; [done|]. by eexists.
      * rewrite decide_False; [done|]. intros [_ [ipnet Hsome]]. congruence.
Qed.

Lemma parseAclSources_valid_cidrs (val : string) : parseAclSources val = valid_cidrs val.
Proof. unfold parseAclSources. by rewrite parseAclSources_loop. Qed.

Lemma acl_port_key (x : string) :
  LoadbalancerAnnotationAclAllowedSourcesPort +:+ "-" +:+ x
  = "loadbalancer.k8s.thalassa.cloud/acl-port-" +:+ x.
Proof. reflexivity. Qed.

Lemma getPerPortAclAllowedSources_spec (service : Service) (p : ServicePort) :
  getPerPortAclAllowedSources service p
  = dedup_first (acl_port_name (svc_Annotations service) p
                 ++ acl_port_number (svc_Annotations service) p).
Proof.
  unfold getPerPortAclAllowedSources, acl_port_name, acl_port_number, annotation_cidrs.
  rewrite removeDuplicateStrings_dedup_first. f_equal.
  rewrite !acl_port_key.
  destruct (decide (sp_Name p = "")) as [Hname|Hname].
  - rewrite bool_decide_eq_false_2 by tauto.
    destruct (_ !! _); by rewrite ?parseAclSources_valid_cidrs.
  - rewrite bool_decide_eq_true_2 by done.
    destruct (svc_Annotations service !! _); destruct (svc_Annotations service !! _);
      simpl; by rewrite ?parseAclSources_valid_cidrs, ?app_nil_r.
Qed.

(** C4. ACL combination: the allowed sources of the listener of a
    Service port are the order-preserving deduplication, keeping first
    occurrences, of the valid CIDRs of the global annotation, then of the
    annotation keyed by the port name (when the port has one), then of the
    annotation keyed by the port number; entries that are empty or do not
    parse are skipped. *)
Theorem acl_combination (lb : loadbalancer) (service : Service) (i : nat) (p : ServicePort) :
  svc_Ports service !! i = Some p →
  ∃ l, desiredVpcLoadbalancerListener lb service !! i = Some l
       ∧ l_Port l = sp_Port p
       ∧ l_AllowedSources l
         = dedup_first (acl_global (svc_Annotations service)
                        ++ acl_port_name (svc_Annotations service) p
                        ++ acl_port_number (svc_Annotations service) p).
Proof.
  intros Hp. unfold desiredVpcLoadbalancerListener.
  destruct (getIntAnnotation service LoadbalancerAnnotationIdleConnectionTimeout _) as [timeout ?].
  destruct (getIntAnnotation service LoadbalancerAnnotationMaxConnections _) as [maxconn ?].
  eexists. split; [rewrite list_lookup_fmap, Hp; reflexivity|].
  split; [done|]. simpl.
  rewrite removeDuplicateStrings_dedup_first, getPerPortAclAllowedSources_spec.
  rewrite dedup_first_app_dedup. do 2 f_equal.
  unfold acl_global, annotation_cidrs, LoadbalancerAnnotationAclAllowedSources.
  destruct (svc_Annotations service !! _); by rewrite ?parseAclSources_valid_cidrs.
Qed.

End AclProperties.

Lemma acl_combination_witness :
  svc_Ports Scenario.per_port_acl !! 0%nat = Some Scenario.http_port
  ∧ ∃ l, @desiredVpcLoadbalancerListener AsciiText Scenario.provider Scenario.per_port_acl !! 0%nat
         = Some l
         ∧ l_Port l = 80
         ∧ l_AllowedSources l = ["10.0.0.0/8"; "192.168.1.0/24"; "172.16.0.0/12"].
Proof.
  split; [reflexivity|].
  destruct (@acl_combination AsciiText Scenario.provider Scenario.per_port_acl 0
              Scenario.http_port eq_refl) as (l & Hl & Hport & Hacl).
  exists l. split; [exact Hl|]. split; [exact Hport|].
  rewrite Hacl. vm_compute. reflexivity.
Defined.

(** ** Node filter *)

Lemma collect_endpoint_elem (readyNodes : gset string) (ep : Endpoint) (name : string) :
  name ∈ collect_endpoint readyNodes ep
  ↔ name ∈ readyNodes
    ∨ (ep_NodeName ep = Some name ∧ ep_Ready ep ≠ Some false ∧ ep_Terminating ep ≠ Some true).
Proof.
  unfold collect_endpoint. destruct (ep_NodeName ep) as [nodeName|].
  - repeat case_bool_decide; rewrite ?elem_of_union, ?elem_of_singleton.
    + split; [tauto|]. intros [?|(_ & ? & _)]; [done|congruence].
    + split; [tauto|]. intros [?|(_ & _ & ?)]; [done|congruence].
    + split.
      * intros [->|?]; [|tauto]. right. split; [done|]. split; congruence.
      * intros [?|([= ->] & _)]; tauto.
  - split; [tauto|]. intros [?|(? & _)]; [done|discriminate].
Qed.

Lemma collect_endpoints_elem (readyNodes : gset string) (eps : list Endpoint) (name : string) :
  name ∈ foldl collect_endpoint readyNodes eps
  ↔ name ∈ readyNodes
    ∨ ∃ ep, ep ∈ eps ∧ ep_NodeName ep = Some name
            ∧ ep_Ready ep ≠ Some false ∧ ep_Terminating ep ≠ Some true.
Proof.
  revert readyNodes. induction eps as [|ep eps IH]; intros readyNodes; simpl.
  - split; [tauto|]. intros [?|(ep & Hin & _)]; [done|]. by apply not_elem_of_nil in Hin.
  - rewrite IH, collect_endpoint_elem. split.
    + intros [[?|?]|(ep' & ? & ?)]; [tauto| |].
      * right. exists ep. split; [apply list_elem_of_here|done].
      * right. exists ep'. split; [by apply list_elem_of_further|done].
    + intros [?|(ep' & [->|?]%elem_of_cons & ?)]; [tauto|tauto|].
      right. by exists ep'.
Qed.

Lemma collect_slices_loop (readyNodes : gset string) (slices : list EndpointSlice) (name : string) :
  name ∈ foldl (λ readyNodes sl, foldl collect_endpoint readyNodes (eps_Endpoints sl))
               readyNodes slices
  ↔ name ∈ readyNodes ∨ hosts_ready_endpoint slices name.
Proof.
  revert readyNodes. induction slices as [|sl slices IH]; intros readyNodes; simpl.
  - split; [tauto|]. intros [?|(sl & ep & Hin & _)]; [done|]. by apply not_elem_of_nil in Hin.
  - rewrite IH, collect_endpoints_elem. unfold hosts_ready_endpoint. split.
    + intros [[?|(ep & ? & ?)]|(sl' & ep & ? & ?)]; [tauto| |].
      * right. exists sl, ep. split; [apply list_elem_of_here|done].
      * right. exists sl', ep. split; [by apply list_elem_of_further|done].
    + intros [?|(sl' & ep & [->|?]%elem_of_cons & ?)]; [tauto| |].
      * left. right. by exists ep.
      * right. by exists sl', ep.
Qed.

Lemma collect_slices_elem (slices : list EndpointSlice) (name : string) :
  name ∈ collect_slices slices ↔ hosts_ready_endpoint slices name.
Proof.
  unfold collect_slices. rewrite collect_slices_loop.
  split; [|tauto]. intros [Hempty|?]; [|done]. by apply not_elem_of_empty in Hempty.
Qed.

(** The loop that appends the nodes to keep is a filter. *)
Lemma filter_loop {A} (P : A → Prop) `{∀ x, Decision (P x)} (acc l : list A) :
  foldl (λ filtered n, if bool_decide (P n) then filtered ++ [n] else filtered) acc l
  = acc ++ filter P l.
Proof.
  revert acc. induction l as [|x l IH]; intros acc; simpl.
  - by rewrite app_nil_r.
  - rewrite IH, filter_cons. case_bool_decide.
    + rewrite decide_True by done. by rewrite <- app_assoc.
    + by rewrite decide_False.
Qed.

Lemma ready_node_names_spec (slices : list EndpointSlice) (name : string) :
  name ∈ ready_node_names slices ↔ hosts_ready_endpoint slices name.
Proof.
  unfold ready_node_names, hosts_ready_endpoint.
  rewrite elem_of_list_to_set, list_elem_of_omap. split.
  - intros (ep & (sl & Hep & Hsl)%list_elem_of_bind & Hname).
    destruct (decide _) as [[? ?]|]; [|discriminate]. by exists sl, ep.
  - intros (sl & ep & Hsl & Hep & Hname & Hready & Hterm).
    exists ep. split; [apply list_elem_of_bind; by exists sl|].
    by rewrite decide_True.
Qed.

Lemma collect_slices_ready_node_names (slices : list EndpointSlice) :
  collect_slices slices = ready_node_names slices.
Proof.
  apply set_eq. intros name.
  by rewrite collect_slices_elem, ready_node_names_spec.
Qed.

(** C5. Node filter: a Service whose external-traffic policy is not
    local-only gets its node list back; for a local-only Service whose
    endpoint slices are listed, the node list comes back unchanged when
    there is no slice or when no node hosts an endpoint with ready other
    than false and terminating other than true, and otherwise exactly the
    nodes whose name is that of such a node come back, in input order. *)
Theorem node_filter_spec (f : NodeFilter) (svc : Service) (nodes : list Node) :
  (svc_ExternalTrafficPolicy svc ≠ "Local" → Filter f svc nodes = (nodes, None))
  ∧ (svc_ExternalTrafficPolicy svc = "Local" →
     ∀ slices, epSliceLister f (svc_Namespace svc) (svc_Name svc) = inr slices →
       (∀ name, name ∈ ready_node_names slices ↔ hosts_ready_endpoint slices name)
       ∧ Filter f svc nodes
         = (if decide (slices = [] ∨ ready_node_names slices = ∅) then nodes
            else filter (λ n, node_Name n ∈ ready_node_names slices) nodes, None)).
Proof.
  unfold Filter, ServiceExternalTrafficPolicyTypeLocal. split.
  - intros Hpolicy. by rewrite bool_decide_eq_true_2.
  - intros Hpolicy slices Hlist. rewrite bool_decide_eq_false_2 by tauto.
    rewrite Hlist. split; [apply ready_node_names_spec|].
    rewrite collect_slices_ready_node_names.
    destruct slices as [|sl slices]; [by rewrite decide_True by tauto|].
    rewrite bool_decide_eq_false_2 by done.
    destruct (decide (ready_node_names (sl :: slices) = ∅)) as [Hempty|Hne].
    + rewrite Hempty, bool_decide_eq_true_2 by apply size_empty.
      by rewrite decide_True by tauto.
    + rewrite bool_decide_eq_false_2 by (by intros ?%size_empty_inv%leibniz_equiv).
      rewrite decide_False by (intros [?|?]; done).
      by rewrite filter_loop.
Qed.

Lemma node_filter_spec_witness :
  Filter (Scenario.cache Scenario.slices_on_node2) Scenario.basic Scenario.nodes
    = (Scenario.nodes, None)
  ∧ Filter (Scenario.cache Scenario.slices_on_node2) Scenario.local_only Scenario.nodes
    = ([Scenario.node "node-2" "vm-2"], None).
Proof.
  split.
  - apply (proj1 (node_filter_spec (Scenario.cache Scenario.slices_on_node2)
                    Scenario.basic Scenario.nodes)).
    discriminate.
  - destruct (proj2 (node_filter_spec (Scenario.cache Scenario.slices_on_node2)
                       Scenario.local_only Scenario.nodes)
                eq_refl Scenario.slices_on_node2 eq_refl) as [_ Hfilter].
    rewrite Hfilter. reflexivity.
Defined.

(** ** Endpoint-slice watcher *)

Lemma collect_ready_elem (nodes : gset string) (ep : Endpoint) (name : string) :
  name ∈ collect_ready nodes ep
  ↔ name ∈ nodes ∨ (ep_NodeName ep = Some name ∧ ep_Ready ep = Some true).
Proof.
  unfold collect_ready.
  destruct (ep_NodeName ep) as [nodeName|]; [destruct (ep_Ready ep) as [[|]|]|].
  - rewrite elem_of_union, elem_of_singleton. split.
    + intros [->|?]; tauto.
    + intros [?|([= ->] & _)]; tauto.
  - split; [tauto|]. intros [?|(_ & ?)]; [done|discriminate].
  - split; [tauto|]. intros [?|(_ & ?)]; [done|discriminate].
  - split; [tauto|]. intros [?|(? & _)]; [done|discriminate].
Qed.

Lemma collect_ready_loop (nodes : gset string) (eps : list Endpoint) (name : string) :
  name ∈ foldl collect_ready nodes eps
  ↔ name ∈ nodes
    ∨ ∃ ep, ep ∈ eps ∧ ep_NodeName ep = Some name ∧ ep_Ready ep = Some true.
Proof.
  revert nodes. induction eps as [|ep eps IH]; intros nodes; simpl.
  - split; [tauto|]. intros [?|(ep & Hin & _)]; [done|]. by apply not_elem_of_nil in Hin.
  - rewrite IH, collect_ready_elem. split.
    + intros [[?|?]|(ep' & ? & ?)]; [tauto| |].
      * right. exists ep. split; [apply list_elem_of_here|done].
      * right. exists ep'. split; [by apply list_elem_of_further|done].
    + intros [?|(ep' & [->|?]%elem_of_cons & ?)]; [tauto|tauto|].
      right. by exists ep'.
Qed.

Lemma ready_nodes_of_slice (sl : EndpointSlice) (name : string) :
  name ∈ foldl collect_ready ∅ (eps_Endpoints sl) ↔ contributes_ready sl name.
Proof.
  rewrite collect_ready_loop. unfold contributes_ready.
  split; [|tauto]. intros [Hempty|?]; [|done]. by apply not_elem_of_empty in Hempty.
Qed.

(** The comparison of the two sets: sizes first, then one inclusion. *)
Lemma sets_differ_test (oldNodes newNodes : gset string) :
  (if bool_decide (size oldNodes ≠ size newNodes) then true
   else if existsb (λ nodeName, negb (bool_decide (nodeName ∈ newNodes))) (elements oldNodes)
   then true else false) = true
  ↔ oldNodes ≠ newNodes.
Proof.
  case_bool_decide as Hsize.
  - split; [|done]. intros _ ->. by apply Hsize.
  - destruct (existsb _ _) eqn:Hex.
    + split; [|done]. intros _ Heq.
      apply existsb_exists in Hex as (x & Hx & Hnot).
      apply negb_true_iff, bool_decide_eq_false in Hnot.
      apply Hnot. rewrite <- Heq. apply elem_of_elements. by apply list_elem_of_In.
    + split; [discriminate|]. intros Hne. exfalso. apply Hne.
      apply set_subseteq_size_eq; [|lia].
      intros x Hx. destruct (decide (x ∈ newNodes)) as [|Hnot]; [done|].
      assert (existsb (λ nodeName, negb (bool_decide (nodeName ∈ newNodes)))
                      (elements oldNodes) = true) as Htrue; [|congruence].
      apply existsb_exists. exists x. split.
      * apply list_elem_of_In. by apply elem_of_elements.
      * by rewrite bool_decide_eq_false_2.
Qed.

Lemma hasNodeAssignmentChanged_spec (oldEpSlice newEpSlice : EndpointSlice) :
  hasNodeAssignmentChanged oldEpSlice newEpSlice = true
  ↔ ¬ ∀ name, contributes_ready oldEpSlice name ↔ contributes_ready newEpSlice name.
Proof.
  unfold hasNodeAssignmentChanged. cbv zeta. rewrite sets_differ_test. split.
  - intros Hne Hsame. apply Hne. apply set_eq. intros name.
    by rewrite !ready_nodes_of_slice.
  - intros Hdiff Heq. apply Hdiff. intros name.
    by rewrite <- !ready_nodes_of_slice, Heq.
Qed.

(** C9. Watcher enqueue condition: on an update of an endpoint slice
    whose owning Service is tracked as local-only, the key of the Service
    is enqueued if and only if the node names that contribute a ready
    endpoint to the old slice are not those of the new slice; so a change
    that leaves these node names as they were enqueues nothing, and an
    update for a Service that is not tracked enqueues nothing. *)
Theorem watcher_enqueue_condition (w : EndpointSliceWatcher)
    (oldEpSlice newEpSlice : EndpointSlice) (serviceName : string) :
  eps_Labels newEpSlice !! LabelServiceName = Some serviceName →
  let serviceKey := eps_Namespace newEpSlice +:+ "/" +:+ serviceName in
  let enqueued := handleEndpointSliceUpdate w (Some oldEpSlice) (Some newEpSlice) in
  (serviceKey ∈ localTrafficServices w →
     (enqueued = [serviceKey]
      ↔ ¬ ∀ name, contributes_ready oldEpSlice name ↔ contributes_ready newEpSlice name)
     ∧ ((∀ name, contributes_ready oldEpSlice name ↔ contributes_ready newEpSlice name) →
        enqueued = []))
  ∧ (serviceKey ∉ localTrafficServices w → enqueued = []).
Proof.
  intros Hlabel serviceKey enqueued.
  assert (getServiceKeyFromEndpointSlice newEpSlice = serviceKey) as Hkey.
  { unfold getServiceKeyFromEndpointSlice. by rewrite Hlabel. }
  assert (serviceKey ≠ "") as Hnonempty.
  { unfold serviceKey. destruct (eps_Namespace newEpSlice); discriminate. }
  subst enqueued. unfold handleEndpointSliceUpdate, hasLocalTrafficPolicy.
  rewrite Hkey, bool_decide_eq_false_2 by done. split.
  - intros Htracked. rewrite bool_decide_eq_true_2 by done. simpl.
    rewrite <- hasNodeAssignmentChanged_spec.
    destruct (hasNodeAssignmentChanged oldEpSlice newEpSlice) eqn:Hchanged.
    + split; [done|]. intros Hsame. exfalso.
      by apply hasNodeAssignmentChanged_spec in Hchanged.
    + split; [split; discriminate|done].
  - intros Huntracked. by rewrite bool_decide_eq_false_2.
Qed.

Lemma watcher_enqueue_condition_witness :
  handleEndpointSliceUpdate Scenario.watcher
    (Some (Scenario.slice [Scenario.endpoint "node-1" (Some true)]))
    (Some (Scenario.slice [Scenario.endpoint "node-1" (Some true);
                           Scenario.endpoint "node-1" (Some false)]))
  = [].
Proof.
  apply (proj1 (watcher_enqueue_condition Scenario.watcher
                  (Scenario.slice [Scenario.endpoint "node-1" (Some true)])
                  (Scenario.slice [Scenario.endpoint "node-1" (Some true);
                                   Scenario.endpoint "node-1" (Some false)])
                  "test-service" eq_refl)).
  - reflexivity.
  - intros name. unfold contributes_ready. simpl. split.
    + intros (ep & Hep & Hname & Hready).
      exists ep. split; [|done]. apply elem_of_cons. left.
      by apply list_elem_of_singleton in Hep.
    + intros (ep & Hep & Hname & Hready).
      exists ep. split; [|done]. apply list_elem_of_singleton.
      apply elem_of_cons in Hep as [->|Hep]; [done|].
      apply list_elem_of_singleton in Hep. subst ep. discriminate Hready.
Defined.

(** ** Managed security group rules *)

Section SecurityGroupRuleProperties.
Context `{GoText}.

Lemma ingress_sources_loop (priority : Z) (l : VpcLoadbalancerListener)
    (rules : list SecurityGroupRule) (sources : list string) :
  foldl (λ rules src, rules ++ [ingress_rule priority l src]) rules sources
  = rules ++ (ingress_rule priority l <$> sources).
Proof.
  revert rules. induction sources as [|src sources IH]; intros rules; simpl.
  - by rewrite app_nil_r.
  - by rewrite IH, <- app_assoc.
Qed.

(** One rule per listener and allowed source, in emission order; the
    priority of every rule is the value [priority] had before the loops. *)
Lemma buildIngressRulesFromListeners_spec (listeners : list VpcLoadbalancerListener) :
  buildIngressRulesFromListeners listeners
  = listeners ≫= (λ l, ingress_rule 100 l <$> l_AllowedSources l).
Proof.
  unfold buildIngressRulesFromListeners. change (Go.int32 100) with 100.
  assert (∀ rules,
    foldl (λ rules l, foldl (λ rules src, rules ++ [ingress_rule 100 l src])
                            rules (l_AllowedSources l)) rules listeners
    = rules ++ (listeners ≫= (λ l, ingress_rule 100 l <$> l_AllowedSources l))) as Hloop.
  { induction listeners as [|l listeners IH]; intros rules; simpl.
    - by rewrite app_nil_r.
    - by rewrite IH, ingress_sources_loop, <- app_assoc. }
  apply Hloop.
Qed.

Lemma ingress_rule_priority_100 (listeners : list VpcLoadbalancerListener) (r : SecurityGroupRule) :
  r ∈ buildIngressRulesFromListeners listeners → rule_Priority r = 100.
Proof.
  rewrite buildIngressRulesFromListeners_spec.
  intros (l & (src & -> & _)%list_elem_of_fmap & _)%list_elem_of_bind. reflexivity.
Qed.

End SecurityGroupRuleProperties.

(** C7 at a listener on TCP/80 that allows 10.0.0.0/8 and ::/0: the two
    ingress rules are the IPv4 and the IPv6 rule for port 80, in that
    order, and both have priority 100; the priorities are not assigned in
    emission order. *)
Theorem ingress_rules_share_priority :
  let rules := @buildIngressRulesFromListeners AsciiText [Scenario.listener_two_sources] in
  (λ r, (rule_IPVersion r, rule_Protocol r, rule_RemoteAddress r,
         rule_PortRangeMin r, rule_PortRangeMax r, rule_Priority r)) <$> rules
  = [ (IPv4, ProtocolTCP, Some "10.0.0.0/8", 80, 80, 100);
      (IPv6, ProtocolTCP, Some "::/0", 80, 80, 100) ]
  ∧ ¬ priorities_in_emission_order rules.
Proof.
  split; [reflexivity|].
  intros Horder.
  specialize (Horder 1%nat (@ingress_rule AsciiText 100 Scenario.listener_two_sources "::/0")
                     eq_refl).
  discriminate Horder.
Qed.

(** ** Symbolic execution of reconciles *)

Section WeakestPre.
Context {St : Type}.
Implicit Types w : World St.

Lemma wp_ret {A} (a : A) (Q : error + A → World St → Prop) w :
  Q (inr a) w → wp (mret a) Q w.
Proof. done. Qed.

Lemma wp_fail {A} (e : error) (Q : error + A → World St → Prop) w :
  Q (inl e) w → wp (fail e) Q w.
Proof. done. Qed.

Lemma wp_bind {A B} (m : M St A) (k : A → M St B) (Q : error + B → World St → Prop) w :
  wp m (λ r w', match r with inl e => Q (inl e) w' | inr a => wp (k a) Q w' end) w →
  wp (m ≫= k) Q w.
Proof. unfold wp, mbind, M_bind. by destruct (m w) as [[e|a] w']. Qed.

Lemma wp_wrap {A} (msg : string) (m : M St A) (Q : error + A → World St → Prop) w :
  wp m (λ r w', Q (match r with inl e => inl (Wrap msg e) | inr a => inr a end) w') w →
  wp (wrap msg m) Q w.
Proof. unfold wp, wrap. by destruct (m w) as [[e|a] w']. Qed.

Lemma wp_attempt {A} (m : M St A) (Q : error + (error + A) → World St → Prop) w :
  wp m (λ r w', Q (inr r) w') w → wp (attempt m) Q w.
Proof. unfold wp, attempt. by destruct (m w) as [r w']. Qed.

Lemma wp_perform {R} (op : St → R * St) (ev : R → Event) (Q : error + R → World St → Prop) w :
  (∀ r s', Q (inr r) (mkWorld s' (trace w ++ [ev r]))) → wp (perform op ev) Q w.
Proof. intros HQ. unfold wp, perform. destruct (op (cloud w)) as [r s']. apply HQ. Qed.

Lemma wp_mono {A} (m : M St A) (Q Q' : error + A → World St → Prop) w :
  wp m Q w → (∀ r w', Q r w' → Q' r w') → wp m Q' w.
Proof. unfold wp. auto. Qed.

Lemma wp_foldM {A B} (I : B → World St → Prop) (body : B → A → M St B) (xs : list A)
    (acc : B) (Q : error + B → World St → Prop) w :
  I acc w →
  (∀ acc x w, x ∈ xs → I acc w →
     wp (body acc x) (λ r w', match r with inl e => Q (inl e) w' | inr acc' => I acc' w' end) w) →
  (∀ acc w, I acc w → Q (inr acc) w) →
  wp (foldM body acc xs) Q w.
Proof.
  revert acc w. induction xs as [|x xs IH]; intros acc w Hacc Hbody Hend.
  - simpl. apply wp_ret. by apply Hend.
  - simpl. apply wp_bind. eapply wp_mono.
    + apply Hbody; [apply list_elem_of_here|done].
    + intros [e|acc'] w' Hr; [done|]. apply IH; [done| |done].
      intros acc'' y w'' Hy. apply Hbody. by apply list_elem_of_further.
Qed.

Lemma wp_forM {A} (I : World St → Prop) (body : A → M St unit) (xs : list A)
    (Q : error + unit → World St → Prop) w :
  I w →
  (∀ x w, x ∈ xs → I w →
     wp (body x) (λ r w', match r with inl e => Q (inl e) w' | inr _ => I w' end) w) →
  (∀ w, I w → Q (inr ()) w) →
  wp (forM xs body) Q w.
Proof.
  intros HI Hbody Hend. unfold forM.
  apply (wp_foldM (λ _, I)); [done| |].
  - intros _ x w' Hx HI'. eapply wp_mono; [by apply Hbody|].
    by intros [e|[]] w''.
  - intros [] w' HI'. by apply Hend.
Qed.

Lemma wp_poll {A} (I : World St → Prop) (extra : nat) (condition : M St (option A))
    (Q : error + A → World St → Prop) w :
  I w →
  (∀ w, I w →
     wp condition (λ r w', match r with
                           | inl e => Q (inl e) w'
                           | inr (Some a) => Q (inr a) w'
                           | inr None => I w' ∧ Q (inl (Err "context deadline exceeded")) w'
                           end) w) →
  wp (PollUntilContextTimeout extra condition) Q w.
Proof.
  intros HI Hcond. revert w HI. induction extra as [|k IH]; intros w HI.
  - simpl. apply wp_bind. eapply wp_mono; [by apply Hcond|].
    intros [e|[a|]] w' Hr; [done|done|]. by destruct Hr.
  - simpl. apply wp_bind. eapply wp_mono; [by apply Hcond|].
    intros [e|[a|]] w' Hr; [done|done|]. destruct Hr. by apply IH.
Qed.

End WeakestPre.

(** One step of symbolic execution. *)
Ltac wp_step :=
  lazymatch goal with
  | |- wp (mret _) _ _ => apply wp_ret
  | |- wp (fail _) _ _ => apply wp_fail
  | |- wp (mbind _ _) _ _ => apply wp_bind
  | |- wp (wrap _ _) _ _ => apply wp_wrap
  | |- wp (attempt _) _ _ => apply wp_attempt
  | |- wp (perform _ _) _ _ => apply wp_perform; intros ? ?; cbv beta iota
  | |- wp (match ?x with _ => _ end) _ _ => destruct x eqn:?; cbv beta iota
  | |- wp (if ?b then _ else _) _ _ => destruct b eqn:?; cbv beta iota
  end.

(** ** Traces *)

Lemma trace_ok_nil (J : list Event → Event → Prop) : trace_ok J [].
Proof. intros pre ev post Heq. by destruct pre. Qed.

Lemma trace_ok_snoc (J : list Event → Event → Prop) (tr : list Event) (e : Event) :
  trace_ok J tr → J tr e → trace_ok J (tr ++ [e]).
Proof.
  intros Htr He pre ev post Heq.
  apply app_eq_inv in Heq as [(k & -> & Hk)|(k & -> & Hk)].
  - destruct k as [|x k].
    + simpl in Hk. injection Hk as -> ->. by rewrite app_nil_r in He.
    + simpl in Hk. injection Hk as -> Hpost.
      by apply (Htr pre x k).
  - destruct k as [|x k].
    + simpl in Hk. injection Hk as -> _. by rewrite app_nil_r.
    + simpl in Hk. injection Hk as _ Hk. by destruct k.
Qed.

Lemma trace_ok_impl (J J' : list Event → Event → Prop) (tr : list Event) :
  (∀ pre ev, J pre ev → J' pre ev) → trace_ok J tr → trace_ok J' tr.
Proof. intros Himpl Htr pre ev post Heq. apply Himpl. by apply (Htr pre ev post). Qed.

Lemma listed_target_group_mono (tr tr' : list Event) (tg : VpcLoadbalancerTargetGroup) :
  tr `prefix_of` tr' → listed_target_group tr tg → listed_target_group tr' tg.
Proof.
  intros [k ->] (vpc & labels & tgs & Hin & Htg).
  exists vpc, labels, tgs. split; [|done]. apply elem_of_app. by left.
Qed.

Lemma returned_loadbalancer_mono (tr tr' : list Event) (b : VpcLoadbalancer) :
  tr `prefix_of` tr' → returned_loadbalancer tr b → returned_loadbalancer tr' b.
Proof.
  intros [k ->] [(vpc & lbs & Hin & Hb)|(req & Hin)].
  - left. exists vpc, lbs. split; [|done]. apply elem_of_app. by left.
  - right. exists req. apply elem_of_app. by left.
Qed.

Lemma no_loadbalancer_found_mono lb service (tr tr' : list Event) :
  tr `prefix_of` tr' → no_loadbalancer_found lb service tr → no_loadbalancer_found lb service tr'.
Proof.
  intros [k ->] (vpc & lbs & Hin & Hlbs).
  exists vpc, lbs. split; [|done]. apply elem_of_app. by left.
Qed.


Lemma returned_target_group_snoc (tr : list Event) (e : Event) (t : VpcLoadbalancerTargetGroup) :
  returns_no_target_group e →
  returned_target_group (tr ++ [e]) t → returned_target_group tr t.
Proof.
  intros He [(req & Hin)|(req & Hin)];
    apply elem_of_app in Hin as [Hin|Hin%list_elem_of_singleton].
  - left. by exists req.
  - by subst e.
  - right. by exists req.
  - by subst e.
Qed.

Lemma returned_target_group_snoc_inv (tr : list Event) (e : Event)
    (t : VpcLoadbalancerTargetGroup) :
  returned_target_group (tr ++ [e]) t →
  returned_target_group tr t
  ∨ (∃ req, e = EvCreateTargetGroup req (inr (Some t)))
  ∨ (∃ req, e = EvUpdateTargetGroup req (inr (Some t))).
Proof.
  intros [(req & Hin)|(req & Hin)];
    apply elem_of_app in Hin as [Hin|Hin%list_elem_of_singleton].
  - left. left. by exists req.
  - right. left. by exists req.
  - left. right. by exists req.
  - right. right. by exists req.
Qed.

Section Steps.
Context {St : Type} (J : list Event → Event → Prop).
Implicit Types w : World St.

Lemma step_ok_refl tgs w : trace_ok J (trace w) → step_ok J tgs w w.
Proof. intros Hok. split; [done|]. split; [done|]. intros t Ht. by left. Qed.

Lemma step_ok_snoc tgs w0 w (s' : St) (e : Event) :
  step_ok J tgs w0 w → J (trace w) e → returns_no_target_group e →
  step_ok J tgs w0 (mkWorld s' (trace w ++ [e])).
Proof.
  intros (Hpre & Hok & Hret) He Hno. split; [|split]; simpl.
  - etrans; [done|]. by apply prefix_app_r.
  - by apply trace_ok_snoc.
  - intros t Ht. apply Hret. by apply returned_target_group_snoc in Ht.
Qed.

(** A call that returns the target group [t]. *)
Lemma step_ok_snoc_returning tgs w0 w (s' : St) (e : Event) (t : VpcLoadbalancerTargetGroup) :
  step_ok J tgs w0 w → J (trace w) e →
  (∀ t', returned_target_group (trace w ++ [e]) t' →
         returned_target_group (trace w) t' ∨ t' = t) →
  step_ok J (tgs ++ [t]) w0 (mkWorld s' (trace w ++ [e])).
Proof.
  intros (Hpre & Hok & Hret) He Ht. split; [|split]; simpl.
  - etrans; [done|]. by apply prefix_app_r.
  - by apply trace_ok_snoc.
  - intros t' Ht'. destruct (Ht t' Ht') as [Hold| ->].
    + destruct (Hret t' Hold) as [?|?]; [by left|right]. apply elem_of_app. by left.
    + right. apply elem_of_app. right. by apply list_elem_of_singleton.
Qed.

(** Running one call that returns no target group. *)
Lemma wp_perform_step {R} (op : St → R * St) (ev : R → Event)
    (Q : error + R → World St → Prop) tgs w0 w :
  step_ok J tgs w0 w →
  (∀ r, J (trace w) (ev r)) →
  (∀ r, returns_no_target_group (ev r)) →
  (∀ r w', step_ok J tgs w0 w' → trace w `prefix_of` trace w' → ev r ∈ trace w' →
           Q (inr r) w') →
  wp (perform op ev) Q w.
Proof.
  intros Hstep HJ Hno HQ. apply wp_perform. intros r s'. apply HQ.
  - by apply step_ok_snoc.
  - by apply prefix_app_r.
  - simpl. apply elem_of_app. right. by apply list_elem_of_singleton.
Qed.

(** Running a call that may return a target group. *)
Lemma wp_perform_target_group (op : St → (error + option VpcLoadbalancerTargetGroup) * St)
    (ev : error + option VpcLoadbalancerTargetGroup → Event)
    (Q : error + (error + option VpcLoadbalancerTargetGroup) → World St → Prop) tgs w0 w :
  step_ok J tgs w0 w →
  (∀ r, J (trace w) (ev r)) →
  (∀ r tr t, returned_target_group (tr ++ [ev r]) t →
             returned_target_group tr t ∨ r = inr (Some t)) →
  (∀ r w', match r with
           | inr (Some t) => step_ok J (tgs ++ [t]) w0 w'
           | _ => step_ok J tgs w0 w'
           end →
           trace w `prefix_of` trace w' → ev r ∈ trace w' → Q (inr r) w') →
  wp (perform op ev) Q w.
Proof.
  intros Hstep HJ Hret HQ. apply wp_perform. intros r s'. apply HQ.
  - destruct r as [err|[t|]].
    + destruct Hstep as (Hpre & Hok & Hold). split; [|split]; simpl.
      * etrans; [done|]. by apply prefix_app_r.
      * by apply trace_ok_snoc.
      * intros t Ht. destruct (Hret _ _ _ Ht) as [?|?]; [by apply Hold|done].
    + apply step_ok_snoc_returning; [done|done|].
      intros t' Ht'. destruct (Hret _ _ _ Ht') as [?|[= ->]]; [by left|by right].
    + destruct Hstep as (Hpre & Hok & Hold). split; [|split]; simpl.
      * etrans; [done|]. by apply prefix_app_r.
      * by apply trace_ok_snoc.
      * intros t Ht. destruct (Hret _ _ _ Ht) as [?|?]; [by apply Hold|done].
  - by apply prefix_app_r.
  - simpl. apply elem_of_app. right. by apply list_elem_of_singleton.
Qed.

Lemma step_ok_trace tgs w0 w : step_ok J tgs w0 w → trace_ok J (trace w).
Proof. by intros (_ & ? & _). Qed.

End Steps.

(** ** The engine, call by call

    Each lemma runs one function of the engine from a world [w] reached
    from [w0] by justified calls, and shows that the world it ends in is
    reached from [w0] by justified calls too. *)

Lemma targetGroupsMap_lookup_None (l : list VpcLoadbalancerTargetGroup) (k : string) :
  targetGroupsMap l !! k = None ↔ ∀ t, t ∈ l → targetGroupKey t ≠ k.
Proof.
  unfold targetGroupsMap.
  assert (∀ m : gmap string VpcLoadbalancerTargetGroup,
    foldl (λ m targetGroup, <[targetGroupKey targetGroup := targetGroup]> m) m l !! k = None
    ↔ m !! k = None ∧ ∀ t, t ∈ l → targetGroupKey t ≠ k) as Hloop.
  { induction l as [|x l IH]; intros m; simpl.
    - split; [|tauto]. intros Hm. split; [done|]. intros t Ht. by apply not_elem_of_nil in Ht.
    - rewrite IH, lookup_insert_None. split.
      + intros [[Hm Hx] Hl]. split; [done|].
        intros t [->|Ht]%elem_of_cons; [done|by apply Hl].
      + intros [Hm Hl]. split; [split; [done|]|].
        * apply Hl, list_elem_of_here.
        * intros t Ht. by apply Hl, list_elem_of_further. }
  rewrite Hloop, lookup_empty. tauto.
Qed.

Lemma listenersPortMap_lookup_None (l : list VpcLoadbalancerListener) (port : Z) :
  listenersPortMap l !! port = None ↔ ∀ x, x ∈ l → l_Port x ≠ port.
Proof.
  unfold listenersPortMap.
  assert (∀ m : gmap Z VpcLoadbalancerListener,
    foldl (λ m listener, <[l_Port listener := listener]> m) m l !! port = None
    ↔ m !! port = None ∧ ∀ x, x ∈ l → l_Port x ≠ port) as Hloop.
  { induction l as [|x l IH]; intros m; simpl.
    - split; [|tauto]. intros Hm. split; [done|]. intros t Ht. by apply not_elem_of_nil in Ht.
    - rewrite IH, lookup_insert_None. split.
      + intros [[Hm Hx] Hl]. split; [done|].
        intros t [->|Ht]%elem_of_cons; [done|by apply Hl].
      + intros [Hm Hl]. split; [split; [done|]|].
        * apply Hl, list_elem_of_here.
        * intros t Ht. by apply Hl, list_elem_of_further. }
  rewrite Hloop, lookup_empty. tauto.
Qed.

(** Chains the prefix facts of the context. *)
Ltac solve_prefix :=
  solve [ repeat first [ assumption | reflexivity | (etrans; [eassumption|]) ] ].

(** Closes a goal made of step, prefix and routine facts. *)
Ltac solve_step :=
  repeat lazymatch goal with
         | |- step_ok _ _ _ _ => eassumption
         | |- _ `prefix_of` _ => solve_prefix
         | |- _ ∧ _ => split
         | |- _ => done
         end.

Section EngineSteps.
Context `{GoText} {St : Type} `{IaasClient St}.
Context (J : list Event → Event → Prop) (Hreads : accepts_reads J).
Context (w0 : World St) (Hw0 : ∀ t, ¬ returned_target_group (trace w0) t).
Implicit Types w : World St.

Lemma fetchVpcLoadbalancerFromCloud_step lb service tgs w :
  step_ok J tgs w0 w →
  wp (fetchVpcLoadbalancerFromCloud lb service)
     (λ r w', step_ok J tgs w0 w' ∧ trace w `prefix_of` trace w'
              ∧ match r with
                | inr (Some b) => returned_loadbalancer (trace w') b
                | inr None => no_loadbalancer_found lb service (trace w')
                | inl _ => True
                end) w.
Proof.
  intros Hstep. unfold fetchVpcLoadbalancerFromCloud.
  wp_step. apply (wp_perform_step J _ _ _ tgs w0); [done|by intros; apply Hreads|done|].
  intros [err|lbs] w1 Hstep1 Hpre1 Hin; cbv beta iota.
  { wp_step. done. }
  wp_step.
  { wp_step. do 2 (split; [done|]). exists (vpcIdentity lb), lbs. split; [done|].
    apply bool_decide_eq_true in Heqb. apply nil_length_inv in Heqb. subst lbs.
    intros b Hb. by apply not_elem_of_nil in Hb. }
  wp_step.
  { wp_step. do 2 (split; [done|]). left. exists (vpcIdentity lb), lbs. split; [done|].
    apply find_some in Heqo as [Hin' _]. by apply list_elem_of_In. }
  wp_step. do 2 (split; [done|]).
  match goal with
  | |- context [List.find ?f lbs] => destruct (List.find f lbs) as [b|] eqn:Hname
  end.
  - left. exists (vpcIdentity lb), lbs. split; [done|].
    apply find_some in Hname as [Hin' _]. by apply list_elem_of_In.
  - exists (vpcIdentity lb), lbs. split; [done|]. intros b Hb%list_elem_of_In. split.
    + by apply (find_none _ _ Heqo).
    + pose proof (find_none _ _ Hname b Hb) as Hne. simpl in Hne.
      by apply bool_decide_eq_false in Hne.
Qed.

Lemma verifySecurityGroupsExist_step lb securityGroups tgs w :
  step_ok J tgs w0 w →
  wp (verifySecurityGroupsExist lb securityGroups)
     (λ _ w', step_ok J tgs w0 w' ∧ trace w `prefix_of` trace w') w.
Proof.
  intros Hstep. unfold verifySecurityGroupsExist.
  wp_step; [by wp_step|].
  wp_step. apply (wp_perform_step J _ _ _ tgs w0); [done|by intros; apply Hreads|done|].
  intros [err|sgs] w1 Hstep1 Hpre1 Hin; cbv beta iota; [by wp_step|].
  apply (wp_forM (λ w', step_ok J tgs w0 w' ∧ trace w `prefix_of` trace w')); [done| |done].
  intros sg w2 _ Hstep2. wp_step; by wp_step.
Qed.

Lemma findManagedSecurityGroup_step lb service tgs w :
  step_ok J tgs w0 w →
  wp (findManagedSecurityGroup lb service)
     (λ r w', step_ok J tgs w0 w' ∧ trace w `prefix_of` trace w'
              ∧ (r = inr None →
                 ∃ vpc labels sgs, EvListSecurityGroups vpc (Some labels) (inr sgs) ∈ trace w'
                   ∧ ∀ sg, sg ∈ sgs → matchLabels labels (sg_Labels sg) = false)) w.
Proof.
  intros Hstep. unfold findManagedSecurityGroup. cbv zeta.
  wp_step. apply (wp_perform_step J _ _ _ tgs w0); [done|by intros; apply Hreads|done|].
  intros [err|sgs] w1 Hstep1 Hpre1 Hin; cbv beta iota; [by wp_step|].
  wp_step. do 2 (split; [done|]). intros [= Hnone].
  eexists _, _, sgs. split; [done|].
  intros sg Hsg%list_elem_of_In. by apply (find_none _ _ Hnone).
Qed.

Lemma cleanupUnusedTargetGroups_step (Hdel : accepts_unused_target_group_delete J)
    lb service desiredTargetGroups w :
  step_ok J desiredTargetGroups w0 w →
  wp (cleanupUnusedTargetGroups lb service desiredTargetGroups)
     (λ _ w', step_ok J desiredTargetGroups w0 w' ∧ trace w `prefix_of` trace w') w.
Proof.
  intros Hstep. unfold cleanupUnusedTargetGroups. cbv zeta.
  wp_step. apply (wp_perform_step J _ _ _ desiredTargetGroups w0);
    [done|by intros; apply Hreads|done|].
  intros [err|existing] w1 Hstep1 Hpre1 Hin; cbv beta iota; [by wp_step|].
  apply (wp_forM (λ w', step_ok J desiredTargetGroups w0 w' ∧ trace w1 `prefix_of` trace w')).
  - done.
  - intros tg w2 Htg [Hstep2 Hpre2]. unfold cleanup_target_group.
    wp_step; [by wp_step|].
    wp_step; [by wp_step|].
    wp_step.
    apply (wp_perform_step J _ _ _ desiredTargetGroups w0); [done| |done|].
    + intros r. apply (Hdel _ _ _ tg).
      * apply (listed_target_group_mono (trace w1)); [done|]. by eexists _, _, existing.
      * done.
      * apply bool_decide_eq_false in Heqb. destruct (tg_LoadbalancerListeners tg); [done|].
        simpl in Heqb. lia.
      * intros t Ht.
        destruct Hstep2 as (_ & _ & Hret). destruct (Hret t Ht) as [Hold|Hdesired].
        -- by apply Hw0 in Hold.
        -- by apply (proj1 (targetGroupsMap_lookup_None _ _) Heqo).
    + intros r w3 Hstep3 Hpre3 Hin3. cbv beta iota.
      wp_step; wp_step; solve_step.
  - intros w2 [Hstep2 Hpre2]. solve_step.
Qed.

End EngineSteps.

Lemma desired_listener_ports `{GoText} lb service :
  l_Port <$> desiredVpcLoadbalancerListener lb service = sp_Port <$> svc_Ports service.
Proof.
  unfold desiredVpcLoadbalancerListener.
  destruct (getIntAnnotation service LoadbalancerAnnotationIdleConnectionTimeout _) as [timeout ?].
  destruct (getIntAnnotation service LoadbalancerAnnotationMaxConnections _) as [maxconn ?].
  rewrite <- list_fmap_compose. by apply list_fmap_ext.
Qed.

Lemma reconcile_accepts_reads lb service : accepts_reads (reconcile_justified lb service).
Proof. intros pre ev Hread. by destruct ev. Qed.

Lemma reconcile_accepts_unused_target_group_delete lb service :
  accepts_unused_target_group_delete (reconcile_justified lb service).
Proof.
  intros pre identity resp tg Hlisted Hid Hnone Hkeys.
  split; [|done]. by exists tg.
Qed.

Section ReconcileSteps.
Context `{GoText} {St : Type} `{IaasClient St}.
Context (lb : loadbalancer) (service : Service).
Context (w0 : World St) (Hw0 : ∀ t, ¬ returned_target_group (trace w0) t).
Implicit Types w : World St.

Local Abbreviation J := (reconcile_justified lb service).

Lemma upgradeTargetGroupAttachments_step targetGroup nodes tgs w :
  step_ok J tgs w0 w →
  wp (upgradeTargetGroupAttachments lb targetGroup nodes)
     (λ _ w', step_ok J tgs w0 w' ∧ trace w `prefix_of` trace w') w.
Proof.
  intros Hstep. unfold upgradeTargetGroupAttachments. cbv zeta.
  wp_step. apply (wp_perform_step J _ _ _ tgs w0); [done|done|done|].
  intros r w1 Hstep1 Hpre1 Hin1. cbv beta iota.
  wp_step; wp_step; solve_step.
Qed.

Lemma create_missing_target_group_step existing nodes tgs targetGroup vpc labels w :
  step_ok J tgs w0 w →
  EvListTargetGroups vpc labels (inr existing) ∈ trace w →
  wp (create_missing_target_group lb (targetGroupsMap existing) nodes tgs targetGroup)
     (λ r w', trace w `prefix_of` trace w'
              ∧ match r with
                | inr tgs' => step_ok J tgs' w0 w'
                | inl _ => ∃ tgs', step_ok J tgs' w0 w'
                end) w.
Proof.
  intros Hstep Hlisted. unfold create_missing_target_group.
  wp_step; [wp_step; solve_step|].
  cbv zeta. wp_step.
  apply (wp_perform_target_group J _ _ _ tgs w0); [done| | |].
  - intros r. split; [|done]. simpl.
    exists vpc, labels, existing. split; [done|].
    by apply targetGroupsMap_lookup_None.
  - intros r tr t [Hold|[(req & [= _ ->])|(req & [=])]]%returned_target_group_snoc_inv;
      [by left|by right].
  - intros [err|[created|]] w1 Hstep1 Hpre1 Hin1; cbv beta iota.
    + wp_step. split; [done|]. by exists tgs.
    + wp_step. wp_step. eapply wp_mono.
      { by apply (upgradeTargetGroupAttachments_step created nodes (tgs ++ [created])). }
      intros [err|[]] w2 [Hstep2 Hpre2]; cbv beta iota.
      * split; [solve_prefix|]. by exists (tgs ++ [created]).
      * wp_step. split; [solve_prefix|done].
    + wp_step. split; [done|]. by exists tgs.
Qed.

Lemma update_existing_target_group_step desiredMap nodes tgs targetGroup w :
  step_ok J tgs w0 w →
  wp (update_existing_target_group lb desiredMap nodes tgs targetGroup)
     (λ r w', trace w `prefix_of` trace w'
              ∧ match r with
                | inr tgs' => step_ok J tgs' w0 w'
                | inl _ => ∃ tgs', step_ok J tgs' w0 w'
                end) w.
Proof.
  intros Hstep. unfold update_existing_target_group.
  wp_step; [|wp_step; solve_step].
  wp_step; [wp_step; solve_step|].
  cbv zeta. wp_step.
  apply (wp_perform_target_group J _ _ _ tgs w0); [done|done| |].
  - intros r tr t [Hold|[(req & [=])|(req & [= _ ->])]]%returned_target_group_snoc_inv;
      [by left|by right].
  - intros [err|[updated|]] w1 Hstep1 Hpre1 Hin1; cbv beta iota.
    + wp_step. split; [done|]. by exists tgs.
    + wp_step. wp_step. eapply wp_mono.
      { by apply (upgradeTargetGroupAttachments_step updated nodes (tgs ++ [updated])). }
      intros [err|[]] w2 [Hstep2 Hpre2]; cbv beta iota.
      * split; [solve_prefix|]. by exists (tgs ++ [updated]).
      * wp_step. split; [solve_prefix|done].
    + wp_step. split; [done|]. by exists tgs.
Qed.

Lemma createOrUpdateTargetGroups_step desiredTargetGroups nodes w :
  step_ok J [] w0 w →
  wp (createOrUpdateTargetGroups lb service desiredTargetGroups nodes)
     (λ r w', trace w `prefix_of` trace w'
              ∧ match r with
                | inr tgs => step_ok J tgs w0 w'
                | inl _ => ∃ tgs', step_ok J tgs' w0 w'
                end) w.
Proof.
  intros Hstep. unfold createOrUpdateTargetGroups. cbv zeta.
  wp_step. apply (wp_perform_step J _ _ _ [] w0); [done|done|done|].
  intros [err|existing] w1 Hstep1 Hpre1 Hin1; cbv beta iota.
  { wp_step. split; [done|]. by exists []. }
  wp_step.
  apply (wp_foldM (λ tgs w', step_ok J tgs w0 w' ∧ trace w1 `prefix_of` trace w')).
  - done.
  - intros tgs targetGroup w2 _ [Hstep2 Hpre2]. eapply wp_mono.
    { apply (create_missing_target_group_step existing nodes tgs targetGroup
               (Some (vpcIdentity lb)) (GetLabelsForVpcLoadbalancer lb service)); [done|].
      destruct Hpre2 as [k ->]. apply elem_of_app. by left. }
    intros [err|tgs'] w3 [Hpre3 Hstep3]; cbv beta iota; solve_step.
  - intros tgs w2 [Hstep2 Hpre2].
    apply (wp_foldM (λ tgs w', step_ok J tgs w0 w' ∧ trace w2 `prefix_of` trace w')).
    + done.
    + intros tgs' targetGroup w3 _ [Hstep3 Hpre3]. eapply wp_mono.
      { by apply (update_existing_target_group_step _ nodes tgs' targetGroup). }
      intros [err|tgs''] w4 [Hpre4 Hstep4]; cbv beta iota; solve_step.
    + intros tgs' w3 [Hstep3 Hpre3]. solve_step.
Qed.

(** *** Listeners *)

Lemma delete_or_update_listener_step vpcLoadbalancer existing targetGroups listener tgs w :
  step_ok J tgs w0 w →
  EvListListeners (lb_Identity vpcLoadbalancer) (inr existing) ∈ trace w →
  listener ∈ existing →
  wp (delete_or_update_listener lb service vpcLoadbalancer
        (listenersPortMap (desiredVpcLoadbalancerListener lb service)) targetGroups listener)
     (λ _ w', step_ok J tgs w0 w' ∧ trace w `prefix_of` trace w') w.
Proof.
  intros Hstep Hlisted Hlistener. unfold delete_or_update_listener.
  wp_step.
  - wp_step; [wp_step; solve_step|]. cbv zeta. wp_step.
    apply (wp_perform_step J _ _ _ tgs w0); [done|done|done|].
    intros r w1 Hstep1 Hpre1 Hin1. cbv beta iota. wp_step; wp_step; solve_step.
  - wp_step. apply (wp_perform_step J _ _ _ tgs w0); [done| |done|].
    + intros r. split; [|done]. simpl.
      exists existing, listener. do 3 (split; [done|]).
      rewrite <- (desired_listener_ports lb service).
      intros (l & Hport & Hl)%list_elem_of_fmap.
      by apply (proj1 (listenersPortMap_lookup_None _ _) Heqo l).
    + intros r w1 Hstep1 Hpre1 Hin1. cbv beta iota. wp_step; wp_step; solve_step.
Qed.

Lemma create_missing_listener_step vpcLoadbalancer existing targetGroups listener tgs w :
  step_ok J tgs w0 w →
  EvListListeners (lb_Identity vpcLoadbalancer) (inr existing) ∈ trace w →
  wp (create_missing_listener lb service vpcLoadbalancer (listenersPortMap existing)
        targetGroups listener)
     (λ _ w', step_ok J tgs w0 w' ∧ trace w `prefix_of` trace w') w.
Proof.
  intros Hstep Hlisted. unfold create_missing_listener.
  wp_step; [wp_step; solve_step|].
  wp_step; [wp_step; solve_step|]. cbv zeta. wp_step.
  apply (wp_perform_step J _ _ _ tgs w0); [done| |done|].
  - intros r. split; [|done]. simpl.
    exists existing. split; [done|].
    by apply listenersPortMap_lookup_None.
  - intros r w1 Hstep1 Hpre1 Hin1. cbv beta iota. wp_step; wp_step; solve_step.
Qed.

Lemma updateVpcLoadbalancerListener_step vpcLoadbalancer targetGroups tgs w :
  step_ok J tgs w0 w →
  wp (updateVpcLoadbalancerListener lb service vpcLoadbalancer
        (desiredVpcLoadbalancerListener lb service) targetGroups)
     (λ _ w', step_ok J tgs w0 w' ∧ trace w `prefix_of` trace w') w.
Proof.
  intros Hstep. unfold updateVpcLoadbalancerListener.
  wp_step. apply (wp_perform_step J _ _ _ tgs w0); [done|done|done|].
  intros [err|existing] w1 Hstep1 Hpre1 Hin1; cbv beta iota; [wp_step; solve_step|].
  cbv zeta. wp_step.
  assert (∀ w', trace w1 `prefix_of` trace w' →
                EvListListeners (lb_Identity vpcLoadbalancer) (inr existing) ∈ trace w')
    as Hkeep.
  { intros w' [k ->]. apply elem_of_app. by left. }
  eapply (wp_mono _ (λ r w', step_ok J tgs w0 w' ∧ trace w1 `prefix_of` trace w')).
  - wp_step; [|wp_step; solve_step].
    apply (wp_forM (λ w', step_ok J tgs w0 w' ∧ trace w1 `prefix_of` trace w')).
    + done.
    + intros listener w2 Hlistener [Hstep2 Hpre2]. eapply wp_mono.
      { apply (delete_or_update_listener_step vpcLoadbalancer existing targetGroups listener tgs);
          [done|by apply Hkeep|done]. }
      intros [err|[]] w3 [Hstep3 Hpre3]; cbv beta iota; solve_step.
    + done.
  - intros [err|[]] w2 [Hstep2 Hpre2]; cbv beta iota; [solve_step|].
    apply (wp_forM (λ w', step_ok J tgs w0 w' ∧ trace w2 `prefix_of` trace w')).
    + done.
    + intros listener w3 _ [Hstep3 Hpre3]. eapply wp_mono.
      { apply (create_missing_listener_step vpcLoadbalancer existing targetGroups listener tgs);
          [done|]. apply Hkeep. solve_prefix. }
      intros [err|[]] w4 [Hstep4 Hpre4]; cbv beta iota; solve_step.
    + intros w3 [Hstep3 Hpre3]. solve_step.
Qed.

(** *** Security group and load balancer *)

Lemma ensureManagedSecurityGroup_step desiredListeners tgs w :
  step_ok J tgs w0 w →
  wp (ensureManagedSecurityGroup lb service desiredListeners)
     (λ _ w', step_ok J tgs w0 w' ∧ trace w `prefix_of` trace w') w.
Proof.
  intros Hstep. unfold ensureManagedSecurityGroup.
  wp_step. wp_step. eapply wp_mono.
  { by apply (findManagedSecurityGroup_step J (reconcile_accepts_reads lb service) w0
                lb service tgs). }
  intros [err|[sg|]] w1 (Hstep1 & Hpre1 & Hfound); cbv beta iota zeta; [done| |].
  - wp_step. apply (wp_perform_step J _ _ _ tgs w0); [done|done|done|].
    intros r w2 Hstep2 Hpre2 Hin2. cbv beta iota. wp_step; wp_step; solve_step.
  - wp_step. apply (wp_perform_step J _ _ _ tgs w0); [done| |done|].
    + intros r. split; [|done]. simpl. by apply Hfound.
    + intros r w2 Hstep2 Hpre2 Hin2. cbv beta iota. wp_step; wp_step; solve_step.
Qed.

Lemma createVpcLoadbalancer_step lbName tgs w :
  step_ok J tgs w0 w →
  no_loadbalancer_found lb service (trace w) →
  wp (createVpcLoadbalancer lb lbName service)
     (λ r w', step_ok J tgs w0 w' ∧ trace w `prefix_of` trace w'
              ∧ ∀ b, r = inr b → returned_loadbalancer (trace w') b) w.
Proof.
  intros Hstep Hnone. unfold createVpcLoadbalancer.
  wp_step. apply (wp_perform_step J _ _ _ tgs w0); [done|done|done|].
  intros [err|vpc] w1 Hstep1 Hpre1 Hin1; cbv beta iota; [wp_step; solve_step|].
  wp_step; [wp_step; solve_step|]. cbv zeta.
  wp_step; [|wp_step; solve_step].
  wp_step. wp_step. eapply wp_mono.
  { by apply (verifySecurityGroupsExist_step J (reconcile_accepts_reads lb service) w0
                lb _ tgs). }
  intros [err|[]] w2 [Hstep2 Hpre2]; cbv beta iota; [solve_step|].
  wp_step.
  eapply (wp_mono _ (λ r w', step_ok J tgs w0 w' ∧ trace w2 `prefix_of` trace w')).
  { wp_step; [|wp_step; solve_step].
    wp_step. eapply wp_mono.
    { by apply (ensureManagedSecurityGroup_step _ tgs). }
    intros [err|sg] w3 [Hstep3 Hpre3]; cbv beta iota; [solve_step|].
    wp_step. solve_step. }
  intros [err|securityGroups] w3 [Hstep3 Hpre3]; cbv beta iota; [solve_step|].
  wp_step. apply (wp_perform_step J _ _ _ tgs w0); [done| |done|].
  - intros r. split; [|done]. simpl.
    apply (no_loadbalancer_found_mono lb service (trace w)); [solve_prefix|done].
  - intros [err|created] w4 Hstep4 Hpre4 Hin4; cbv beta iota; wp_step.
    + solve_step.
    + split; [done|]. split; [solve_prefix|].
      intros b [= <-]. right. by eexists.
Qed.

Lemma updateVpcLoadbalancer_step vpcLoadbalancer desiredListeners tgs w :
  step_ok J tgs w0 w →
  returned_loadbalancer (trace w) vpcLoadbalancer →
  wp (updateVpcLoadbalancer lb service vpcLoadbalancer desiredListeners)
     (λ _ w', step_ok J tgs w0 w' ∧ trace w `prefix_of` trace w') w.
Proof.
  intros Hstep Hreturned. unfold updateVpcLoadbalancer. cbv zeta.
  wp_step. wp_step. eapply wp_mono.
  { by apply (verifySecurityGroupsExist_step J (reconcile_accepts_reads lb service) w0
                lb _ tgs). }
  intros [err|[]] w1 [Hstep1 Hpre1]; cbv beta iota; [solve_step|].
  wp_step.
  eapply (wp_mono _ (λ r w', step_ok J tgs w0 w' ∧ trace w1 `prefix_of` trace w')).
  { wp_step; [|wp_step; solve_step].
    wp_step. wp_step. eapply wp_mono.
    { by apply (ensureManagedSecurityGroup_step _ tgs). }
    intros [err|sg] w2 [Hstep2 Hpre2]; cbv beta iota; [solve_step|].
    wp_step. solve_step. }
  intros [err|desiredSecurityGroups] w2 [Hstep2 Hpre2]; cbv beta iota; [solve_step|].
  wp_step; [|wp_step; solve_step].
  wp_step. apply (wp_perform_step J _ _ _ tgs w0); [done| |done|].
  - intros r. split; [done|]. split; [|done]. simpl.
    exists vpcLoadbalancer. split; [|done].
    apply (returned_loadbalancer_mono (trace w)); [solve_prefix|done].
  - intros r w3 Hstep3 Hpre3 Hin3. cbv beta iota. wp_step; wp_step; solve_step.
Qed.

(** *** The reconcile body and the operations *)

Lemma updateVpcLoadbalancerListenersAndTargetGroups_step nodes vpcLoadbalancer w :
  step_ok J [] w0 w →
  returned_loadbalancer (trace w) vpcLoadbalancer →
  wp (updateVpcLoadbalancerListenersAndTargetGroups lb service nodes (Some vpcLoadbalancer))
     (λ r w', trace w `prefix_of` trace w'
              ∧ (∃ tgs, step_ok J tgs w0 w')
              ∧ ∀ st, r = inr st → st = ingress_loop vpcLoadbalancer) w.
Proof.
  intros Hstep Hreturned. unfold updateVpcLoadbalancerListenersAndTargetGroups.
  wp_step. wp_step. cbv zeta.
  destruct (getDesiredVpcLoadbalancerTargetGroups lb service nodes) as [desiredTgs [err|]].
  { wp_step. split; [done|]. split; [by exists []|done]. }
  wp_step. wp_step. eapply wp_mono.
  { by apply (createOrUpdateTargetGroups_step desiredTgs nodes). }
  intros [err|tgs] w1 [Hpre1 Hstep1]; cbv beta iota; [done|].
  wp_step. wp_step. eapply wp_mono.
  { by apply (updateVpcLoadbalancerListener_step vpcLoadbalancer tgs tgs). }
  intros [err|[]] w2 [Hstep2 Hpre2]; cbv beta iota.
  { split; [solve_prefix|]. split; [by exists tgs|done]. }
  wp_step. wp_step. eapply wp_mono.
  { by apply (cleanupUnusedTargetGroups_step J (reconcile_accepts_reads lb service) w0 Hw0
                (reconcile_accepts_unused_target_group_delete lb service) lb service tgs). }
  intros [err|[]] w3 [Hstep3 Hpre3]; cbv beta iota.
  { split; [solve_prefix|]. split; [by exists tgs|done]. }
  wp_step. wp_step. eapply wp_mono.
  { apply (updateVpcLoadbalancer_step vpcLoadbalancer _ tgs); [done|].
    apply (returned_loadbalancer_mono (trace w)); [solve_prefix|done]. }
  intros [err|[]] w4 [Hstep4 Hpre4]; cbv beta iota.
  { split; [solve_prefix|]. split; [by exists tgs|done]. }
  wp_step. split; [solve_prefix|]. split; [by exists tgs|].
  by intros st [= <-].
Qed.

Lemma ready_condition_step vpcLoadbalancer tgs w :
  step_ok J tgs w0 w →
  returned_loadbalancer (trace w) vpcLoadbalancer →
  wp (ready_condition lb service vpcLoadbalancer)
     (λ r w', step_ok J tgs w0 w' ∧ trace w `prefix_of` trace w'
              ∧ ∀ b, r = inr (Some b) → returned_loadbalancer (trace w') b) w.
Proof.
  intros Hstep Hreturned. unfold ready_condition.
  wp_step.
  { wp_step. do 2 (split; [done|]). by intros b [= <-]. }
  wp_step. eapply wp_mono.
  { by apply (fetchVpcLoadbalancerFromCloud_step J (reconcile_accepts_reads lb service) w0
                lb service tgs). }
  intros [err|[vpcLB|]] w1 (Hstep1 & Hpre1 & Hfound); cbv beta iota; [done| |].
  - wp_step; wp_step; do 2 (split; [done|]); [by intros b [= <-]|done].
  - wp_step. done.
Qed.

Lemma EnsureLoadBalancer_step nodeFilter ticks nodes w :
  step_ok J [] w0 w →
  wp (EnsureLoadBalancer lb nodeFilter ticks service nodes)
     (λ r w', (∃ tgs, step_ok J tgs w0 w')
              ∧ ∀ st, r = inr st →
                  ∃ b, returned_loadbalancer (trace w') b ∧ st = ingress_loop b) w.
Proof.
  intros Hstep. unfold EnsureLoadBalancer.
  wp_step. eapply wp_mono.
  { by apply (fetchVpcLoadbalancerFromCloud_step J (reconcile_accepts_reads lb service) w0
                lb service []). }
  intros [err|found] w1 (Hstep1 & Hpre1 & Hfound); cbv beta iota.
  { split; [by exists []|done]. }
  destruct (Filter nodeFilter service nodes) as [filtered [err|]].
  { wp_step. split; [by exists []|done]. }
  destruct found as [vpcLoadbalancer|].
  - eapply wp_mono.
    { by apply (updateVpcLoadbalancerListenersAndTargetGroups_step filtered vpcLoadbalancer). }
    intros r w2 (Hpre2 & Hstep2 & Hstatus). split; [done|].
    intros st ->. exists vpcLoadbalancer. split; [|by apply Hstatus].
    apply (returned_loadbalancer_mono (trace w1)); [solve_prefix|done].
  - cbv zeta. wp_step. eapply wp_mono.
    { by apply (createVpcLoadbalancer_step _ []). }
    intros [err|created] w2 (Hstep2 & Hpre2 & Hcreated); cbv beta iota.
    { split; [by exists []|done]. }
    wp_step. eapply wp_mono.
    { apply (updateVpcLoadbalancerListenersAndTargetGroups_step filtered created);
        [done|by apply Hcreated]. }
    intros [err|st] w3 (Hpre3 & [tgs Hstep3] & _); cbv beta iota.
    { split; [by exists tgs|done]. }
    wp_step.
    apply (wp_poll (λ w', step_ok J tgs w0 w' ∧ trace w3 `prefix_of` trace w')).
    { done. }
    intros w4 [Hstep4 Hpre4]. eapply wp_mono.
    { apply (ready_condition_step created tgs); [done|].
      apply (returned_loadbalancer_mono (trace w2)); [solve_prefix|by apply Hcreated]. }
    intros [err|[b|]] w5 (Hstep5 & Hpre5 & Hready); cbv beta iota.
    + split; [by exists tgs|done].
    + wp_step. split; [by exists tgs|].
      intros st' [= <-]. exists b. split; [by apply Hready|done].
    + split; [solve_step|]. split; [by exists tgs|done].
Qed.

Lemma UpdateLoadBalancer_step nodeFilter nodes w :
  step_ok J [] w0 w →
  wp (UpdateLoadBalancer lb nodeFilter service nodes) (λ r w', ∃ tgs, step_ok J tgs w0 w') w.
Proof.
  intros Hstep. unfold UpdateLoadBalancer.
  wp_step. wp_step. eapply wp_mono.
  { by apply (fetchVpcLoadbalancerFromCloud_step J (reconcile_accepts_reads lb service) w0
                lb service []). }
  intros [err|[lbService|]] w1 (Hstep1 & Hpre1 & Hfound); cbv beta iota.
  { by exists []. }
  - destruct (Filter nodeFilter service nodes) as [filtered [err|]].
    { wp_step. by exists []. }
    wp_step. wp_step. eapply wp_mono.
    { by apply (updateVpcLoadbalancerListenersAndTargetGroups_step filtered lbService). }
    intros [err|st] w2 (Hpre2 & Hstep2 & _); cbv beta iota; [done|].
    by wp_step.
  - wp_step. by exists [].
Qed.

End ReconcileSteps.

(** ** Deletion, call by call *)

Lemma deletion_accepts_reads : accepts_reads target_group_delete_justified.
Proof. intros pre ev Hread. by destruct ev. Qed.

Lemma deletion_accepts_unused_target_group_delete :
  accepts_unused_target_group_delete target_group_delete_justified.
Proof. intros pre identity resp tg Hlisted Hid Hnone _. by exists tg. Qed.

Lemma reconcile_justified_target_groups lb service pre ev :
  reconcile_justified lb service pre ev → target_group_delete_justified pre ev.
Proof.
  intros [Hev _]. destruct ev; try done.
  destruct Hev as (tg & ? & ? & ? & _). by exists tg.
Qed.

Section DeletionSteps.
Context `{GoText} {St : Type} `{IaasClient St}.
Context (lb : loadbalancer) (service : Service).
Context (w0 : World St) (Hw0 : ∀ t, ¬ returned_target_group (trace w0) t).
Implicit Types w : World St.

Local Abbreviation J := target_group_delete_justified.

Lemma deleted_condition_step w :
  step_ok J [] w0 w →
  wp (deleted_condition lb service) (λ _ w', step_ok J [] w0 w') w.
Proof.
  intros Hstep. unfold deleted_condition.
  wp_step. apply wp_attempt. eapply wp_mono.
  { by apply (fetchVpcLoadbalancerFromCloud_step J deletion_accepts_reads w0 lb service []). }
  intros [err|[b|]] w1 (Hstep1 & _); cbv beta iota; by wp_step.
Qed.

Lemma delete_target_group_without_listeners_step targetGroup w :
  step_ok J [] w0 w →
  listed_target_group (trace w) targetGroup →
  wp (delete_target_group_without_listeners targetGroup)
     (λ _ w', step_ok J [] w0 w' ∧ trace w `prefix_of` trace w') w.
Proof.
  intros Hstep Hlisted. unfold delete_target_group_without_listeners.
  case_bool_decide as Hlisteners.
  { by wp_step. }
  wp_step. apply (wp_perform_step J _ _ _ [] w0); [done| |done|].
  { intros r. exists targetGroup. do 2 (split; [done|]).
    destruct (tg_LoadbalancerListeners targetGroup); [done|]. simpl in Hlisteners. lia. }
  intros [err|] w1 Hstep1 Hpre1 _; cbv beta iota; by wp_step.
Qed.

Lemma deleteManagedSecurityGroup_step w :
  step_ok J [] w0 w →
  wp (deleteManagedSecurityGroup lb service) (λ _ w', step_ok J [] w0 w') w.
Proof.
  intros Hstep. unfold deleteManagedSecurityGroup.
  wp_step. apply wp_attempt. eapply wp_mono.
  { by apply (findManagedSecurityGroup_step J deletion_accepts_reads w0 lb service []). }
  intros [err|[sg|]] w1 (Hstep1 & _); cbv beta iota; try by wp_step.
  wp_step. apply (wp_perform_step J _ _ _ [] w0); [done|done|done|].
  intros r w2 Hstep2 _ _. by wp_step.
Qed.

Lemma EnsureLoadBalancerDeleted_step ticks w :
  step_ok J [] w0 w →
  wp (EnsureLoadBalancerDeleted lb ticks service) (λ _ w', step_ok J [] w0 w') w.
Proof.
  intros Hstep. unfold EnsureLoadBalancerDeleted.
  wp_step. eapply wp_mono.
  { by apply (fetchVpcLoadbalancerFromCloud_step J deletion_accepts_reads w0 lb service []). }
  intros [err|[vpcLoadbalancer|]] w1 (Hstep1 & _); cbv beta iota; [done| |by wp_step].
  wp_step. eapply wp_mono.
  { by apply (cleanupUnusedTargetGroups_step J deletion_accepts_reads w0 Hw0
                deletion_accepts_unused_target_group_delete lb service []). }
  intros [err|[]] w2 [Hstep2 _]; cbv beta iota; [done|].
  wp_step. apply (wp_perform_step J _ _ _ [] w0); [done|done|done|].
  intros [err|] w3 Hstep3 _ _; cbv beta iota; [by wp_step|].
  wp_step. apply (wp_mono _ (λ _ w', step_ok J [] w0 w')).
  { apply (wp_poll (λ w', step_ok J [] w0 w')); [done|].
    intros w4 Hstep4. eapply wp_mono; [by apply deleted_condition_step|].
    by intros [err|[[]|]] w5 Hstep5. }
  intros [err|[]] w4 Hstep4; cbv beta iota; [done|].
  cbv zeta. wp_step. apply (wp_perform_step J _ _ _ [] w0); [done|done|done|].
  intros [err|targetGroups] w5 Hstep5 _ Hlist; cbv beta iota; [by wp_step|].
  wp_step.
  apply (wp_forM (λ w', step_ok J [] w0 w' ∧ trace w5 `prefix_of` trace w')).
  { done. }
  { intros targetGroup w6 Hin [Hstep6 Hpre6]. eapply wp_mono.
    { apply delete_target_group_without_listeners_step; [done|].
      apply (listed_target_group_mono (trace w5)); [done|].
      by exists None, (GetLabelsForVpcLoadbalancer lb service), targetGroups. }
    intros [err|[]] w7 [Hstep7 Hpre7]; [done|]. split; [done|solve_prefix]. }
  intros w6 [Hstep6 _]. by apply deleteManagedSecurityGroup_step.
Qed.

End DeletionSteps.

(** ** Status *)

Lemma ingress_loop_from (b : VpcLoadbalancer) (ips : list string)
    (acc : list LoadBalancerIngress) :
  foldl (λ ingress ip,
           if bool_decide (ip ≠ "")
           then ingress ++ [{| ing_IP := ip; ing_Hostname := lb_Hostname b;
                               ing_IPMode := Some LoadBalancerIPModeProxy |}]
           else ingress) acc ips
  = acc ++ ((λ ip, {| ing_IP := ip; ing_Hostname := lb_Hostname b;
                      ing_IPMode := Some LoadBalancerIPModeProxy |})
              <$> filter (λ ip, ip ≠ "") ips).
Proof.
  revert acc. induction ips as [|ip ips IH]; intros acc; simpl.
  - by rewrite app_nil_r.
  - rewrite IH. rewrite filter_cons. case_bool_decide as Hip.
    + rewrite decide_True by done. by rewrite <- app_assoc.
    + rewrite decide_False; [done|]. by intros Hne.
Qed.

Lemma ingress_loop_ingress_of (b : VpcLoadbalancer) : ingress_loop b = ingress_of b.
Proof. unfold ingress_loop, ingress_of. by rewrite ingress_loop_from. Qed.

Section StatusSteps.
Context `{GoText} {St : Type} `{IaasClient St}.
Context (lb : loadbalancer) (service : Service).

Lemma GetLoadBalancer_status (s : St) :
  wp (GetLoadBalancer lb service)
     (λ r w', ∀ st, r = inr (Some st, true) →
                    status_of_returned_loadbalancer (trace w') st) (mkWorld s []).
Proof.
  unfold GetLoadBalancer. wp_step. eapply wp_mono.
  { apply (fetchVpcLoadbalancerFromCloud_step (λ _ _, True) (λ _ _ _, I)
             (mkWorld s []) lb service []). by apply step_ok_refl. }
  intros [err|[b|]] w1 (_ & _ & Hfound); cbv beta iota; [done| |].
  - wp_step. intros st [= <-]. exists b. split; [done|by apply ingress_loop_ingress_of].
  - by wp_step.
Qed.

End StatusSteps.

Section Runs.
Context `{GoText} {St : Type} `{IaasClient St}.
Context (lb : loadbalancer) (service : Service).

Lemma returned_target_group_nil (t : VpcLoadbalancerTargetGroup) :
  ¬ returned_target_group [] t.
Proof. by intros [[req Hin]|[req Hin]]; apply not_elem_of_nil in Hin. Qed.

Lemma start_step_ok (J : list Event → Event → Prop) tgs (s : St) :
  step_ok J tgs (mkWorld s []) (mkWorld s []).
Proof. apply step_ok_refl. apply trace_ok_nil. Qed.

Lemma wp_any {A} (m : M St A) (w : World St) : wp m (λ _ _, True) w.
Proof. done. Qed.

(** The reconcile body returns the status of the load balancer it was
    handed, whatever the cloud answers. *)
Lemma reconcile_body_status nodes (b : VpcLoadbalancer) (w : World St) :
  wp (updateVpcLoadbalancerListenersAndTargetGroups lb service nodes (Some b))
     (λ r _, ∀ st, r = inr st → st = ingress_of b) w.
Proof.
  unfold updateVpcLoadbalancerListenersAndTargetGroups.
  wp_step. wp_step. cbv zeta.
  destruct (getDesiredVpcLoadbalancerTargetGroups lb service nodes) as [desiredTgs [err|]].
  { by wp_step. }
  wp_step. eapply wp_mono; [apply wp_any|]. intros [err|tgs] w1 _; [done|].
  wp_step. eapply wp_mono; [apply wp_any|]. intros [err|[]] w2 _; [done|].
  wp_step. eapply wp_mono; [apply wp_any|]. intros [err|[]] w3 _; [done|].
  wp_step. eapply wp_mono; [apply wp_any|]. intros [err|[]] w4 _; [done|].
  wp_step. intros st [= <-]. apply ingress_loop_ingress_of.
Qed.

Lemma EnsureLoadBalancer_run nodeFilter ticks nodes (s : St) :
  wp (EnsureLoadBalancer lb nodeFilter ticks service nodes)
     (λ r w', trace_ok (reconcile_justified lb service) (trace w')
              ∧ ∀ st, r = inr st → status_of_returned_loadbalancer (trace w') st)
     (mkWorld s []).
Proof.
  eapply wp_mono.
  { apply (EnsureLoadBalancer_step lb service (mkWorld s []) returned_target_group_nil).
    apply start_step_ok. }
  intros r w' [[tgs Hstep] Hstatus]. split; [by apply step_ok_trace in Hstep|].
  intros st Hst. destruct (Hstatus st Hst) as (b & Hb & ->).
  exists b. split; [done|apply ingress_loop_ingress_of].
Qed.

Lemma UpdateLoadBalancer_run nodeFilter nodes (s : St) :
  wp (UpdateLoadBalancer lb nodeFilter service nodes)
     (λ _ w', trace_ok (reconcile_justified lb service) (trace w')) (mkWorld s []).
Proof.
  eapply wp_mono.
  { apply (UpdateLoadBalancer_step lb service (mkWorld s []) returned_target_group_nil).
    apply start_step_ok. }
  intros r w' [tgs Hstep]. by apply step_ok_trace in Hstep.
Qed.

Lemma EnsureLoadBalancerDeleted_run ticks (s : St) :
  wp (EnsureLoadBalancerDeleted lb ticks service)
     (λ _ w', trace_ok target_group_delete_justified (trace w')) (mkWorld s []).
Proof.
  eapply wp_mono.
  { apply (EnsureLoadBalancerDeleted_step lb service (mkWorld s []) returned_target_group_nil).
    apply start_step_ok. }
  intros r w' Hstep. by apply step_ok_trace in Hstep.
Qed.

Lemma cleanupUnusedTargetGroups_run desiredTargetGroups (s : St) :
  wp (cleanupUnusedTargetGroups lb service desiredTargetGroups)
     (λ _ w', trace_ok target_group_delete_justified (trace w')) (mkWorld s []).
Proof.
  eapply wp_mono.
  { apply (cleanupUnusedTargetGroups_step target_group_delete_justified
             deletion_accepts_reads (mkWorld s []) returned_target_group_nil
             deletion_accepts_unused_target_group_delete lb service desiredTargetGroups).
    apply start_step_ok. }
  intros r w' [Hstep _]. by apply step_ok_trace in Hstep.
Qed.

End Runs.

(** ** Status of the load balancer *)

(** C10. The status that [GetLoadBalancer] and [EnsureLoadBalancer]
    return is built from a load balancer that the cloud returned in the
    same call, the status that the reconcile body returns is built from
    the load balancer it was handed, and in each case it has one entry per
    non-empty external address, in listing order, with that address, the
    hostname of the load balancer and IP mode proxy; empty addresses are
    skipped, so the status is at most as long as the list of addresses. *)
Theorem status_lists_external_addresses `{GoText} {St : Type} `{IaasClient St}
    (lb : loadbalancer) (nodeFilter : NodeFilter) (ticks : nat) (service : Service)
    (nodes : list Node) (b : VpcLoadbalancer) (s : St) :
  (∀ st, (GetLoadBalancer lb service (mkWorld s [])).1 = inr (Some st, true) →
         status_of_returned_loadbalancer
           (trace (GetLoadBalancer lb service (mkWorld s [])).2) st)
  ∧ (∀ st, (EnsureLoadBalancer lb nodeFilter ticks service nodes (mkWorld s [])).1 = inr st →
           status_of_returned_loadbalancer
             (trace (EnsureLoadBalancer lb nodeFilter ticks service nodes (mkWorld s [])).2) st)
  ∧ (∀ st, (updateVpcLoadbalancerListenersAndTargetGroups lb service nodes (Some b)
              (mkWorld s [])).1 = inr st →
           st = ingress_of b)
  ∧ (∀ i e, ingress_of b !! i = Some e →
            ∃ ip, filter (λ ip, ip ≠ "") (lb_ExternalIpAddresses b) !! i = Some ip
                  ∧ ip ≠ "" ∧ ing_IP e = ip ∧ ing_Hostname e = lb_Hostname b
                  ∧ ing_IPMode e = Some LoadBalancerIPModeProxy)
  ∧ length (ingress_of b) = length (filter (λ ip, ip ≠ "") (lb_ExternalIpAddresses b))
  ∧ (length (ingress_of b) ≤ length (lb_ExternalIpAddresses b))%nat.
Proof.
  split; [|split; [|split; [|split; [|split]]]].
  - intros st Hst. by apply (GetLoadBalancer_status lb service s).
  - intros st Hst. by apply (EnsureLoadBalancer_run lb service nodeFilter ticks nodes s).
  - intros st Hst. by apply (reconcile_body_status lb service nodes b (mkWorld s [])).
  - intros i e Hi. unfold ingress_of in Hi. rewrite list_lookup_fmap in Hi.
    destruct (filter _ _ !! i) as [ip|] eqn:Hip; [|done].
    injection Hi as <-. exists ip. split; [done|]. split; [|done].
    apply list_elem_of_lookup_2 in Hip. by apply list_elem_of_filter in Hip as [Hne _].
  - unfold ingress_of. by rewrite length_fmap.
  - unfold ingress_of. rewrite length_fmap. apply length_filter.
Qed.

(** C10 at the first ensure of the basic Service on the reference cloud:
    the status is the one address of the new load balancer. *)
Lemma status_lists_external_addresses_witness :
  (Scenario.ensure Scenario.basic Scenario.fresh_cloud).1
  = inr [{| ing_IP := "203.0.113.1"; ing_Hostname := "";
            ing_IPMode := Some LoadBalancerIPModeProxy |}]
  ∧ status_of_returned_loadbalancer
      (trace (Scenario.ensure Scenario.basic Scenario.fresh_cloud).2)
      [{| ing_IP := "203.0.113.1"; ing_Hostname := "";
          ing_IPMode := Some LoadBalancerIPModeProxy |}].
Proof.
  split; [vm_compute; reflexivity|].
  apply (proj1 (proj2 (@status_lists_external_addresses AsciiText _ RefCloud.client
           Scenario.provider (Scenario.cache []) 3 Scenario.basic Scenario.nodes
           Scenario.balancer_with_gap
           Scenario.fresh_cloud))).
  vm_compute. reflexivity.
Defined.

(** ** Deletion of target groups *)

(** C3. In every call of the cleanup of unused target groups, of
    [EnsureLoadBalancerDeleted], of [EnsureLoadBalancer] and of
    [UpdateLoadBalancer], from every state of every cloud, each deletion
    of a target group is preceded in the same call by a listing that
    showed the target group without listeners: a target group that a
    listener still references is skipped. *)
Theorem target_groups_with_listeners_are_kept `{GoText} {St : Type} `{IaasClient St}
    (lb : loadbalancer) (nodeFilter : NodeFilter) (ticks : nat) (service : Service)
    (nodes : list Node) (desiredTargetGroups : list VpcLoadbalancerTargetGroup) (s : St) :
  trace_ok target_group_delete_justified
    (trace (cleanupUnusedTargetGroups lb service desiredTargetGroups (mkWorld s [])).2)
  ∧ trace_ok target_group_delete_justified
      (trace (EnsureLoadBalancerDeleted lb ticks service (mkWorld s [])).2)
  ∧ trace_ok target_group_delete_justified
      (trace (EnsureLoadBalancer lb nodeFilter ticks service nodes (mkWorld s [])).2)
  ∧ trace_ok target_group_delete_justified
      (trace (UpdateLoadBalancer lb nodeFilter service nodes (mkWorld s [])).2).
Proof.
  split; [|split; [|split]].
  - apply (cleanupUnusedTargetGroups_run lb service desiredTargetGroups s).
  - apply (EnsureLoadBalancerDeleted_run lb service ticks s).
  - apply (trace_ok_impl (reconcile_justified lb service)).
    + apply reconcile_justified_target_groups.
    + apply (EnsureLoadBalancer_run lb service nodeFilter ticks nodes s).
  - apply (trace_ok_impl (reconcile_justified lb service)).
    + apply reconcile_justified_target_groups.
    + apply (UpdateLoadBalancer_run lb service nodeFilter nodes s).
Qed.

(** ** Idempotence of ensure *)

Lemma forallb_read_only (tr : list Event) :
  Forall (λ ev, is_mutation ev = false) tr → forallb (λ ev, negb (is_mutation ev)) tr = true.
Proof.
  induction 1 as [|ev tr Hev _ IH]; [done|]. simpl. by rewrite Hev, IH.
Qed.

(** The calls of the first and of the second ensure of the basic Service
    on the reference cloud: the second creates and deletes nothing, and
    sends three updates. *)
Lemma calls_of_two_ensures :
  call_name <$> trace (Scenario.ensure Scenario.basic Scenario.fresh_cloud).2
  = ["ListLoadbalancers"; "GetVpc"; "CreateLoadbalancer"; "ListTargetGroups";
     "CreateTargetGroup"; "SetTargetGroupServerAttachments"; "ListListeners";
     "CreateListener"; "ListTargetGroups"]
  ∧ call_name <$> trace (Scenario.ensure Scenario.basic Scenario.converged_cloud).2
    = ["ListLoadbalancers"; "ListTargetGroups"; "UpdateTargetGroup";
       "SetTargetGroupServerAttachments"; "ListListeners"; "UpdateListener";
       "ListTargetGroups"]
  ∧ filter (λ ev, is_create_or_delete ev = true)
           (trace (Scenario.ensure Scenario.basic Scenario.converged_cloud).2) = [].
Proof. split; [|split]; vm_compute; reflexivity. Qed.

(** C1 does not hold as stated: on the reference cloud, the second ensure
    of the basic Service after a successful first one updates the target
    group, replaces its attachments and updates the listener. *)
Lemma second_ensure_mutates : ¬ ensure_is_idempotent.
Proof.
  intros Hidempotent.
  specialize (Hidempotent AsciiText RefCloud.State RefCloud.client Scenario.provider
                (Scenario.cache []) 3%nat Scenario.basic Scenario.nodes Scenario.fresh_cloud).
  cbv zeta in Hidempotent.
  assert (Hfirst : is_Some
            match (@EnsureLoadBalancer AsciiText _ RefCloud.client Scenario.provider
                     (Scenario.cache []) 3 Scenario.basic Scenario.nodes
                     (mkWorld Scenario.fresh_cloud [])).1 with
            | inr st => Some st
            | inl _ => None
            end).
  { vm_compute. by eexists. }
  apply Hidempotent, forallb_read_only in Hfirst.
  vm_compute in Hfirst. discriminate.
Qed.

(** C1, amended. In every call of [EnsureLoadBalancer], from every state
    of every cloud and so in a second call that follows a successful
    first one, each create or delete call answers a difference that a
    listing of the same call showed, and no load balancer and no security
    group is deleted. Update and attachment-replace calls are outside
    this statement. *)
Theorem ensure_creates_and_deletes_on_difference_only
    `{GoText} {St : Type} `{IaasClient St}
    (lb : loadbalancer) (nodeFilter : NodeFilter) (ticks : nat) (service : Service)
    (nodes : list Node) (s : St) :
  let first := EnsureLoadBalancer lb nodeFilter ticks service nodes (mkWorld s []) in
  let second := EnsureLoadBalancer lb nodeFilter ticks service nodes
                                   (mkWorld (cloud first.2) []) in
  trace_ok (create_or_delete_justified lb service) (trace first.2)
  ∧ trace_ok (create_or_delete_justified lb service) (trace second.2).
Proof.
  cbv zeta. split.
  - apply (trace_ok_impl (reconcile_justified lb service)); [by intros pre ev [? _]|].
    apply (EnsureLoadBalancer_run lb service nodeFilter ticks nodes s).
  - apply (trace_ok_impl (reconcile_justified lb service)); [by intros pre ev [? _]|].
    apply (EnsureLoadBalancer_run lb service nodeFilter ticks nodes).
Qed.

(** ** What a reconcile leaves as it is

    The engine reaches the cloud through the calls of the client only: an
    observation of the cloud that every call of a reconcile keeps, the
    creation of a load balancer apart, is kept by the reconcile. *)

Create HintDb frame.

Section Frame.
Context `{GoText} {St X : Type} `{IaasClient St}.
Context (obs : St → X) (Hframe : client_keeps obs).
Implicit Types w : World St.

Lemma wp_perform_keeps {R} (op : St → R * St) (ev : R → Event)
    (Q : error + R → World St → Prop) (x : X) w :
  keeps obs op → obs (cloud w) = x →
  (∀ r w', obs (cloud w') = x → Q (inr r) w') →
  wp (perform op ev) Q w.
Proof.
  intros Hkeeps Hx HQ. unfold wp, perform.
  pose proof (Hkeeps (cloud w)) as Hop. destruct (op (cloud w)) as [r s'].
  apply HQ. simpl in *. by rewrite Hop.
Qed.

End Frame.

#[export] Hint Resolve keeps_ListLoadbalancers keeps_GetVpc keeps_UpdateLoadbalancer
  keeps_ListSecurityGroups keeps_CreateSecurityGroup keeps_UpdateSecurityGroup
  keeps_DeleteSecurityGroup keeps_ListTargetGroups keeps_CreateTargetGroup
  keeps_UpdateTargetGroup keeps_DeleteTargetGroup keeps_SetTargetGroupServerAttachments
  keeps_ListListeners keeps_CreateListener keeps_UpdateListener keeps_DeleteListener : frame.

(** One step of a run that keeps the observation: a call of the client, a
    loop, a function of the engine that is known to keep it, or a step of
    symbolic execution. *)
Ltac frame_step obs x :=
  lazymatch goal with
  | |- wp (perform _ _) _ _ =>
      apply (wp_perform_keeps obs _ _ _ x); [solve [eauto with frame]|assumption|];
      intros ? ? ?; cbv beta iota
  | |- wp (foldM _ _ _) _ _ =>
      apply (wp_foldM (λ _ w, obs (cloud w) = x)); [assumption| |];
      [intros ? ? ? ? ?|intros ? ? ?]
  | |- wp (forM _ _) _ _ =>
      apply (wp_forM (λ w, obs (cloud w) = x)); [assumption| |];
      [intros ? ? ? ?|intros ? ?]
  | |- wp (PollUntilContextTimeout _ _) _ _ =>
      apply (wp_poll (λ w, obs (cloud w) = x)); [assumption|]; intros ? ?
  | |- wp (mret _) _ _ => apply wp_ret
  | |- wp (fail _) _ _ => apply wp_fail
  | |- wp (mbind _ _) _ _ => apply wp_bind
  | |- wp (wrap _ _) _ _ => apply wp_wrap
  | |- wp (attempt _) _ _ => apply wp_attempt
  | |- wp (match ?y with _ => _ end) _ _ => destruct y eqn:?; cbv beta iota
  | |- wp (if ?b then _ else _) _ _ => destruct b eqn:?; cbv beta iota
  | |- wp _ _ _ =>
      first [ progress cbv zeta
            | eapply wp_mono; [solve [eauto with frame]|]; intros [?|?] ? ?; cbv beta iota ]
  | |- match ?y with _ => _ end => destruct y; cbv beta iota
  | |- _ ∧ _ => split
  | |- _ => first [assumption | progress cbv beta iota zeta]
  end.

Section FrameSteps.
Context `{GoText} {St X : Type} `{IaasClient St}.
Context (obs : St → X) (Hframe : client_keeps obs).
Context (lb : loadbalancer) (service : Service).
Implicit Types (w : World St) (x : X).

Lemma fetchVpcLoadbalancerFromCloud_keeps x w :
  obs (cloud w) = x →
  wp (fetchVpcLoadbalancerFromCloud lb service) (λ _ w', obs (cloud w') = x) w.
Proof. intros Hx. unfold fetchVpcLoadbalancerFromCloud. repeat frame_step obs x. Qed.
Local Hint Resolve fetchVpcLoadbalancerFromCloud_keeps : frame.

Lemma verifySecurityGroupsExist_keeps securityGroups x w :
  obs (cloud w) = x →
  wp (verifySecurityGroupsExist lb securityGroups) (λ _ w', obs (cloud w') = x) w.
Proof. intros Hx. unfold verifySecurityGroupsExist. repeat frame_step obs x. Qed.
Local Hint Resolve verifySecurityGroupsExist_keeps : frame.

Lemma findManagedSecurityGroup_keeps x w :
  obs (cloud w) = x →
  wp (findManagedSecurityGroup lb service) (λ _ w', obs (cloud w') = x) w.
Proof. intros Hx. unfold findManagedSecurityGroup. repeat frame_step obs x. Qed.
Local Hint Resolve findManagedSecurityGroup_keeps : frame.

Lemma ensureManagedSecurityGroup_keeps desiredListeners x w :
  obs (cloud w) = x →
  wp (ensureManagedSecurityGroup lb service desiredListeners) (λ _ w', obs (cloud w') = x) w.
Proof. intros Hx. unfold ensureManagedSecurityGroup. repeat frame_step obs x. Qed.
Local Hint Resolve ensureManagedSecurityGroup_keeps : frame.

Lemma upgradeTargetGroupAttachments_keeps targetGroup nodes x w :
  obs (cloud w) = x →
  wp (upgradeTargetGroupAttachments lb targetGroup nodes) (λ _ w', obs (cloud w') = x) w.
Proof. intros Hx. unfold upgradeTargetGroupAttachments. repeat frame_step obs x. Qed.
Local Hint Resolve upgradeTargetGroupAttachments_keeps : frame.

Lemma create_missing_target_group_keeps existing nodes tgs targetGroup x w :
  obs (cloud w) = x →
  wp (create_missing_target_group lb existing nodes tgs targetGroup) (λ _ w', obs (cloud w') = x) w.
Proof. intros Hx. unfold create_missing_target_group. repeat frame_step obs x. Qed.
Local Hint Resolve create_missing_target_group_keeps : frame.

Lemma update_existing_target_group_keeps desired nodes tgs targetGroup x w :
  obs (cloud w) = x →
  wp (update_existing_target_group lb desired nodes tgs targetGroup) (λ _ w', obs (cloud w') = x) w.
Proof. intros Hx. unfold update_existing_target_group. repeat frame_step obs x. Qed.
Local Hint Resolve update_existing_target_group_keeps : frame.

Lemma createOrUpdateTargetGroups_keeps desiredTargetGroups nodes x w :
  obs (cloud w) = x →
  wp (createOrUpdateTargetGroups lb service desiredTargetGroups nodes) (λ _ w', obs (cloud w') = x) w.
Proof. intros Hx. unfold createOrUpdateTargetGroups. repeat frame_step obs x. Qed.
Local Hint Resolve createOrUpdateTargetGroups_keeps : frame.

Lemma cleanup_target_group_keeps desired targetGroup x w :
  obs (cloud w) = x →
  wp (cleanup_target_group desired targetGroup) (λ _ w', obs (cloud w') = x) w.
Proof. intros Hx. unfold cleanup_target_group. repeat frame_step obs x. Qed.
Local Hint Resolve cleanup_target_group_keeps : frame.

Lemma cleanupUnusedTargetGroups_keeps desiredTargetGroups x w :
  obs (cloud w) = x →
  wp (cleanupUnusedTargetGroups lb service desiredTargetGroups) (λ _ w', obs (cloud w') = x) w.
Proof. intros Hx. unfold cleanupUnusedTargetGroups. repeat frame_step obs x. Qed.
Local Hint Resolve cleanupUnusedTargetGroups_keeps : frame.

Lemma delete_or_update_listener_keeps b desired targetGroups listener x w :
  obs (cloud w) = x →
  wp (delete_or_update_listener lb service b desired targetGroups listener) (λ _ w', obs (cloud w') = x) w.
Proof. intros Hx. unfold delete_or_update_listener. repeat frame_step obs x. Qed.
Local Hint Resolve delete_or_update_listener_keeps : frame.

Lemma create_missing_listener_keeps b existing targetGroups listener x w :
  obs (cloud w) = x →
  wp (create_missing_listener lb service b existing targetGroups listener) (λ _ w', obs (cloud w') = x) w.
Proof. intros Hx. unfold create_missing_listener. repeat frame_step obs x. Qed.
Local Hint Resolve create_missing_listener_keeps : frame.

Lemma updateVpcLoadbalancerListener_keeps b desiredListeners targetGroups x w :
  obs (cloud w) = x →
  wp (updateVpcLoadbalancerListener lb service b desiredListeners targetGroups) (λ _ w', obs (cloud w') = x) w.
Proof. intros Hx. unfold updateVpcLoadbalancerListener. repeat frame_step obs x. Qed.
Local Hint Resolve updateVpcLoadbalancerListener_keeps : frame.

Lemma updateVpcLoadbalancer_keeps b desiredListeners x w :
  obs (cloud w) = x →
  wp (updateVpcLoadbalancer lb service b desiredListeners) (λ _ w', obs (cloud w') = x) w.
Proof. intros Hx. unfold updateVpcLoadbalancer. repeat frame_step obs x. Qed.
Local Hint Resolve updateVpcLoadbalancer_keeps : frame.

Lemma updateVpcLoadbalancerListenersAndTargetGroups_keeps nodes b x w :
  obs (cloud w) = x →
  wp (updateVpcLoadbalancerListenersAndTargetGroups lb service nodes b) (λ _ w', obs (cloud w') = x) w.
Proof. intros Hx. unfold updateVpcLoadbalancerListenersAndTargetGroups. repeat frame_step obs x. Qed.
Local Hint Resolve updateVpcLoadbalancerListenersAndTargetGroups_keeps : frame.

Lemma ready_condition_keeps b x w :
  obs (cloud w) = x →
  wp (ready_condition lb service b) (λ _ w', obs (cloud w') = x) w.
Proof. intros Hx. unfold ready_condition. repeat frame_step obs x. Qed.
Local Hint Resolve ready_condition_keeps : frame.

Lemma UpdateLoadBalancer_keeps nodeFilter nodes x w :
  obs (cloud w) = x →
  wp (UpdateLoadBalancer lb nodeFilter service nodes) (λ _ w', obs (cloud w') = x) w.
Proof. intros Hx. unfold UpdateLoadBalancer. repeat frame_step obs x. Qed.
Local Hint Resolve UpdateLoadBalancer_keeps : frame.

Lemma createVpcLoadbalancer_creates lbName x w :
  obs (cloud w) = x →
  wp (createVpcLoadbalancer lb lbName service)
     (λ _ w', kept_or_created obs service x (obs (cloud w'))) w.
Proof.
  intros Hx. unfold createVpcLoadbalancer. repeat frame_step obs x; try (by left).
  all: unfold wp, perform.
  all: match goal with
       | |- context [iaas_CreateLoadbalancer ?req (cloud ?w1)] =>
           destruct (iaas_CreateLoadbalancer req (cloud w1)) as [[err|created] s'] eqn:Hcreate;
           (simpl; right; exists req, (cloud w1);
            (split; [assumption|split; [reflexivity|by rewrite Hcreate]]))
       end.
Qed.

Lemma EnsureLoadBalancer_keeps nodeFilter ticks nodes x w :
  obs (cloud w) = x →
  wp (EnsureLoadBalancer lb nodeFilter ticks service nodes)
     (λ _ w', kept_or_created obs service x (obs (cloud w'))) w.
Proof.
  intros Hx. unfold EnsureLoadBalancer. repeat frame_step obs x; try (by left).
  eapply wp_mono; [by apply createVpcLoadbalancer_creates|].
  intros [err|created] w2 Hcreated; cbv beta iota; [done|].
  remember (obs (cloud w2)) as x2 eqn:Hx2. symmetry in Hx2.
  apply (wp_mono _ (λ _ w', obs (cloud w') = x2)); [|by intros r w3 ->].
  repeat frame_step obs x2.
Qed.

End FrameSteps.

(** ** The reference cloud and the [internal] attribute *)

Lemma internal_flags_updated identity req (l : list VpcLoadbalancer) :
  (λ b, (lb_Identity b, lb_InternalLoadbalancer b))
    <$> ((λ y, if bool_decide (lb_Identity y = identity)
               then RefCloud.updated_loadbalancer req y else y) <$> l)
  = (λ b, (lb_Identity b, lb_InternalLoadbalancer b)) <$> l.
Proof.
  induction l as [|y l IH]; [done|]. rewrite !fmap_cons, IH. f_equal.
  by case_bool_decide.
Qed.

Lemma reference_cloud_keeps_internal_flags : client_keeps internal_flags.
Proof.
  split; try (intros; intros s; reflexivity).
  - intros identity req s. unfold internal_flags. simpl. unfold RefCloud.update_loadbalancer.
    destruct (List.find _ _); [|done]. simpl. apply internal_flags_updated.
  - intros identity req s. unfold internal_flags. simpl. unfold RefCloud.update_security_group.
    by destruct (List.find _ _).
  - intros req s. unfold internal_flags. simpl. unfold RefCloud.update_target_group.
    by destruct (List.find _ _).
Qed.

Lemma reference_cloud_create_loadbalancer req (s : RefCloud.State) :
  internal_flags (RefCloud.create_loadbalancer req s).2
  = internal_flags s ++ [(RefCloud.fresh "lb-" s, clb_InternalLoadbalancer req)].
Proof. unfold internal_flags. simpl. by rewrite fmap_app. Qed.

(** On the reference cloud, from every state: an update reconcile leaves
    the [internal] attribute of every load balancer as it is, and an
    ensure reconcile at most appends the attribute of the load balancer it
    creates, read from the annotation. *)
Lemma reference_cloud_internal_flags `{GoText} (lb : loadbalancer) (nodeFilter : NodeFilter)
    (ticks : nat) (service : Service) (nodes : list Node) (c : RefCloud.State) :
  internal_flags (cloud (UpdateLoadBalancer lb nodeFilter service nodes (mkWorld c [])).2)
  = internal_flags c
  ∧ (internal_flags (cloud (EnsureLoadBalancer lb nodeFilter ticks service nodes
                              (mkWorld c [])).2) = internal_flags c
     ∨ ∃ identity,
         internal_flags (cloud (EnsureLoadBalancer lb nodeFilter ticks service nodes
                                  (mkWorld c [])).2)
         = internal_flags c ++ [(identity, internal_annotation service)]).
Proof.
  split.
  - by apply (UpdateLoadBalancer_keeps internal_flags reference_cloud_keeps_internal_flags
                lb service nodeFilter nodes (internal_flags c) (mkWorld c [])).
  - destruct (EnsureLoadBalancer_keeps internal_flags reference_cloud_keeps_internal_flags
                lb service nodeFilter ticks nodes (internal_flags c) (mkWorld c []) eq_refl)
      as [Hkept|(req & s & Hs & Hreq & Hcreated)].
    + by left.
    + right. exists (RefCloud.fresh "lb-" s). rewrite Hcreated.
      change (iaas_CreateLoadbalancer req s) with (RefCloud.create_loadbalancer req s).
      by rewrite reference_cloud_create_loadbalancer, Hs, Hreq.
Qed.

(** C2. The creation request of a reconcile carries the value of the
    [internal] annotation, and every update request of a load balancer
    repeats the name, description, labels and annotations of a load
    balancer that the cloud returned in the same reconcile; the update
    request has no [internal] field. So for every observation of the cloud
    that its calls keep, the creation and the deletion of a load balancer
    apart (as the [internal] attributes on the reference cloud), an update
    reconcile keeps the observation and an ensure reconcile changes it at
    most by one such creation, whatever the annotation has become. *)
Theorem internal_flag_is_set_at_creation_only `{GoText} {St X : Type} `{IaasClient St}
    (obs : St → X) (lb : loadbalancer) (nodeFilter : NodeFilter) (ticks : nat)
    (service : Service) (nodes : list Node) (s : St) :
  client_keeps obs →
  let ensured := EnsureLoadBalancer lb nodeFilter ticks service nodes (mkWorld s []) in
  let updated := UpdateLoadBalancer lb nodeFilter service nodes (mkWorld s []) in
  trace_ok (internal_flag_justified service) (trace ensured.2)
  ∧ trace_ok (internal_flag_justified service) (trace updated.2)
  ∧ obs (cloud updated.2) = obs s
  ∧ kept_or_created obs service (obs s) (obs (cloud ensured.2)).
Proof.
  intros Hframe. cbv zeta. split; [|split; [|split]].
  - apply (trace_ok_impl (reconcile_justified lb service)).
    + by intros pre ev (_ & ? & ?).
    + apply (EnsureLoadBalancer_run lb service nodeFilter ticks nodes s).
  - apply (trace_ok_impl (reconcile_justified lb service)).
    + by intros pre ev (_ & ? & ?).
    + apply (UpdateLoadBalancer_run lb service nodeFilter nodes s).
  - by apply (UpdateLoadBalancer_keeps obs Hframe lb service nodeFilter nodes (obs s)
                (mkWorld s [])).
  - by apply (EnsureLoadBalancer_keeps obs Hframe lb service nodeFilter ticks nodes (obs s)
                (mkWorld s [])).
Qed.

(** C2 on the reference cloud: the load balancer is created with the
    annotation set to true, the annotation is toggled to false, and a
    reconcile of the toggled Service leaves the attribute true. *)
Lemma internal_flag_is_set_at_creation_only_witness :
  internal_flags Scenario.internal_cloud = [("lb-1", true)]
  ∧ internal_flags
      (cloud (@UpdateLoadBalancer AsciiText _ RefCloud.client Scenario.provider
                (Scenario.cache []) Scenario.internal_false Scenario.nodes
                (mkWorld Scenario.internal_cloud [])).2)
    = internal_flags Scenario.internal_cloud
  ∧ internal_flags (cloud (Scenario.ensure Scenario.internal_false Scenario.internal_cloud).2)
    = [("lb-1", true)].
Proof.
  split; [vm_compute; reflexivity|]. split; [|vm_compute; reflexivity].
  apply (@internal_flag_is_set_at_creation_only AsciiText _ _ RefCloud.client internal_flags
           Scenario.provider (Scenario.cache []) 3%nat Scenario.internal_false Scenario.nodes
           Scenario.internal_cloud reference_cloud_keeps_internal_flags).
Defined.

(** * Further properties of the provider

    Properties of the code beyond those of its specification: what the
    helpers guarantee, what the operations never do, and how the functions
    fit together. *)

(** ** Deduplication *)

Lemma dedup_first_elem_of (l : list string) (x : string) : x ∈ dedup_first l ↔ x ∈ l.
Proof.
  induction l as [|a r IH]; [done|]. simpl.
  rewrite !elem_of_cons, list_elem_of_filter, IH.
  destruct (decide (x = a)); tauto.
Qed.

Lemma dedup_first_NoDup (l : list string) : NoDup (dedup_first l).
Proof.
  induction l as [|a r IH]; simpl; [constructor|].
  apply NoDup_cons. split.
  - rewrite list_elem_of_filter. by intros [Hne _].
  - by apply NoDup_filter.
Qed.

Lemma dedup_first_sublist (l : list string) : dedup_first l `sublist_of` l.
Proof.
  induction l as [|a r IH]; simpl; [done|].
  apply sublist_skip. etrans; [apply sublist_filter|done].
Qed.

Lemma dedup_first_app (a b : list string) :
  dedup_first (a ++ b) = dedup_first a ++ filter (λ x, x ∉ a) (dedup_first b).
Proof.
  induction a as [|x a IH]; simpl.
  - symmetry. apply filter_all. intros y. apply not_elem_of_nil.
  - f_equal. rewrite IH, filter_app, list_filter_filter. f_equal.
    apply list_filter_iff. intros y. rewrite not_elem_of_cons. tauto.
Qed.

(** [removeDuplicateStrings] returns a list without duplicates that has
    the elements of its input, in the order of their first occurrences:
    it is a sublist of the input, and on a concatenation it keeps the
    result of the first part and appends what is new in the second. *)
Theorem removeDuplicateStrings_keeps_first_occurrences (input more : list string) :
  NoDup (removeDuplicateStrings input)
  ∧ (∀ x, x ∈ removeDuplicateStrings input ↔ x ∈ input)
  ∧ removeDuplicateStrings input `sublist_of` input
  ∧ removeDuplicateStrings (input ++ more)
    = removeDuplicateStrings input
      ++ filter (λ x, x ∉ input) (removeDuplicateStrings more).
Proof.
  rewrite !removeDuplicateStrings_dedup_first.
  split; [apply dedup_first_NoDup|].
  split; [intros x; apply dedup_first_elem_of|].
  split; [apply dedup_first_sublist|apply dedup_first_app].
Qed.

(** ** Access-control lists of the desired listeners *)

Section ListenerProperties.
Context `{GoText}.

Lemma valid_cidrs_elem_of (val src : string) :
  src ∈ valid_cidrs val →
  src ≠ "" ∧ is_Some (ParseCIDR src) ∧ ∃ entry, entry ∈ Go.Split val "," ∧ src = TrimSpace entry.
Proof.
  unfold valid_cidrs. rewrite list_elem_of_filter, list_elem_of_fmap.
  intros [[Hne Hparse] (entry & -> & Hentry)]. eauto.
Qed.

Lemma annotation_cidrs_elem_of (A : gmap string string) (key src : string) :
  src ∈ annotation_cidrs A key →
  ∃ val entry, A !! key = Some val ∧ entry ∈ Go.Split val "," ∧ src = TrimSpace entry
               ∧ src ≠ "" ∧ is_Some (ParseCIDR src).
Proof.
  unfold annotation_cidrs. destruct (A !! key) as [val|]; [|by intros ?%not_elem_of_nil].
  intros (? & ? & entry & ? & ?)%valid_cidrs_elem_of. by exists val, entry.
Qed.

(** Every allowed source of a desired listener is the trimmed form of a
    comma-separated entry of one of the three access-control annotations
    of the Service (the global one, the one of the port name, the one of
    the port number), is not empty and is accepted by [net.ParseCIDR];
    no source is listed twice. *)
Theorem listener_sources_are_valid_cidrs (lb : loadbalancer) (service : Service)
    (i : nat) (l : VpcLoadbalancerListener) :
  desiredVpcLoadbalancerListener lb service !! i = Some l →
  NoDup (l_AllowedSources l)
  ∧ ∀ src, src ∈ l_AllowedSources l →
      src ≠ "" ∧ is_Some (ParseCIDR src)
      ∧ ∃ key val entry,
          key ∈ LoadbalancerAnnotationAclAllowedSources
                :: (LoadbalancerAnnotationAclAllowedSourcesPort +:+ "-" +:+ Go.Itoa (l_Port l))
                :: ((λ p, LoadbalancerAnnotationAclAllowedSourcesPort +:+ "-" +:+ sp_Name p)
                      <$> svc_Ports service)
          ∧ svc_Annotations service !! key = Some val
          ∧ entry ∈ Go.Split val "," ∧ src = TrimSpace entry.
Proof.
  unfold desiredVpcLoadbalancerListener.
  destruct (getIntAnnotation service LoadbalancerAnnotationIdleConnectionTimeout _) as [timeout ?].
  destruct (getIntAnnotation service LoadbalancerAnnotationMaxConnections _) as [maxconn ?].
  rewrite list_lookup_fmap. destruct (svc_Ports service !! i) as [p|] eqn:Hp; [|done].
  intros [= <-]. simpl.
  rewrite removeDuplicateStrings_dedup_first, getPerPortAclAllowedSources_spec.
  split; [apply dedup_first_NoDup|].
  intros src. rewrite dedup_first_elem_of, elem_of_app, dedup_first_elem_of, elem_of_app.
  intros [Hglobal|[Hname|Hnumber]].
  - assert (src ∈ annotation_cidrs (svc_Annotations service)
                    LoadbalancerAnnotationAclAllowedSources) as Hsrc.
    { unfold annotation_cidrs.
      destruct (svc_Annotations service !! LoadbalancerAnnotationAclAllowedSources);
        [by rewrite <- parseAclSources_valid_cidrs|done]. }
    apply annotation_cidrs_elem_of in Hsrc as (val & entry & ? & ? & ? & ? & ?).
    do 2 (split; [done|]). eexists _, val, entry. split; [|done].
    apply list_elem_of_here.
  - unfold acl_port_name in Hname. destruct (decide (sp_Name p = "")); [by apply not_elem_of_nil in Hname|].
    apply annotation_cidrs_elem_of in Hname as (val & entry & ? & ? & ? & ? & ?).
    do 2 (split; [done|]).
    exists (LoadbalancerAnnotationAclAllowedSourcesPort +:+ "-" +:+ sp_Name p), val, entry.
    split; [|rewrite acl_port_key; done].
    do 2 apply list_elem_of_further. apply list_elem_of_fmap. exists p.
    split; [done|]. by apply list_elem_of_lookup_2 in Hp.
  - apply annotation_cidrs_elem_of in Hnumber as (val & entry & ? & ? & ? & ? & ?).
    do 2 (split; [done|]).
    exists (LoadbalancerAnnotationAclAllowedSourcesPort +:+ "-" +:+ Go.Itoa (sp_Port p)), val, entry.
    split; [|rewrite acl_port_key; done].
    apply list_elem_of_further, list_elem_of_here.
Qed.

End ListenerProperties.

(** The listener of port 80 of the Service with a global, a by-name and a
    by-number list: three sources, each a valid network. *)
Lemma listener_sources_are_valid_cidrs_witness :
  ∃ l, @desiredVpcLoadbalancerListener AsciiText Scenario.provider Scenario.per_port_acl !! 0%nat
       = Some l
       ∧ l_AllowedSources l = ["10.0.0.0/8"; "192.168.1.0/24"; "172.16.0.0/12"]
       ∧ NoDup (l_AllowedSources l).
Proof.
  eexists. split; [vm_compute; reflexivity|]. split; [reflexivity|].
  apply (@listener_sources_are_valid_cidrs AsciiText Scenario.provider Scenario.per_port_acl 0).
  vm_compute. reflexivity.
Defined.
